(** * BucketBird: the folder layer over a flat S3 bucket

    A shallow embedding of the Go backend's object layer:
    - [internal/storage/objectstore.go] (package [storage]): the thin
      adapter over the S3 client, with the paginated enumeration
      [ListAllObjects], the chunked [DeleteObjects] and [PresignObject];
    - [internal/service] (package [service]): [BucketService.ListObjects]
      (the folder projection), [DeleteObjects], [RenameObject],
      [CopyObject], [ZipFolder] and [formatByteSize];
    - [internal/api/buckets/object_handlers.go]: the expiry default of the
      presign handler.

    Further on, the rest of the same files: [EnsureBucket] and
    [DeleteBucket] of [ObjectStore]; [SearchObjects], [UploadObject],
    [CreateFolder] and [GetObjectMetadata] of [BucketService] and the
    listing of a demo user, [getDemoObjects]; and what the handlers of
    delete, rename and copy answer.

    Go strings are byte strings and are modelled by [string]; [int64] and
    [time.Duration] by [Z]; a Go pair [(result, error)] by a pair whose
    second component is an [option]. *)

From Stdlib Require Import ZArith Ascii String List Lia Bool.
From Stdlib Require Import DecimalString DecimalN.
From stdpp Require Import base option list sorting gmap strings.

Local Open Scope Z_scope.

#[local] Arguments String.append !_ _ / : simpl nomatch.
#[local] Set Warnings "-clear-no-such-hyp".

(** ** Package [strings] and [path] of the Go standard library *)

Module strings.

Fixpoint drop (n : nat) (s : string) : string :=
  match n, s with
  | O, _ => s
  | S n', String _ s' => drop n' s'
  | S _, EmptyString => EmptyString
  end.

(** [strings.HasPrefix(s, prefix)] *)
Fixpoint HasPrefix (s prefix : string) {struct prefix} : bool :=
  match prefix, s with
  | EmptyString, _ => true
  | String c p, String d s' => if Ascii.eqb c d then HasPrefix s' p else false
  | String _ _, EmptyString => false
  end.

(** [strings.HasSuffix(s, suffix)] *)
Definition HasSuffix (s suffix : string) : bool :=
  (String.length suffix <=? String.length s)%nat
  && String.eqb (drop (String.length s - String.length suffix) s) suffix.

(** [strings.TrimPrefix(s, prefix)] *)
Definition TrimPrefix (s prefix : string) : string :=
  if HasPrefix s prefix then drop (String.length prefix) s else s.

(** [strings.TrimSuffix(s, suffix)] *)
Definition TrimSuffix (s suffix : string) : string :=
  if HasSuffix s suffix
  then String.substring 0 (String.length s - String.length suffix) s
  else s.

(** [strings.TrimLeft(s, cutset)] for a one-byte cutset. *)
Fixpoint TrimLeft1 (s : string) (c : ascii) : string :=
  match s with
  | String d s' => if Ascii.eqb d c then TrimLeft1 s' c else s
  | EmptyString => EmptyString
  end.

(** [strings.Contains(s, substr)] *)
Fixpoint Contains (s substr : string) : bool :=
  HasPrefix s substr
  || match s with
     | String _ s' => Contains s' substr
     | EmptyString => false
     end.

(** [strings.SplitN(s, sep, 2)] for a one-byte separator: the text before
    the first separator and, when there is one, the text after it. *)
Fixpoint Cut1 (s : string) (sep : ascii) : string * option string :=
  match s with
  | EmptyString => (EmptyString, None)
  | String d s' =>
      if Ascii.eqb d sep then (EmptyString, Some s')
      else let '(a, b) := Cut1 s' sep in (String d a, b)
  end.

(** [strings.Replace(s, old, new, 1)]: the first occurrence of [old] is
    replaced; an empty [old] matches at the start of [s]. *)
Fixpoint Replace1 (s old new : string) : string :=
  if HasPrefix s old then new +:+ drop (String.length old) s
  else match s with
       | String c s' => String c (Replace1 s' old new)
       | EmptyString => EmptyString
       end.

Definition is_upper (c : ascii) : bool :=
  let n := nat_of_ascii c in ((65 <=? n) && (n <=? 90))%nat.
Definition is_lower (c : ascii) : bool :=
  let n := nat_of_ascii c in ((97 <=? n) && (n <=? 122))%nat.

Definition lower_ascii (c : ascii) : ascii :=
  if is_upper c then ascii_of_nat (nat_of_ascii c + 32) else c.
Definition upper_ascii (c : ascii) : ascii :=
  if is_lower c then ascii_of_nat (nat_of_ascii c - 32) else c.

Fixpoint map_bytes (f : ascii -> ascii) (s : string) : string :=
  match s with
  | EmptyString => EmptyString
  | String c s' => String (f c) (map_bytes f s')
  end.

(** Every byte of [s] is below [utf8.RuneSelf]. *)
Fixpoint is_ascii (s : string) : bool :=
  match s with
  | EmptyString => true
  | String c s' => (nat_of_ascii c <? 128)%nat && is_ascii s'
  end.

(** [strings.ToLower] and [strings.ToUpper] on ASCII text, which is what
    object keys and HTTP method names are taken to be; a byte outside
    [A-Za-z] is left as it is. This is the path the two functions take
    when [is_ascii s] holds. On any other text they map rune by rune with
    the Unicode case tables, and put [utf8.RuneError] for bytes that are
    not UTF-8: that path is not modelled, so what is stated about the
    letters of the result is stated for text with [is_ascii s = true]. *)
Definition ToLower : string -> string := map_bytes lower_ascii.
Definition ToUpper : string -> string := map_bytes upper_ascii.

(** [strings.IndexByte(s, c) >= 0] *)
Fixpoint has_byte (c : ascii) (s : string) : bool :=
  match s with
  | EmptyString => false
  | String d s' => Ascii.eqb d c || has_byte c s'
  end.

(** The last byte of [s], if it has one. *)
Fixpoint last_byte (s : string) : option ascii :=
  match s with
  | EmptyString => None
  | String c EmptyString => Some c
  | String _ s' => last_byte s'
  end.

(** [s + sep + ...] of a list, as [strings.Join]. *)
Fixpoint Join (l : list string) (sep : string) : string :=
  match l with
  | [] => EmptyString
  | [x] => x
  | x :: l' => x +:+ sep +:+ Join l' sep
  end.

(** All the fields separated by a one-byte separator. *)
Fixpoint Split1 (s : string) (sep : ascii) : list string :=
  match s with
  | EmptyString => [EmptyString]
  | String d s' =>
      if Ascii.eqb d sep then EmptyString :: Split1 s' sep
      else match Split1 s' sep with
           | a :: l => String d a :: l
           | [] => [String d EmptyString]
           end
  end.

End strings.

Module path.

(** One step of [path.Clean] on the element [e], with the elements kept so
    far in [out], last one first: an empty element and [.] are dropped,
    [..] removes the last kept real element, is dropped at the root of a
    rooted path, and is kept in front of an unrooted one. *)
Definition clean_step (rooted : bool) (out : list string) (e : string)
  : list string :=
  if String.eqb e "" then out
  else if String.eqb e "." then out
  else if String.eqb e ".." then
    match out with
    | [] => if rooted then [] else [".."]
    | last :: out' =>
        if String.eqb last ".." then ".." :: out else out'
    end
  else e :: out.

(** [path.Clean(p)]: the shortest path equivalent to [p]. *)
Definition Clean (p : string) : string :=
  match p with
  | EmptyString => "."
  | String c _ =>
      let rooted := Ascii.eqb c "/"%char in
      let out := fold_left (clean_step rooted) (strings.Split1 p "/"%char) [] in
      let body := strings.Join (rev out) "/" in
      if rooted then "/" +:+ body
      else if String.eqb body "" then "." else body
  end.

End path.

(** ** Numbers: [int64], [float64] and [%.1f] *)

Module numeric.

(** The integer nearest to [n / d], a tie going to the even neighbour
    (IEEE 754 round-to-nearest-even, which is also how [strconv] rounds an
    exactly representable decimal expansion). *)
Definition round_half_even (n d : Z) : Z :=
  let q := n / d in
  let r := n mod d in
  if 2 * r <? d then q
  else if d <? 2 * r then q + 1
  else if Z.even q then q else q + 1.

(** [float64(n)] for a positive [int64]: [n] rounded to 53 significant
    bits. The result is again an integer, so it is kept in [Z]. *)
Definition float64_of_int64 (n : Z) : Z :=
  let e := Z.max 0 (Z.log2 n - 52) in
  round_half_even n (2 ^ e) * 2 ^ e.

(** A [float64] that is [mant / 1024 ^ scale]. Dividing a binary float by
    1024 only lowers its exponent, so the quotients of [formatByteSize]
    are exact and are kept in this form. *)
Record float64 := { mant : Z; scale : nat }.

Definition of_int64 (n : Z) : float64 :=
  {| mant := float64_of_int64 n; scale := 0 |}.
Definition div1024 (f : float64) : float64 :=
  {| mant := mant f; scale := S (scale f) |}.
(** [f >= 1024] *)
Definition ge1024 (f : float64) : bool :=
  1024 * 1024 ^ Z.of_nat (scale f) <=? mant f.
(** [f] in tenths, rounded as [%.1f] rounds. *)
Definition tenths (f : float64) : Z :=
  round_half_even (10 * mant f) (1024 ^ Z.of_nat (scale f)).

(** Decimal digits of a natural number, as [%d] prints them. *)
Definition itoa (n : Z) : string :=
  NilZero.string_of_uint (N.to_uint (Z.to_N n)).

(** The value of a decimal numeral; [None] when a byte is not a digit. *)
Definition atoi (s : string) : option Z :=
  match NilZero.uint_of_string s with
  | Some d => Some (Z.of_N (N.of_uint d))
  | None => None
  end.

(** [fmt.Sprintf("%.1f", f)] for [f >= 0]. *)
Definition sprintf_1f (f : float64) : string :=
  let t := tenths f in itoa (t / 10) +:+ "." +:+ itoa (t mod 10).

(** [int64] arithmetic wraps around. *)
Definition wrap64 (z : Z) : Z := (z + 2 ^ 63) mod 2 ^ 64 - 2 ^ 63.

End numeric.

(** ** The S3 client, as the adapter sees it *)

Module s3.

(** Go's [error], kept as its message. *)
Definition error := string.

(** [types.Object]: every field is a pointer in the SDK. *)
Record Object := {
  Key : option string;
  Size : option Z;
  LastModified : option Z;
}.

(** [s3.ListObjectsV2Output], for an opaque continuation token. *)
Record ListObjectsV2Output (Token : Type) := {
  Contents : list Object;
  IsTruncated : option bool;
  NextContinuationToken : option Token;
}.
Arguments Contents {Token} _.
Arguments IsTruncated {Token} _.
Arguments NextContinuationToken {Token} _.

(** [s3.GetObjectOutput], with the body already read. *)
Record GetObjectOutput := {
  Body : string;
  ContentType : option string;
  ContentLength : option Z;
}.

(** The calls of [*s3.Client] the adapter uses on one bucket whose state
    is [St]. A read leaves the bucket as it is; a write returns the new
    state together with the error, if any. *)
Record Client (St Token : Type) := {
  ListObjectsV2 : string -> option Token -> St ->
                  error + ListObjectsV2Output Token;
  GetObject : string -> St -> error + GetObjectOutput;
  CopyObject : string -> string -> St -> St * option error;
  DeleteObjects : list string -> St -> St * option error;
}.
Arguments ListObjectsV2 {St Token} _ _ _ _.
Arguments GetObject {St Token} _ _ _.
Arguments CopyObject {St Token} _ _ _ _.
Arguments DeleteObjects {St Token} _ _ _.

(** A listing served from a fixed script of pages: the token is the index
    of the next page, and every page but the last is truncated. *)
Definition serve_pages (pages : list (list Object)) (token : option nat)
  : error + ListObjectsV2Output nat :=
  let i := default 0%nat token in
  let more := bool_decide (S i < length pages)%nat in
  inr {| Contents := default [] (pages !! i);
         IsTruncated := Some more;
         NextContinuationToken := if more then Some (S i) else None |}.

Fixpoint chunks_go {A} (fuel n : nat) (l : list A) : list (list A) :=
  match fuel, l with
  | S fuel', _ :: _ => take n l :: chunks_go fuel' n (drop n l)
  | _, _ => []
  end.

(** [l] cut into pages of [n] entries. *)
Definition chunks {A} (n : nat) (l : list A) : list (list A) :=
  chunks_go (length l) n l.

End s3.

(** ** An in-memory bucket that follows the S3 protocol *)

Module membucket.

Record Stored := { body : string; mtime : Z }.

#[global] Instance Stored_eq_dec : EqDecision Stored.
Proof. solve_decision. Defined.

Abbreviation Bucket := (gmap string Stored).

Definition key_le (a b : string * Stored) : Prop := String.le a.1 b.1.

#[global] Instance key_le_dec : RelDecision key_le.
Proof. intros a b. unfold key_le. apply _. Defined.

#[global] Instance key_le_trans : Transitive key_le.
Proof. intros a b c. unfold key_le. apply transitivity. Qed.

#[global] Instance key_le_total : Total key_le.
Proof. intros a b. unfold key_le. apply total, _. Qed.

Definition to_object (kv : string * Stored) : s3.Object :=
  {| s3.Key := Some kv.1;
     s3.Size := Some (Z.of_nat (String.length (body kv.2)));
     s3.LastModified := Some (mtime kv.2) |}.

(** The objects whose key starts with [prefix], in the byte order of
    their keys, as S3 lists them. *)
Definition entries_under (prefix : string) (b : Bucket)
  : list (string * Stored) :=
  merge_sort key_le
    (filter (fun kv => strings.HasPrefix kv.1 prefix = true) (map_to_list b)).

Definition objects_under (prefix : string) (b : Bucket) : list s3.Object :=
  to_object <$> entries_under prefix b.

Definition NoSuchKey : s3.error := "NoSuchKey: The specified key does not exist.".
Definition InvalidRequest : s3.error :=
  "InvalidRequest: This copy request is illegal because it is trying to copy an object to itself.".

(** The bucket behind a client whose listing returns [pagesize] keys per
    page. A copy of a key onto itself is refused with [InvalidRequest] and
    a copy of a missing key with [NoSuchKey]; deleting a missing key is not
    an error. *)
Definition client (pagesize : nat) : s3.Client Bucket nat := {|
  s3.ListObjectsV2 prefix token b :=
    s3.serve_pages (s3.chunks pagesize (objects_under prefix b)) token;
  s3.GetObject key b :=
    match b !! key with
    | Some o => inr {| s3.Body := body o;
                       s3.ContentType := None;
                       s3.ContentLength := Some (Z.of_nat (String.length (body o))) |}
    | None => inl NoSuchKey
    end;
  s3.CopyObject src dst b :=
    if String.eqb src dst then (b, Some InvalidRequest)
    else match b !! src with
         | Some o => (<[dst := o]> b, None)
         | None => (b, Some NoSuchKey)
         end;
  s3.DeleteObjects keys b := (foldr delete b keys, None);
|}.

(** The same bucket behind a connection that drops every copy of the key
    [broken]. *)
Definition flaky_client (broken : string) (pagesize : nat)
  : s3.Client Bucket nat := {|
  s3.ListObjectsV2 := s3.ListObjectsV2 (client pagesize);
  s3.GetObject := s3.GetObject (client pagesize);
  s3.CopyObject src dst b :=
    if String.eqb src broken then (b, Some "connection reset")
    else s3.CopyObject (client pagesize) src dst b;
  s3.DeleteObjects := s3.DeleteObjects (client pagesize);
|}.

End membucket.

(** ** Package [storage]: [ObjectStore] *)

Module storage.

Section ObjectStore.
Context {St Token : Type} (client : s3.Client St Token).

(** [ObjectStore.ListObjects]: the first page only. *)
Definition ListObjects (prefix : string) (st : St)
  : s3.error + list s3.Object :=
  match s3.ListObjectsV2 client prefix None st with
  | inl err => inl err
  | inr out => inr (s3.Contents out)
  end.

(** The [for] loop of [ObjectStore.ListAllObjects], [call] being the
    request with the bucket and the prefix filled in. The loop has no
    bound of its own: [None] is a run that has not ended within [fuel]
    requests. *)
Fixpoint ListAllObjects_loop
    (call : option Token -> s3.error + s3.ListObjectsV2Output Token)
    (fuel : nat) (continuationToken : option Token)
    (result : list s3.Object)
  : option (s3.error + list s3.Object) :=
  match fuel with
  | O => None
  | S fuel' =>
      match call continuationToken with
      | inl err => Some (inl err)
      | inr out =>
          let result := result ++ s3.Contents out in
          match s3.IsTruncated out, s3.NextContinuationToken out with
          | Some true, Some next =>
              ListAllObjects_loop call fuel' (Some next) result
          | _, _ => Some (inr result)
          end
      end
  end.

(** [ObjectStore.ListAllObjects] *)
Definition ListAllObjects (fuel : nat) (prefix : string) (st : St)
  : option (s3.error + list s3.Object) :=
  ListAllObjects_loop (fun token => s3.ListObjectsV2 client prefix token st)
    fuel None [].

(** The chunk loop of [ObjectStore.DeleteObjects]; [keys] is what is
    left of the slice from [start] on. Every round takes a chunk off a
    non-empty [keys], so [length keys] rounds are enough. *)
Fixpoint DeleteObjects_loop (fuel : nat) (keys : list string) (st : St)
  : St * option s3.error :=
  match fuel, keys with
  | S fuel', _ :: _ =>
      let chunk := take 1000 keys in
      match s3.DeleteObjects client chunk st with
      | (st', Some err) => (st', Some err)
      | (st', None) => DeleteObjects_loop fuel' (drop 1000 keys) st'
      end
  | _, _ => (st, None)
  end.

(** [ObjectStore.DeleteObjects]: batches of at most 1000 keys. *)
Definition DeleteObjects (keys : list string) (st : St)
  : St * option s3.error :=
  DeleteObjects_loop (length keys) keys st.

(** [ObjectStore.CopyObject]. The copy source goes over the wire as the
    path-escaped [bucket/key], which the server decodes back to
    [sourceKey]. *)
Definition CopyObject (sourceKey destinationKey : string) (st : St)
  : St * option s3.error :=
  s3.CopyObject client sourceKey destinationKey st.

(** [ObjectStore.GetObject] *)
Definition GetObject (key : string) (st : St)
  : s3.error + s3.GetObjectOutput :=
  s3.GetObject client key st.

(** [ObjectStore.CalculateBucketSize] *)
Definition CalculateBucketSize (fuel : nat) (st : St)
  : option (s3.error + Z) :=
  match ListAllObjects fuel "" st with
  | None => None
  | Some (inl err) => Some (inl err)
  | Some (inr objects) =>
      Some (inr (fold_left
                   (fun totalSize obj =>
                      match s3.Size obj with
                      | Some n => numeric.wrap64 (totalSize + n)
                      | None => totalSize
                      end) objects 0))
  end.

End ObjectStore.

(** Package [time]: a [Duration] counts nanoseconds. *)
Definition Second : Z := 1000000000.
Definition Minute : Z := 60 * Second.

Record PresignInput := {
  Bucket : string;
  Key : string;
  Method : string;
  ExpiresIn : Z;
  ContentType : option string;
}.

Record PresignOutput := {
  URL : string;
  Method_signed : string;
}.

(** [input] with its [ExpiresIn] set to [d]. *)
Definition with_expiry (d : Z) (input : PresignInput) : PresignInput :=
  {| Bucket := Bucket input;
     Key := Key input;
     Method := Method input;
     ExpiresIn := d;
     ContentType := ContentType input |}.

Section Presign.
(** [*s3.PresignClient]: bucket, key, content type and [opts.Expires]
    give the signed URL or an error. *)
Variable PresignPutObject :
  string -> string -> option string -> Z -> s3.error + string.
Variable PresignGetObject : string -> string -> Z -> s3.error + string.

(** [ObjectStore.PresignObject] *)
Definition PresignObject (input : PresignInput)
  : s3.error + PresignOutput :=
  let ExpiresIn :=
    if ExpiresIn input <=? 0 then 15 * Minute else ExpiresIn input in
  let method := strings.ToUpper (Method input) in
  if String.eqb method "PUT" then
    match PresignPutObject (Bucket input) (Key input) (ContentType input)
            ExpiresIn with
    | inl err => inl err
    | inr url => inr {| URL := url; Method_signed := "PUT" |}
    end
  else if String.eqb method "GET" then
    match PresignGetObject (Bucket input) (Key input) ExpiresIn with
    | inl err => inl err
    | inr url => inr {| URL := url; Method_signed := "GET" |}
    end
  else inl ("unsupported method " +:+ method).

End Presign.

End storage.

(** ** Package [sort] *)

Module sort.

(** [sort.Strings]: increasing byte order. Equal strings cannot be told
    apart, so every correct sort returns this slice. *)
Definition Strings (x : list string) : list string :=
  merge_sort String.le x.

(** What [sort.Slice] asks of [less]. *)
Record StrictWeak {A} (less : A -> A -> bool) : Prop := {
  less_asym : forall a b, less a b = true -> less b a = false;
  nless_trans : forall a b c,
    less b a = false -> less c b = false -> less c a = false;
}.

(** [sort.Slice], by its contract: the slice is permuted so that no
    element is [less] than an earlier one. The order of elements that
    [less] does not separate is not promised. *)
Class SliceSort := {
  Slice : forall {A}, (A -> A -> bool) -> list A -> list A;
  Slice_Permutation : forall A (less : A -> A -> bool) (x : list A),
    Slice less x ≡ₚ x;
  Slice_sorted : forall A (less : A -> A -> bool) (x : list A),
    StrictWeak less ->
    StronglySorted (fun a b => less b a = false) (Slice less x);
}.

Fixpoint insert {A} (less : A -> A -> bool) (a : A) (l : list A) : list A :=
  match l with
  | [] => [a]
  | b :: l' => if less b a then b :: insert less a l' else a :: l
  end.

(** The insertion sort that the Go runtime runs on a short slice. *)
Definition insertionSort {A} (less : A -> A -> bool) (x : list A) : list A :=
  foldr (insert less) [] x.

End sort.

(** ** Package [service]: [BucketService] *)

Module service.

Record BucketObject := {
  Key : string;
  Name : string;
  Kind : string;
  Size : string;
  LastModified : Z;
  Icon : string;
  IconColor : string;
}.

Record DeleteObjectsResult := {
  Deleted : list string;
  Failed : list string;
}.

Record OperationResult := {
  Success : bool;
  Message : string;
}.

Record PresignInput := {
  pi_Key : string;
  pi_Method : string;
  pi_Expires : Z;
  pi_ContentType : option string;
}.

Record PresignOutput := {
  URL : string;
  Expires : Z;
}.

Definition units : list string := ["B"; "KB"; "MB"; "GB"; "TB"].

(** The [for f >= 1024 && i < len(units)-1] loop; it ends by itself after
    at most four rounds. *)
Fixpoint formatByteSize_loop (fuel : nat) (f : numeric.float64) (i : nat)
  : numeric.float64 * nat :=
  match fuel with
  | O => (f, i)
  | S fuel' =>
      if numeric.ge1024 f && (i <? length units - 1)%nat
      then formatByteSize_loop fuel' (numeric.div1024 f) (S i)
      else (f, i)
  end.

(** [formatByteSize] *)
Definition formatByteSize (bytes : Z) : string :=
  if bytes <=? 0 then "0 B"
  else
    let '(f, i) := formatByteSize_loop 4 (numeric.of_int64 bytes) 0 in
    numeric.sprintf_1f f +:+ " " +:+ default "" (units !! i).

(** The number that [formatByteSize] prints, in tenths of a byte. *)
Definition size_tenths (bytes : Z) : Z :=
  if bytes <=? 0 then 0
  else
    let '(f, i) := formatByteSize_loop 4 (numeric.of_int64 bytes) 0 in
    numeric.tenths f * 1024 ^ Z.of_nat i.

Definition unit_index (u : string) : option nat :=
  fst <$> list_find (fun v => v = u) units.

(** The size that a formatted string stands for, in tenths of a byte:
    the numeral, with at most one decimal, times the power of 1024 that
    the unit names. *)
Definition size_denoted (s : string) : option Z :=
  let '(num, unit) := strings.Cut1 s " "%char in
  i ← unit ≫= unit_index;
  let '(ip, fp) := strings.Cut1 num "."%char in
  a ← numeric.atoi ip;
  match fp with
  | None => Some (10 * a * 1024 ^ Z.of_nat i)
  | Some fp =>
      d ← numeric.atoi fp;
      if (String.length fp =? 1)%nat
      then Some ((10 * a + d) * 1024 ^ Z.of_nat i) else None
  end.

(** The zero value of [BucketObject]. *)
Definition zero : BucketObject :=
  {| Key := ""; Name := ""; Kind := ""; Size := ""; LastModified := 0;
     Icon := ""; IconColor := "" |}.

(** The prefix as sent to the store: a non-empty one ends in a slash. *)
Definition normalize_prefix (prefix : string) : string :=
  if negb (String.eqb prefix "") && negb (strings.HasSuffix prefix "/")
  then prefix +:+ "/" else prefix.

(** The key relative to the prefix; [None] where the loop [continue]s. *)
Definition relative_key (s3Prefix key : string) : option string :=
  if negb (String.eqb s3Prefix "") then
    if negb (strings.HasPrefix key s3Prefix) then None
    else
      let key := strings.TrimPrefix key s3Prefix in
      Some (if strings.HasPrefix key "/"
            then strings.TrimLeft1 key "/"%char else key)
  else Some key.

(** The locals [folderMap], [folderKeys] and [files] of [ListObjects]. *)
Record grouping := {
  folderMap : gmap string BucketObject;
  folderKeys : list string;
  files : list BucketObject;
}.

Definition folder_entry (folderPrefix folderDisplay : string) : BucketObject :=
  {| Key := folderPrefix; Name := folderDisplay; Kind := "folder";
     Size := ""; LastModified := 0;
     Icon := "folder"; IconColor := "text-amber-500" |}.

Definition file_entry (s3Prefix key : string) (obj : s3.Object) : BucketObject :=
  {| Key := s3Prefix +:+ key; Name := key; Kind := "file";
     Size := formatByteSize (default 0 (s3.Size obj));
     LastModified := default 0 (s3.LastModified obj);
     Icon := "description"; IconColor := "text-slate-500" |}.

(** The folder key of a relative key that contains a slash. *)
Definition folder_prefix (s3Prefix key : string) : string :=
  let folderRaw := (strings.Cut1 key "/"%char).1 in
  let folderPrefix := s3Prefix +:+ folderRaw in
  if negb (strings.HasSuffix folderPrefix "/")
  then folderPrefix +:+ "/" else folderPrefix.

(** One round of the grouping loop of [ListObjects]. *)
Definition group_object (s3Prefix : string) (acc : grouping) (obj : s3.Object)
  : grouping :=
  match s3.Key obj with
  | None => acc
  | Some key =>
      match relative_key s3Prefix key with
      | None => acc
      | Some key =>
          if String.eqb key "" then acc
          else if strings.Contains key "/" then
            let folderRaw := (strings.Cut1 key "/"%char).1 in
            let folderDisplay :=
              if String.eqb folderRaw "" then "(empty)" else folderRaw in
            let folderPrefix := folder_prefix s3Prefix key in
            match folderMap acc !! folderPrefix with
            | Some _ => acc
            | None =>
                {| folderMap :=
                     <[folderPrefix := folder_entry folderPrefix folderDisplay]>
                       (folderMap acc);
                   folderKeys := folderKeys acc ++ [folderPrefix];
                   files := files acc |}
            end
          else
            {| folderMap := folderMap acc;
               folderKeys := folderKeys acc;
               files := files acc ++ [file_entry s3Prefix key obj] |}
      end
  end.

(** The entry that one round of the loop adds for [key], if any: the key
    of a folder entry on the left, the name of a file entry on the right. *)
Definition child_of (s3Prefix key : string) : option (string + string) :=
  match relative_key s3Prefix key with
  | None => None
  | Some key =>
      if String.eqb key "" then None
      else if strings.Contains key "/" then Some (inl (folder_prefix s3Prefix key))
      else Some (inr key)
  end.

(** The immediate child of the prefix that [key] lies in, in the words of
    the specification: the prefix is stripped; an empty remainder is the
    folder marker of the prefix itself and has no child; a remainder with a
    slash lies in the folder named by its text up to and including the
    first slash; any other remainder is a direct file. The child is given
    by its full key. *)
Definition immediate_child (prefix key : string) : option string :=
  if strings.HasPrefix key prefix then
    let remainder := strings.TrimPrefix key prefix in
    if String.eqb remainder "" then None
    else if strings.Contains remainder "/"
         then Some (prefix +:+ (strings.Cut1 remainder "/"%char).1 +:+ "/")
         else Some (prefix +:+ remainder)
  else None.

(** The file entry that one round adds for [obj], if it adds one. *)
Definition file_of (s3Prefix : string) (obj : s3.Object) : option BucketObject :=
  match s3.Key obj with
  | None => None
  | Some key =>
      match child_of s3Prefix key with
      | Some (inr name) => Some (file_entry s3Prefix name obj)
      | _ => None
      end
  end.

(** [key], if it lies under the non-empty prefix, has no further slash
    right after it. *)
Definition plain (s3Prefix key : string) : Prop :=
  s3Prefix <> "" -> strings.HasPrefix key s3Prefix = true ->
  strings.HasPrefix (strings.TrimPrefix key s3Prefix) "/" = false.

Definition group (s3Prefix : string) (objects : list s3.Object) : grouping :=
  fold_left (group_object s3Prefix) objects
    {| folderMap := ∅; folderKeys := []; files := [] |}.

Definition keys_of (objects : list s3.Object) : list string :=
  omap s3.Key objects.

(** What the loop has built after the objects [seen]. *)
Record group_inv (P : string) (seen : list s3.Object) (acc : grouping) : Prop := {
  inv_nodup : NoDup (folderKeys acc);
  inv_keys : forall f,
    f ∈ folderKeys acc
    <-> exists k, k ∈ keys_of seen /\ child_of P k = Some (inl f);
  inv_map : forall f,
    f ∈ folderKeys acc ->
    exists e, folderMap acc !! f = Some e /\ Key e = f /\ Kind e = "folder";
  inv_dom : forall f, is_Some (folderMap acc !! f) -> f ∈ folderKeys acc;
  inv_files : files acc = omap (file_of P) seen;
}.

(** [less] of the [sort.Slice] call on [files]. With [strings.ToLower] as
    modelled, this is the comparison the code makes between names that are
    ASCII text. *)
Definition name_less (a b : BucketObject) : bool :=
  String.ltb (strings.ToLower (Name a)) (strings.ToLower (Name b)).

Section BucketService.
Context {St Token : Type} (store : s3.Client St Token).
Context `{sorter : sort.SliceSort}.


(** [ListObjects] from the store's answer on: the folder projection of
    a listing. *)
Definition project (prefix : string) (objects : list s3.Object)
  : list BucketObject :=
  let s3Prefix := normalize_prefix prefix in
  let acc := group s3Prefix objects in
  let folderKeys := sort.Strings (folderKeys acc) in
  let folders :=
    (fun key => default zero (folderMap acc !! key)) <$> folderKeys in
  let files := sort.Slice name_less (files acc) in
  folders ++ files.

(** [BucketService.ListObjects] for a regular user whose bucket and
    credentials resolve. *)
Definition ListObjects (prefix : string) (st : St)
  : s3.error + list BucketObject :=
  match storage.ListObjects store (normalize_prefix prefix) st with
  | inl err => inl err
  | inr objects => inr (project prefix objects)
  end.

(** The expansion loop of [DeleteObjects]: [inl] is the listing error
    of the first folder that could not be listed. *)
Fixpoint DeleteObjects_expand (fuel : nat) (keys : list string)
    (allKeysToDelete : list string) (st : St)
  : option (s3.error + list string) :=
  match keys with
  | [] => Some (inr allKeysToDelete)
  | key :: keys' =>
      if strings.HasSuffix key "/" then
        match storage.ListAllObjects store fuel key st with
        | None => None
        | Some (inl err) => Some (inl err)
        | Some (inr objects) =>
            DeleteObjects_expand fuel keys'
              ((allKeysToDelete ++ keys_of objects) ++ [key]) st
        end
      else DeleteObjects_expand fuel keys' (allKeysToDelete ++ [key]) st
  end.

(** [BucketService.DeleteObjects]. The size recalculation it launches
    runs detached and is left out. *)
Definition DeleteObjects (fuel : nat) (keys : list string) (st : St)
  : option (St * (DeleteObjectsResult * option s3.error)) :=
  match DeleteObjects_expand fuel keys [] st with
  | None => None
  | Some (inl err) =>
      Some (st, ({| Deleted := []; Failed := keys |},
                 Some ("failed to list folder contents: " +:+ err)))
  | Some (inr allKeysToDelete) =>
      match allKeysToDelete with
      | [] => Some (st, ({| Deleted := []; Failed := [] |}, None))
      | _ :: _ =>
          match storage.DeleteObjects store allKeysToDelete st with
          | (st', Some err) =>
              Some (st', ({| Deleted := []; Failed := keys |}, Some err))
          | (st', None) =>
              Some (st', ({| Deleted := keys; Failed := [] |}, None))
          end
      end
  end.

(** The copy loop of a folder rename: [Some (oldKey, err)] is the first
    copy that failed. *)
Fixpoint RenameObject_copy (objects : list s3.Object)
    (sourceKey destinationKey : string) (st : St)
  : St * option (string * s3.error) :=
  match objects with
  | [] => (st, None)
  | obj :: objects' =>
      match s3.Key obj with
      | None => RenameObject_copy objects' sourceKey destinationKey st
      | Some oldKey =>
          let newKey := strings.Replace1 oldKey sourceKey destinationKey in
          match storage.CopyObject store oldKey newKey st with
          | (st', Some err) => (st', Some (oldKey, err))
          | (st', None) =>
              RenameObject_copy objects' sourceKey destinationKey st'
          end
      end
  end.

Definition failed (message : string) (err : s3.error)
  : OperationResult * option s3.error :=
  ({| Success := false; Message := message +:+ err |}, Some err).

(** [BucketService.RenameObject] *)
Definition RenameObject (fuel : nat) (sourceKey destinationKey : string)
    (st : St)
  : option (St * (OperationResult * option s3.error)) :=
  if strings.HasSuffix sourceKey "/" then
    match storage.ListAllObjects store fuel sourceKey st with
    | None => None
    | Some (inl err) =>
        Some (st, failed "failed to list folder contents: " err)
    | Some (inr objects) =>
        match RenameObject_copy objects sourceKey destinationKey st with
        | (st1, Some (oldKey, err)) =>
            Some (st1, failed ("failed to copy object " +:+ oldKey +:+ ": ") err)
        | (st1, None) =>
            match storage.CopyObject store sourceKey destinationKey st1 with
            | (st2, Some err) =>
                Some (st2, failed "failed to copy folder marker: " err)
            | (st2, None) =>
                match storage.DeleteObjects store [sourceKey] st2 with
                | (st3, Some err) =>
                    Some (st3, failed "copied but failed to delete original: " err)
                | (st3, None) =>
                    Some (st3, ({| Success := true;
                                   Message := "Object renamed successfully" |},
                                None))
                end
            end
        end
    end
  else
    match storage.CopyObject store sourceKey destinationKey st with
    | (st1, Some err) => Some (st1, failed "failed to copy object: " err)
    | (st1, None) =>
        match storage.DeleteObjects store [sourceKey] st1 with
        | (st2, Some err) =>
            Some (st2, failed "copied but failed to delete original: " err)
        | (st2, None) =>
            Some (st2, ({| Success := true;
                           Message := "Object renamed successfully" |},
                        None))
        end
    end.

(** [BucketService.CopyObject] *)
Definition CopyObject (sourceKey destinationKey : string) (st : St)
  : St * (OperationResult * option s3.error) :=
  match storage.CopyObject store sourceKey destinationKey st with
  | (st', Some err) => (st', failed "failed to copy object: " err)
  | (st', None) =>
      (st', ({| Success := true; Message := "Object copied successfully" |},
             None))
  end.

(** The sanitized entry name of [key] in the archive of [prefix]. *)
Definition safePath (prefix key : string) : string :=
  let relativePath := strings.TrimPrefix key prefix in
  strings.TrimPrefix (path.Clean relativePath) "/".

(** The zip-slip test: [true] where the entry is skipped. *)
Definition unsafe (safePath : string) : bool :=
  String.eqb safePath "" || String.eqb safePath "."
  || strings.HasPrefix safePath ".." || strings.Contains safePath "../".

(** The loop of the archive goroutine: the entries written, as name and
    content, in the order they are written. Creating an entry and
    copying a body that was fetched are taken to succeed. *)
Fixpoint ZipFolder_entries (objects : list s3.Object) (prefix : string)
    (st : St) : list (string * string) :=
  match objects with
  | [] => []
  | obj :: objects' =>
      let rest := ZipFolder_entries objects' prefix st in
      match s3.Key obj with
      | None => rest
      | Some key =>
          if String.eqb key prefix then rest
          else
            match storage.GetObject store key st with
            | inl _ => rest
            | inr objData =>
                let safePath := safePath prefix key in
                if unsafe safePath then rest
                else (safePath, s3.Body objData) :: rest
            end
      end
  end.

(** [BucketService.ZipFolder] for a regular user: the archive and its
    file name. *)
Definition ZipFolder (fuel : nat) (prefix : string) (st : St)
  : option (s3.error + list (string * string) * string) :=
  match storage.ListAllObjects store fuel prefix st with
  | None => None
  | Some (inl err) => Some (inl err)
  | Some (inr objects) =>
      let folderName := strings.TrimSuffix prefix "/" in
      let folderName :=
        if String.eqb folderName "" then "download" else folderName in
      Some (inr (ZipFolder_entries objects prefix st, folderName +:+ ".zip"))
  end.

End BucketService.

Section Presign.
Variable PresignPutObject :
  string -> string -> option string -> Z -> s3.error + string.
Variable PresignGetObject : string -> string -> Z -> s3.error + string.
(** [time.Now().Add(d).Unix()] *)
Variable unix_after : Z -> Z.

(** [BucketService.PresignObject] for a regular user whose bucket is
    [bucketName]. *)
Definition PresignObject (bucketName : string) (input : PresignInput)
  : s3.error + PresignOutput :=
  match storage.PresignObject PresignPutObject PresignGetObject
          {| storage.Bucket := bucketName;
             storage.Key := pi_Key input;
             storage.Method := pi_Method input;
             storage.ExpiresIn := pi_Expires input;
             storage.ContentType := pi_ContentType input |} with
  | inl err => inl err
  | inr presigned =>
      inr {| URL := storage.URL presigned;
             Expires := unix_after (pi_Expires input) |}
  end.

End Presign.

End service.

(** ** Package [buckets]: the HTTP handlers *)

Module handlers.

(** The body of a presign request. *)
Record PresignRequest := {
  req_Key : string;
  req_Method : string;
  req_Expires : option Z;
  req_ContentType : option string;
}.

(** The [expires] local of [Handler.PresignObject]. *)
Definition presign_expires (req : PresignRequest) : Z :=
  match req_Expires req with
  | Some seconds => numeric.wrap64 (seconds * storage.Second)
  | None => 15 * storage.Minute
  end.

(** What [Handler.PresignObject] hands to the service. *)
Definition presign_input (req : PresignRequest) : service.PresignInput :=
  {| service.pi_Key := req_Key req;
     service.pi_Method := req_Method req;
     service.pi_Expires := presign_expires req;
     service.pi_ContentType := req_ContentType req |}.

End handlers.

(** ** Sample buckets and requests *)

Module samples.

Definition obj (content : string) (t : Z) : membucket.Stored :=
  {| membucket.body := content; membucket.mtime := t |}.

(** A folder [a/] with its marker and the descendants [a/x], [a/y/z]. *)
Definition folder_a : membucket.Bucket :=
  list_to_map [("a/", obj "" 1); ("a/x", obj "xx" 2); ("a/y/z", obj "zzz" 3)].

(** Keys that try to leave the archive, and one that does not. *)
Definition traversal : membucket.Bucket :=
  list_to_map [("x", obj "safe" 1); ("../evil", obj "evil" 2);
               ("a/../../b", obj "b" 3)].

Definition listed (key : string) : s3.Object :=
  {| s3.Key := Some key; s3.Size := Some 1; s3.LastModified := Some 0 |}.

(** A listing under [p/]: the marker, two folders and a file. *)
Definition under_p : list s3.Object :=
  listed <$> ["p/"; "p/B/z"; "p/a/x"; "p/a/y"; "p/f"].

Definition three_pages : list (list s3.Object) :=
  [[listed "a/x"]; []; [listed "a/y/z"; listed "b"]].

Definition sign_put (bucket key : string) (ct : option string) (d : Z)
  : s3.error + string :=
  inr ("https://s3.test/" +:+ bucket +:+ "/" +:+ key +:+ "?X-Amz-Expires="
       +:+ numeric.itoa (d / storage.Second)).

Definition sign_get (bucket key : string) (d : Z) : s3.error + string :=
  sign_put bucket key None d.

Definition presign_negative : storage.PresignInput :=
  {| storage.Bucket := "photos"; storage.Key := "a/x"; storage.Method := "get";
     storage.ExpiresIn := -5 * storage.Second; storage.ContentType := None |}.

End samples.

(** ** Stores that observe or disturb the adapter *)

Module stores.

(** A client that only keeps a log of the [DeleteObjects] requests it is
    sent, oldest first. The request number [refuse], counted from 0, is
    logged and answered with an error. *)
Definition recorder (refuse : option nat)
  : s3.Client (list (list string)) nat := {|
  s3.ListObjectsV2 _ token _ := s3.serve_pages [] token;
  s3.GetObject _ _ := inl membucket.NoSuchKey;
  s3.CopyObject _ _ log := (log, None);
  s3.DeleteObjects keys log :=
    (log ++ [keys],
     if bool_decide (refuse = Some (length log))
     then Some "InternalError: We encountered an internal error."
     else None);
|}.

(** A scripted listing whose request for page [k] fails with [err]. *)
Definition failing_pages (pages : list (list s3.Object)) (k : nat)
    (err : s3.error) (token : option nat)
  : s3.error + s3.ListObjectsV2Output nat :=
  if bool_decide (default 0%nat token = k) then inl err
  else s3.serve_pages pages token.

(** The bytes that an in-memory bucket holds. *)
Definition total_bytes (b : membucket.Bucket) : nat :=
  sum_list_with (fun kv => String.length (membucket.body kv.2)) (map_to_list b).

(** [PutObject] of an empty body into the in-memory bucket, at the time
    [now]. *)
Definition put_empty (now : Z) (key : string) (contentType : option string)
    (b : membucket.Bucket) : membucket.Bucket * option s3.error :=
  (<[key := {| membucket.body := ""; membucket.mtime := now |}]> b, None).

(** [PutObject] into the in-memory bucket, at the time [now]. *)
Definition put (now : Z) (key body contentType : string)
    (b : membucket.Bucket) : membucket.Bucket * option s3.error :=
  (<[key := {| membucket.body := body; membucket.mtime := now |}]> b, None).

End stores.

(** ** Package [service]: the other object methods of [BucketService] *)

Module bucketservice.

(** [strings.TrimRight(s, cutset)] for a one-byte cutset. *)
Fixpoint TrimRight1 (s : string) (c : ascii) : string :=
  match s with
  | EmptyString => EmptyString
  | String d s' =>
      match TrimRight1 s' c with
      | EmptyString =>
          if Ascii.eqb d c then EmptyString else String d EmptyString
      | r => String d r
      end
  end.

(** [strings.Trim(s, cutset)] for a one-byte cutset. *)
Definition Trim1 (s : string) (c : ascii) : string :=
  strings.TrimLeft1 (TrimRight1 s c) c.

Record FolderResult := { Key : string }.

Record ObjectMetadata := {
  om_Key : string;
  om_Size : Z;
  om_LastModified : Z;
  om_ContentType : string;
  om_ETag : string;
  om_Metadata : gmap string string;
}.

(** [s3.HeadObjectOutput], the fields that are read. *)
Record HeadObjectOutput := {
  ContentLength : option Z;
  LastModified : option Z;
  ContentType : option string;
  ETag : option string;
  Metadata : gmap string string;
}.

(** The local [key] of [CreateFolder]. *)
Definition CreateFolder_key (name : string) (prefix : option string) : string :=
  let key := name in
  let key :=
    match prefix with
    | Some prefix =>
        if negb (String.eqb prefix "")
        then strings.TrimSuffix prefix "/" +:+ "/" +:+ name else key
    | None => key
    end in
  if negb (strings.HasSuffix key "/") then key +:+ "/" else key.

Section BucketService.
Context {St Token : Type} (store : s3.Client St Token).
Context `{sorter : sort.SliceSort}.
(** [ObjectStore.PutEmptyObject] and [ObjectStore.HeadObject] on the
    bucket of the request. *)
Variable PutEmptyObject : string -> option string -> St -> St * option s3.error.
Variable HeadObject : string -> St -> s3.error + HeadObjectOutput.
(** [ObjectStore.PutObject] on the bucket of the request: key, body and
    content type. *)
Variable PutObject : string -> string -> string -> St -> St * option s3.error.

(** [BucketService.UploadObject], for a bucket and credentials that
    resolve. The size recalculation it launches runs detached and is left
    out. *)
Definition UploadObject (key body contentType : string) (st : St)
  : St * option s3.error :=
  match PutObject key body contentType st with
  | (st', Some err) => (st', Some err)
  | (st', None) => (st', None)
  end.

(** [BucketService.CreateFolder], for a bucket and credentials that
    resolve. *)
Definition CreateFolder (name : string) (prefix : option string) (st : St)
  : St * (s3.error + FolderResult) :=
  let key := CreateFolder_key name prefix in
  let contentType := "application/x-directory" in
  match PutEmptyObject key (Some contentType) st with
  | (st', Some err) => (st', inl err)
  | (st', None) => (st', inr {| Key := key |})
  end.

(** [BucketService.SearchObjects] for a regular user. With
    [strings.ToLower] as modelled, the filter is the one of the code when
    the query and the keys listed are ASCII text. *)
Definition SearchObjects (query : string) (st : St)
  : s3.error + list service.BucketObject :=
  match service.ListObjects store "" st with
  | inl err => inl err
  | inr objects =>
      let query := strings.ToLower query in
      inr (fold_left
             (fun filtered obj =>
                if strings.Contains (strings.ToLower (service.Key obj)) query
                then filtered ++ [obj] else filtered)
             objects [])
  end.

(** [BucketService.GetObjectMetadata] for a regular user. *)
Definition GetObjectMetadata (key : string) (st : St)
  : s3.error + ObjectMetadata :=
  match HeadObject key st with
  | inl err => inl err
  | inr head =>
      let metadata :=
        map_fold (fun k v metadata => <[k := v]> metadata) ∅ (Metadata head) in
      let contentType :=
        match ContentType head with
        | Some ct => ct
        | None => "application/octet-stream"
        end in
      inr {| om_Key := key;
             om_Size := default 0 (ContentLength head);
             om_LastModified := default 0 (LastModified head);
             om_ContentType := contentType;
             om_ETag := Trim1 (default "" (ETag head)) "034"%char;
             om_Metadata := metadata |}
  end.

End BucketService.

End bucketservice.

(** ** Buckets: [EnsureBucket] and [DeleteBucket] of [ObjectStore] *)

Module accounts.

(** The calls of [*s3.Client] that [ObjectStore] makes on whole buckets,
    for an account whose state is [St]. The listing is the first request
    of a listing, without prefix or token; the keys of a delete request
    are pointers, as in [types.ObjectIdentifier]. *)
Record Client (St : Type) := {
  HeadBucket : string -> St -> option s3.error;
  CreateBucket : string -> St -> St * option s3.error;
  DeleteBucket : string -> St -> St * option s3.error;
  ListObjectsV2 : string -> St -> s3.error + s3.ListObjectsV2Output nat;
  DeleteObjects : string -> list (option string) -> St -> St * option s3.error;
}.
Arguments HeadBucket {St} _ _ _.
Arguments CreateBucket {St} _ _ _.
Arguments DeleteBucket {St} _ _ _.
Arguments ListObjectsV2 {St} _ _ _.
Arguments DeleteObjects {St} _ _ _ _.

(** An account: its buckets by name. *)
Abbreviation Account := (gmap string membucket.Bucket).

Definition NotFound : s3.error :=
  "operation error S3: HeadBucket, https response error StatusCode: 404, api error NotFound: Not Found".
Definition NoSuchBucket : s3.error :=
  "NoSuchBucket: The specified bucket does not exist".
Definition BucketNotEmpty : s3.error :=
  "BucketNotEmpty: The bucket you tried to delete is not empty".
Definition BucketAlreadyOwnedByYou : s3.error :=
  "BucketAlreadyOwnedByYou: Your previous request to create the named bucket succeeded and you already own it.".
Definition MissingKey : s3.error :=
  "validation error: missing required field, ObjectIdentifier.Key".

(** The account in memory, behind a client whose listing returns
    [pagesize] keys per page. As in S3, a bucket that holds objects cannot
    be deleted. *)
Definition memory (pagesize : nat) : Client Account := {|
  HeadBucket name acc :=
    match acc !! name with
    | Some _ => None
    | None => Some NotFound
    end;
  CreateBucket name acc :=
    match acc !! name with
    | Some _ => (acc, Some BucketAlreadyOwnedByYou)
    | None => (<[name := ∅]> acc, None)
    end;
  DeleteBucket name acc :=
    match acc !! name with
    | None => (acc, Some NoSuchBucket)
    | Some b =>
        if decide (b = ∅) then (delete name acc, None)
        else (acc, Some BucketNotEmpty)
    end;
  ListObjectsV2 name acc :=
    match acc !! name with
    | None => inl NoSuchBucket
    | Some b =>
        s3.serve_pages (s3.chunks pagesize (membucket.objects_under "" b)) None
    end;
  DeleteObjects name keys acc :=
    match acc !! name with
    | None => (acc, Some NoSuchBucket)
    | Some b =>
        if bool_decide (None ∈ keys) then (acc, Some MissingKey)
        else (<[name := foldr delete b (omap id keys)]> acc, None)
    end;
|}.

End accounts.

Module objectstore.

Section ObjectStore.
Context {St : Type} (client : accounts.Client St).

(** [ObjectStore.EnsureBucket] *)
Definition EnsureBucket (name : string) (st : St) : St * option s3.error :=
  match accounts.HeadBucket client name st with
  | None => (st, None)
  | Some err =>
      let notFound :=
        strings.Contains err "NotFound" || strings.Contains err "404" in
      if negb notFound then (st, Some err)
      else accounts.CreateBucket client name st
  end.

(** [ObjectStore.DeleteBucket] *)
Definition DeleteBucket (name : string) (st : St) : St * option s3.error :=
  match accounts.ListObjectsV2 client name st with
  | inl err => (st, Some err)
  | inr list =>
      let '(st, err) :=
        if (0 <? length (s3.Contents list))%nat then
          let objs := s3.Key <$> s3.Contents list in
          accounts.DeleteObjects client name objs st
        else (st, None) in
      match err with
      | Some err => (st, Some err)
      | None => accounts.DeleteBucket client name st
      end
  end.

End ObjectStore.

End objectstore.

(** ** Package [buckets]: what the handlers answer *)

Module api.

(** The JSON documents that the handlers write. *)
Inductive Body :=
| error (message : string)
| result_deleted (result : service.DeleteObjectsResult)
| result_operation (result : service.OperationResult).

Record Response := { status : Z; body : Body }.

(** [Handler.respondError] *)
Definition respondError (message : string) (status : Z) : Response :=
  {| status := status; body := error message |}.

(** The body of a rename or copy request. *)
Record MoveRequest := { SourceKey : string; DestinationKey : string }.

Section Handlers.
Context {St Token UUID : Type} (store : s3.Client St Token).

(** The start of every handler: the user of the request context, the
    bucket id of the URL and the decoded body, each [None] when it is
    missing or malformed. *)
Definition decoded {Req : Type} (userID bucketID : option UUID)
    (req : option Req) : Response + Req :=
  match userID with
  | None => inl (respondError "Unauthorized" 401)
  | Some _ =>
      match bucketID with
      | None => inl (respondError "Invalid bucket ID" 400)
      | Some _ =>
          match req with
          | None => inl (respondError "Invalid request body" 400)
          | Some req => inr req
          end
      end
  end.

(** [Handler.DeleteObjects], for a bucket and credentials that resolve. *)
Definition DeleteObjects (userID bucketID : option UUID)
    (req : option (list string)) (fuel : nat) (st : St)
  : option (St * Response) :=
  match decoded userID bucketID req with
  | inl response => Some (st, response)
  | inr keys =>
      match service.DeleteObjects store fuel keys st with
      | None => None
      | Some (st', (result, Some err)) =>
          Some (st', respondError "Failed to delete objects" 500)
      | Some (st', (result, None)) =>
          Some (st', {| status := 200; body := result_deleted result |})
      end
  end.

(** [Handler.RenameObject], for a bucket and credentials that resolve. *)
Definition RenameObject (userID bucketID : option UUID)
    (req : option MoveRequest) (fuel : nat) (st : St)
  : option (St * Response) :=
  match decoded userID bucketID req with
  | inl response => Some (st, response)
  | inr req =>
      match service.RenameObject store fuel (SourceKey req)
              (DestinationKey req) st with
      | None => None
      | Some (st', (result, Some err)) =>
          Some (st', respondError "Failed to rename object" 500)
      | Some (st', (result, None)) =>
          Some (st', {| status := 200; body := result_operation result |})
      end
  end.

(** [Handler.CopyObject], for a bucket and credentials that resolve. *)
Definition CopyObject (userID bucketID : option UUID)
    (req : option MoveRequest) (st : St) : St * Response :=
  match decoded userID bucketID req with
  | inl response => (st, response)
  | inr req =>
      match service.CopyObject store (SourceKey req) (DestinationKey req) st with
      | (st', (result, Some err)) =>
          (st', respondError "Failed to copy object" 500)
      | (st', (result, None)) =>
          (st', {| status := 200; body := result_operation result |})
      end
  end.

End Handlers.

End api.

(** ** Package [service]: the listing of a demo user *)

Module demo.

(** [containsChar], for a delimiter below [utf8.RuneSelf]: such a rune is
    found by the [range] over the runes of [s] exactly where the byte
    stands, since a byte below [0x80] is never part of the encoding of
    another rune. For a delimiter from [0x80] on the loop compares decoded
    runes, which this search over the bytes does not follow; the listing
    only ever passes ['/']. *)
Fixpoint containsChar (s : string) (c : ascii) : bool :=
  match s with
  | EmptyString => false
  | String ch s' => if Ascii.eqb ch c then true else containsChar s' c
  end.

(** [startsWithPrefix] *)
Definition startsWithPrefix (s prefix : string) : bool :=
  if (String.length s <? String.length prefix)%nat then false
  else String.eqb (String.substring 0 (String.length prefix) s) prefix.

(** The index at which the [range] loop of [splitFirst] returns, for a
    delimiter below [utf8.RuneSelf] as in [containsChar]: the byte offset
    of the first byte that is the delimiter. *)
Fixpoint index (s : string) (delimiter : ascii) : option nat :=
  match s with
  | EmptyString => None
  | String ch s' =>
      if Ascii.eqb ch delimiter then Some 0%nat else S <$> index s' delimiter
  end.

(** [splitFirst], for a delimiter below [utf8.RuneSelf]. *)
Definition splitFirst (s : string) (delimiter : ascii) : list string :=
  match index s delimiter with
  | Some i => [String.substring 0 i s; strings.drop (S i) s]
  | None => [s]
  end.

Definition file (key name size : string) (lastModified : Z)
    (icon iconColor : string) : service.BucketObject :=
  {| service.Key := key; service.Name := name; service.Kind := "file";
     service.Size := size; service.LastModified := lastModified;
     service.Icon := icon; service.IconColor := iconColor |}.

Definition folder (key name : string) (lastModified : Z)
  : service.BucketObject :=
  {| service.Key := key; service.Name := name; service.Kind := "folder";
     service.Size := "-"; service.LastModified := lastModified;
     service.Icon := "folder"; service.IconColor := "text-amber-500" |}.

Section Demo.
(** [time.Now().Add(-h * time.Hour)] *)
Variable hours_ago : Z -> Z.

(** The map [allObjects] of [getDemoObjects]. *)
Definition allObjects : gmap string (list service.BucketObject) :=
  list_to_map [
    ("product-images",
     [file "product-hero-banner.jpg" "product-hero-banner.jpg" "2.4 MB"
        (hours_ago 72) "image" "text-blue-500";
      folder "thumbnails/" "thumbnails" (hours_ago 48);
      file "thumbnails/product-thumbnail-001.jpg" "product-thumbnail-001.jpg"
        "156 KB" (hours_ago 48) "image" "text-blue-500";
      file "thumbnails/product-thumbnail-002.jpg" "product-thumbnail-002.jpg"
        "142 KB" (hours_ago 36) "image" "text-blue-500";
      file "thumbnails/product-thumbnail-003.jpg" "product-thumbnail-003.jpg"
        "168 KB" (hours_ago 24) "image" "text-blue-500"]);
    ("user-uploads",
     [folder "avatars/" "avatars" (hours_ago 120);
      folder "documents/" "documents" (hours_ago 96);
      file "avatars/user-avatar-john.png" "user-avatar-john.png" "45 KB"
        (hours_ago 120) "image" "text-blue-500";
      file "avatars/user-avatar-sarah.png" "user-avatar-sarah.png" "52 KB"
        (hours_ago 100) "image" "text-blue-500";
      file "documents/report-q4-2024.pdf" "report-q4-2024.pdf" "1.2 MB"
        (hours_ago 96) "description" "text-red-500";
      file "documents/presentation-slides.pptx" "presentation-slides.pptx"
        "3.5 MB" (hours_ago 84) "slideshow" "text-orange-500";
      file "documents/meeting-notes.docx" "meeting-notes.docx" "156 KB"
        (hours_ago 72) "description" "text-blue-600"]);
    ("dev-testing",
     [file "test-data.json" "test-data.json" "2.1 KB" (hours_ago 12)
        "code" "text-green-500";
      file "README.md" "README.md" "1.8 KB" (hours_ago 24)
        "description" "text-slate-500";
      file "config.yaml" "config.yaml" "892 bytes" (hours_ago 6)
        "settings" "text-purple-500";
      folder "scripts/" "scripts" (hours_ago 48);
      file "scripts/deploy.sh" "deploy.sh" "4.2 KB" (hours_ago 48)
        "terminal" "text-slate-600";
      file "scripts/backup.sh" "backup.sh" "2.8 KB" (hours_ago 36)
        "terminal" "text-slate-600"])
  ].

(** One round of the loop over [objects]: the locals [result] and
    [folderMap] after it. *)
Definition getDemoObjects_step (prefix : string)
    (acc : list service.BucketObject * gmap string bool)
    (obj : service.BucketObject)
  : list service.BucketObject * gmap string bool :=
  let '(result, folderMap) := acc in
  if String.eqb prefix "" then
    let result :=
      if String.eqb (service.Kind obj) "file"
         && negb (containsChar (service.Key obj) "/")
      then result ++ [obj] else result in
    let result :=
      if String.eqb (service.Kind obj) "folder"
      then result ++ [obj] else result in
    (result, folderMap)
  else if negb (startsWithPrefix (service.Key obj) prefix) then acc
  else
    let relativeKey := strings.drop (String.length prefix) (service.Key obj) in
    if String.eqb (service.Kind obj) "file" && negb (containsChar relativeKey "/")
    then
      (result ++ [{| service.Key := service.Key obj;
                     service.Name := relativeKey;
                     service.Kind := service.Kind obj;
                     service.Size := service.Size obj;
                     service.LastModified := service.LastModified obj;
                     service.Icon := service.Icon obj;
                     service.IconColor := service.IconColor obj |}],
       folderMap)
    else if containsChar relativeKey "/" then
      let parts := splitFirst relativeKey "/" in
      let folderName := default "" (parts !! 0%nat) in
      let folderKey := prefix +:+ folderName +:+ "/" in
      if negb (default false (folderMap !! folderKey)) then
        (result ++ [folder folderKey folderName (hours_ago 24)],
         <[folderKey := true]> folderMap)
      else acc
    else acc.

(** [getDemoObjects] *)
Definition getDemoObjects (bucketName prefix : string)
  : list service.BucketObject :=
  let prefix :=
    if negb (String.eqb prefix "")
       && negb (bool_decide (strings.last_byte prefix = Some "/"%char))
    then prefix +:+ "/" else prefix in
  match allObjects !! bucketName with
  | None => []
  | Some objects => (fold_left (getDemoObjects_step prefix) objects ([], ∅)).1
  end.

End Demo.

End demo.

(** * Properties *)

(** ** Sorting *)

Lemma insert_Permutation {A} (less : A -> A -> bool) a l :
  sort.insert less a l ≡ₚ a :: l.
Proof.
  induction l as [| b l IH]; cbn [sort.insert]; [done |].
  destruct (less b a); [| done].
  rewrite IH. apply Permutation_swap.
Qed.

Lemma insert_sorted {A} (less : A -> A -> bool) a l :
  sort.StrictWeak less ->
  StronglySorted (fun x y => less y x = false) l ->
  StronglySorted (fun x y => less y x = false) (sort.insert less a l).
Proof.
  intros [Hasym Htrans] Hl.
  induction Hl as [| b l Hl IH Hb]; cbn [sort.insert].
  - by repeat constructor.
  - destruct (less b a) eqn:Hba.
    + constructor; [done |].
      rewrite insert_Permutation. constructor; [by apply Hasym | done].
    + constructor; [by constructor |].
      constructor; [done |].
      eapply Forall_impl; [exact Hb |].
      intros c Hc. cbn in Hc. by apply (Htrans a b c).
Qed.

(** The insertion sort keeps the contract of [sort.Slice]. *)
#[global] Instance insertion_sorter : sort.SliceSort.
Proof.
  refine {| sort.Slice A less x := sort.insertionSort less x |}.
  - intros A less x. induction x as [| a x IH]; cbn; [done |].
    by rewrite insert_Permutation, IH.
  - intros A less x Hless. induction x as [| a x IH]; cbn; [constructor |].
    by apply insert_sorted.
Defined.

(** ** Rounding and [formatByteSize] *)

Section Rounding.

Import numeric.

Lemma round_half_even_bounds n d :
  0 < d -> n / d <= round_half_even n d <= n / d + 1.
Proof.
  intros Hd. unfold round_half_even.
  repeat match goal with |- context [if ?b then _ else _] => destruct b end; lia.
Qed.

Lemma round_half_even_exact k d : 0 < d -> round_half_even (k * d) d = k.
Proof.
  intros Hd. unfold round_half_even.
  rewrite Z.div_mul, Z.mod_mul by lia.
  destruct (2 * 0 <? d) eqn:E; [done | lia].
Qed.

Lemma round_half_even_mono n1 n2 d :
  0 < d -> n1 <= n2 -> round_half_even n1 d <= round_half_even n2 d.
Proof.
  intros Hd Hn.
  pose proof (Z.div_le_mono n1 n2 d Hd Hn) as Hq.
  destruct (decide (n1 / d = n2 / d)) as [Heq | Hne].
  - pose proof (Z.div_mod n1 d ltac:(lia)) as H1.
    pose proof (Z.div_mod n2 d ltac:(lia)) as H2.
    assert (n1 mod d <= n2 mod d) as Hr by (rewrite Heq in H1; nia).
    unfold round_half_even. rewrite Heq.
    repeat match goal with |- context [if ?b then _ else _] => destruct b eqn:? end;
      lia.
  - pose proof (round_half_even_bounds n1 d Hd).
    pose proof (round_half_even_bounds n2 d Hd). lia.
Qed.

Lemma round_half_even_ge k n d : 0 < d -> k * d <= n -> k <= round_half_even n d.
Proof.
  intros Hd H. rewrite <- (round_half_even_exact k d Hd).
  by apply round_half_even_mono.
Qed.

Lemma round_half_even_le k n d : 0 < d -> n <= k * d -> round_half_even n d <= k.
Proof.
  intros Hd H. rewrite <- (round_half_even_exact k d Hd).
  by apply round_half_even_mono.
Qed.

(** An [int64] below [2 ^ 53] converts without rounding. *)
Lemma float64_of_int64_small n :
  0 < n < 2 ^ 53 -> float64_of_int64 n = n.
Proof.
  intros Hn. unfold float64_of_int64.
  assert (Z.log2 n < 53) by (apply Z.log2_lt_pow2; lia).
  replace (Z.max 0 (Z.log2 n - 52)) with 0 by lia.
  change (2 ^ 0) with 1. rewrite Z.mul_1_r.
  rewrite <- (Z.mul_1_r n) at 1. apply round_half_even_exact. lia.
Qed.

Lemma float64_of_int64_pos n : 0 < n -> 1 <= float64_of_int64 n.
Proof.
  intros Hn. unfold float64_of_int64.
  set (e := Z.max 0 (Z.log2 n - 52)).
  assert (0 < 2 ^ e) by (apply Z.pow_pos_nonneg; lia).
  destruct (decide (e = 0)) as [-> | He].
  - change (2 ^ 0) with 1 in *. rewrite Z.mul_1_r.
    apply round_half_even_ge; lia.
  - assert (e = Z.log2 n - 52) as Hlog by lia.
    pose proof (Z.log2_spec n Hn) as [Hlo _].
    assert (2 ^ Z.log2 n = 2 ^ 52 * 2 ^ e) as Hsplit.
    { rewrite <- Z.pow_add_r by lia. f_equal. lia. }
    assert (2 ^ 52 <= round_half_even n (2 ^ e))
      by (apply round_half_even_ge; lia).
    nia.
Qed.

(** The conversion to [float64] keeps the order. *)
Lemma float64_of_int64_mono n1 n2 :
  0 < n1 -> n1 <= n2 -> float64_of_int64 n1 <= float64_of_int64 n2.
Proof.
  intros H1 H12. unfold float64_of_int64.
  set (e1 := Z.max 0 (Z.log2 n1 - 52)).
  set (e2 := Z.max 0 (Z.log2 n2 - 52)).
  assert (e1 <= e2) as He.
  { pose proof (Z.log2_le_mono n1 n2 H12). lia. }
  assert (0 < 2 ^ e1) by (apply Z.pow_pos_nonneg; lia).
  assert (0 < 2 ^ e2) by (apply Z.pow_pos_nonneg; lia).
  destruct (decide (e1 = e2)) as [Heq | Hne].
  - rewrite <- Heq. apply Z.mul_le_mono_nonneg_r; [lia |].
    by apply round_half_even_mono.
  - assert (e2 = Z.log2 n2 - 52) as Hlog2 by lia.
    pose proof (Z.log2_spec n2 ltac:(lia)) as [Hlo2 _].
    pose proof (Z.log2_spec n1 H1) as [_ Hhi1].
    assert (2 ^ Z.log2 n2 = 2 ^ 52 * 2 ^ e2) as Hsplit2.
    { rewrite <- Z.pow_add_r by lia. f_equal. lia. }
    assert (2 ^ 52 <= round_half_even n2 (2 ^ e2))
      by (apply round_half_even_ge; lia).
    assert (2 ^ Z.succ (Z.log2 n1) <= 2 ^ 53 * 2 ^ e1) as Hsplit1.
    { rewrite <- Z.pow_add_r by lia. apply Z.pow_le_mono_r; lia. }
    assert (round_half_even n1 (2 ^ e1) <= 2 ^ 53)
      by (apply round_half_even_le; lia).
    assert (2 ^ 53 * 2 ^ e1 <= 2 ^ 52 * 2 ^ e2) as Hstep.
    { replace (2 ^ 53) with (2 ^ 52 * 2 ^ 1) by done.
      rewrite <- Z.mul_assoc, <- (Z.pow_add_r 2 1 e1) by lia.
      apply Z.mul_le_mono_nonneg_l; [lia |].
      apply Z.pow_le_mono_r; lia. }
    nia.
Qed.

End Rounding.

Section Decimal.

Import numeric strings.

Lemma append_nil_r s : s +:+ "" = s.
Proof. induction s as [| c s IH]; simpl; [done | by rewrite IH]. Qed.

Lemma append_assoc s1 s2 s3 : (s1 +:+ s2) +:+ s3 = s1 +:+ s2 +:+ s3.
Proof. induction s1 as [| c s1 IH]; simpl; [done | by rewrite IH]. Qed.

Lemma Cut1_app s1 s2 sep :
  has_byte sep s1 = false ->
  Cut1 (s1 +:+ s2) sep = ((s1 +:+ (Cut1 s2 sep).1), (Cut1 s2 sep).2).
Proof.
  induction s1 as [| c s1 IH]; simpl; intros H.
  - by destruct (Cut1 s2 sep).
  - apply orb_false_iff in H as [Hc Hs]. rewrite Hc, (IH Hs). done.
Qed.

Lemma Cut1_no_sep s sep : has_byte sep s = false -> Cut1 s sep = (s, None).
Proof.
  induction s as [| c s IH]; simpl; intros H; [done |].
  apply orb_false_iff in H as [Hc Hs]. by rewrite Hc, (IH Hs).
Qed.

(** A numeral holds digits only: neither a point nor a space. *)
Lemma digits_no_point d : has_byte "." (NilEmpty.string_of_uint d) = false.
Proof. induction d; simpl; done. Qed.

Lemma digits_no_space d : has_byte " " (NilEmpty.string_of_uint d) = false.
Proof. induction d; simpl; done. Qed.

Lemma itoa_no_point n : has_byte "." (itoa n) = false.
Proof.
  unfold itoa, NilZero.string_of_uint.
  destruct (N.to_uint (Z.to_N n)); try apply digits_no_point; done.
Qed.

Lemma itoa_no_space n : has_byte " " (itoa n) = false.
Proof.
  unfold itoa, NilZero.string_of_uint.
  destruct (N.to_uint (Z.to_N n)); try apply digits_no_space; done.
Qed.

Lemma has_byte_app c s1 s2 :
  has_byte c (s1 +:+ s2) = has_byte c s1 || has_byte c s2.
Proof.
  induction s1 as [| d s1 IH]; simpl; [done |].
  by rewrite IH, orb_assoc.
Qed.

(** Reading back what [%d] printed. *)
Lemma atoi_itoa n : 0 <= n -> atoi (itoa n) = Some n.
Proof.
  intros Hn. unfold atoi, itoa.
  pose proof (DecimalN.Unsigned.of_to (Z.to_N n)) as Hof.
  destruct (N.to_uint (Z.to_N n)) as [| d | d | d | d | d | d | d | d | d | d] eqn:E;
    try (rewrite NilZero.usu by done; rewrite Hof, Z2N.id by done; done).
  simpl in *. f_equal. lia.
Qed.

Lemma itoa_digit_length d : 0 <= d < 10 -> String.length (itoa d) = 1%nat.
Proof.
  intros Hd.
  assert (d = 0 \/ d = 1 \/ d = 2 \/ d = 3 \/ d = 4 \/ d = 5 \/ d = 6
          \/ d = 7 \/ d = 8 \/ d = 9) as H by lia.
  repeat (destruct H as [-> | H]; [done |]). by subst.
Qed.

End Decimal.

Section FormatByteSize.

Import numeric service.

(** Where the unit loop stops: at the last unit, or at the first one in
    which the number is below 1024. *)
Lemma formatByteSize_loop_spec m :
  1 <= m ->
  exists i : nat,
    formatByteSize_loop 4 {| mant := m; scale := 0 |} 0
    = ({| mant := m; scale := i |}, i)
    /\ (i <= 4)%nat
    /\ 1024 ^ Z.of_nat i <= m
    /\ ((i < 4)%nat -> m < 1024 * 1024 ^ Z.of_nat i).
Proof.
  intros Hm. unfold formatByteSize_loop, ge1024, div1024. cbn.
  change (1024 * 1024 ^ Z.of_nat 0) with 1024.
  change (1024 * 1024 ^ Z.of_nat 1) with 1048576.
  change (1024 * 1024 ^ Z.of_nat 2) with 1073741824.
  change (1024 * 1024 ^ Z.of_nat 3) with 1099511627776.
  repeat match goal with
         | |- context [?a <=? m] => destruct (Z.leb_spec a m); cbn [andb]
         end.
  - exists 4%nat. change (1024 ^ Z.of_nat 4) with 1099511627776.
    repeat split; lia.
  - exists 3%nat. change (1024 ^ Z.of_nat 3) with 1073741824.
    repeat split; lia.
  - exists 2%nat. change (1024 ^ Z.of_nat 2) with 1048576.
    repeat split; lia.
  - exists 1%nat. change (1024 ^ Z.of_nat 1) with 1024.
    repeat split; lia.
  - exists 0%nat. change (1024 ^ Z.of_nat 0) with 1.
    repeat split; lia.
Qed.

Lemma unit_some (i : nat) :
  (i <= 4)%nat ->
  exists u, units !! i = Some u /\ unit_index u = Some i
            /\ strings.has_byte " " u = false.
Proof.
  intros Hi.
  assert (i = 0 \/ i = 1 \/ i = 2 \/ i = 3 \/ i = 4)%nat as H by lia.
  repeat (destruct H as [-> | H]; [eexists; repeat split; done |]).
  subst. eexists; repeat split; done.
Qed.

(** The printed string reads back as the number it was printed from. *)
Lemma size_denoted_formatByteSize bytes :
  size_denoted (formatByteSize bytes) = Some (size_tenths bytes).
Proof.
  unfold formatByteSize, size_tenths.
  destruct (bytes <=? 0) eqn:Hb; [done |].
  apply Z.leb_gt in Hb.
  pose proof (float64_of_int64_pos bytes Hb) as Hm.
  destruct (formatByteSize_loop_spec _ Hm) as (i & Hloop & Hi & Hlo & Hhi).
  unfold of_int64. rewrite Hloop.
  destruct (unit_some i Hi) as (u & Hu & Hidx & Hsp).
  rewrite Hu. cbn [default from_option].
  unfold sprintf_1f, tenths. cbn [mant scale].
  set (t := round_half_even _ _).
  assert (0 < 1024 ^ Z.of_nat i) as Hpow by (apply Z.pow_pos_nonneg; lia).
  assert (0 <= t) as Ht.
  { apply (round_half_even_ge 0); lia. }
  assert (0 <= t / 10) by (apply Z.div_pos; lia).
  assert (0 <= t mod 10 < 10) as Hd by (apply Z.mod_pos_bound; lia).
  unfold size_denoted.
  rewrite Cut1_app
    by (rewrite !has_byte_app, !itoa_no_space; done).
  cbn [strings.Cut1 String.append Ascii.eqb Bool.eqb fst snd].
  rewrite append_nil_r. cbn [mbind option_bind]. unfold id. rewrite Hidx.
  cbn [mbind option_bind].
  rewrite Cut1_app by apply itoa_no_point.
  cbn [strings.Cut1 String.append Ascii.eqb Bool.eqb fst snd].
  rewrite append_nil_r, (atoi_itoa _ H). cbn [mbind option_bind].
  rewrite (atoi_itoa (t mod 10)) by lia. cbn [mbind option_bind].
  rewrite (itoa_digit_length _ Hd). cbn [Nat.eqb].
  do 2 f_equal. pose proof (Z.div_mod t 10). lia.
Qed.

Lemma size_tenths_nonneg bytes : 0 <= size_tenths bytes.
Proof.
  unfold size_tenths. destruct (bytes <=? 0) eqn:Hb; [done |].
  apply Z.leb_gt in Hb.
  pose proof (float64_of_int64_pos bytes Hb) as Hm.
  destruct (formatByteSize_loop_spec _ Hm) as (i & Hloop & Hi & Hlo & Hhi).
  unfold of_int64. rewrite Hloop. unfold tenths. cbn [mant scale].
  assert (0 < 1024 ^ Z.of_nat i) as Hpow by (apply Z.pow_pos_nonneg; lia).
  assert (0 <= round_half_even (10 * float64_of_int64 bytes) (1024 ^ Z.of_nat i))
    by (apply (round_half_even_ge 0); lia).
  lia.
Qed.

(** A larger byte count never prints a smaller size. *)
Lemma size_tenths_mono a b : a <= b -> size_tenths a <= size_tenths b.
Proof.
  intros Hab.
  destruct (decide (a <= 0)) as [Ha | Ha].
  { unfold size_tenths at 1.
    replace (a <=? 0) with true by (symmetry; by apply Z.leb_le).
    apply size_tenths_nonneg. }
  unfold size_tenths.
  replace (a <=? 0) with false by (symmetry; apply Z.leb_gt; lia).
  replace (b <=? 0) with false by (symmetry; apply Z.leb_gt; lia).
  pose proof (float64_of_int64_pos a ltac:(lia)) as Hma.
  pose proof (float64_of_int64_pos b ltac:(lia)) as Hmb.
  pose proof (float64_of_int64_mono a b ltac:(lia) Hab) as Hmono.
  destruct (formatByteSize_loop_spec _ Hma) as (i & Hli & Hi & Hloi & Hhii).
  destruct (formatByteSize_loop_spec _ Hmb) as (j & Hlj & Hj & Hloj & Hhij).
  unfold of_int64. rewrite Hli, Hlj. unfold tenths. cbn [mant scale].
  set (ma := float64_of_int64 a) in *. set (mb := float64_of_int64 b) in *.
  assert (0 < 1024 ^ Z.of_nat i) as Hpi by (apply Z.pow_pos_nonneg; lia).
  assert (0 < 1024 ^ Z.of_nat j) as Hpj by (apply Z.pow_pos_nonneg; lia).
  destruct (decide (i = j)) as [-> | Hij].
  - apply Z.mul_le_mono_nonneg_r; [lia |].
    apply round_half_even_mono; lia.
  - assert (i < j)%nat as Hlt.
    { destruct (decide (i < j)%nat) as [| Hge]; [done | exfalso].
      assert (j < 4)%nat as Hj4 by lia. specialize (Hhij Hj4).
      assert (1024 * 1024 ^ Z.of_nat j <= 1024 ^ Z.of_nat i); [| lia].
      rewrite <- Z.pow_succ_r by lia. apply Z.pow_le_mono_r; lia. }
    assert (i < 4)%nat as Hi4 by lia. specialize (Hhii Hi4).
    assert (1024 * 1024 ^ Z.of_nat i <= 1024 ^ Z.of_nat j) as Hstep.
    { rewrite <- Z.pow_succ_r by lia. apply Z.pow_le_mono_r; lia. }
    assert (round_half_even (10 * ma) (1024 ^ Z.of_nat i) <= 10240)
      by (apply round_half_even_le; lia).
    assert (10 <= round_half_even (10 * mb) (1024 ^ Z.of_nat j))
      by (apply round_half_even_ge; lia).
    nia.
Qed.

End FormatByteSize.

(** C9. [formatByteSize 0] is ["0 B"], [formatByteSize 1536] is ["1.5 KB"]
    (one decimal, division by 1024, suffixes B to TB), and the function is
    monotonic: for byte counts [a <= b] the size denoted by the string
    printed for [a] is at most the size denoted by the string printed for
    [b]. *)
Theorem C9_formatByteSize_monotonic :
  service.formatByteSize 0 = "0 B"
  /\ service.formatByteSize 1536 = "1.5 KB"
  /\ forall a b : Z,
       a <= b ->
       exists da db : Z,
         service.size_denoted (service.formatByteSize a) = Some da
         /\ service.size_denoted (service.formatByteSize b) = Some db
         /\ da <= db.
Proof.
  split; [by vm_compute |]. split; [by vm_compute |].
  intros a b Hab.
  exists (service.size_tenths a), (service.size_tenths b).
  split; [apply size_denoted_formatByteSize |].
  split; [apply size_denoted_formatByteSize |].
  by apply size_tenths_mono.
Qed.

Lemma C9_formatByteSize_monotonic_witness :
  1023 <= 1024
  /\ exists da db : Z,
       service.size_denoted (service.formatByteSize 1023) = Some da
       /\ service.size_denoted (service.formatByteSize 1024) = Some db
       /\ da <= db.
Proof.
  split; [lia |].
  apply (proj2 (proj2 C9_formatByteSize_monotonic) 1023 1024). lia.
Defined.

(** ** Presigned URLs *)

Section Presign.

Variable PresignPutObject :
  string -> string -> option string -> Z -> s3.error + string.
Variable PresignGetObject : string -> string -> Z -> s3.error + string.

Lemma PresignObject_default input :
  storage.ExpiresIn input <= 0 ->
  storage.PresignObject PresignPutObject PresignGetObject input
  = storage.PresignObject PresignPutObject PresignGetObject
      (storage.with_expiry (15 * storage.Minute) input).
Proof.
  intros H. unfold storage.PresignObject, storage.with_expiry. cbn.
  destruct (Z.leb_spec (storage.ExpiresIn input) 0); [done | lia].
Qed.

Lemma PresignObject_get input :
  storage.ExpiresIn input <= 0 ->
  strings.ToUpper (storage.Method input) = "GET" ->
  storage.PresignObject PresignPutObject PresignGetObject input
  = match PresignGetObject (storage.Bucket input) (storage.Key input)
            (15 * storage.Minute) with
    | inl err => inl err
    | inr url => inr {| storage.URL := url; storage.Method_signed := "GET" |}
    end.
Proof.
  intros H Hm. unfold storage.PresignObject. rewrite Hm. cbn.
  destruct (Z.leb_spec (storage.ExpiresIn input) 0); [done | lia].
Qed.

Lemma PresignObject_put input :
  storage.ExpiresIn input <= 0 ->
  strings.ToUpper (storage.Method input) = "PUT" ->
  storage.PresignObject PresignPutObject PresignGetObject input
  = match PresignPutObject (storage.Bucket input) (storage.Key input)
            (storage.ContentType input) (15 * storage.Minute) with
    | inl err => inl err
    | inr url => inr {| storage.URL := url; storage.Method_signed := "PUT" |}
    end.
Proof.
  intros H Hm. unfold storage.PresignObject. rewrite Hm. cbn.
  destruct (Z.leb_spec (storage.ExpiresIn input) 0); [done | lia].
Qed.

End Presign.

(** C10. A presign request whose expiry is zero or negative is signed with
    the default expiry of 15 minutes: [PresignObject] behaves on it exactly
    as on the same request with [ExpiresIn] set to 15 minutes, so a GET or a
    PUT reaches the presign client with [opts.Expires] of 15 minutes and the
    outcome is the presign client's. The handler takes the same 15 minutes
    when the body carries no [expiresInSeconds], and what it hands on is
    signed for 15 minutes whenever its expiry is not positive. *)
Theorem C10_presign_default_expiry :
  forall (PresignPutObject : string -> string -> option string -> Z -> s3.error + string)
         (PresignGetObject : string -> string -> Z -> s3.error + string),
    15 * storage.Minute = 900 * storage.Second
    /\ (forall input : storage.PresignInput,
          storage.ExpiresIn input <= 0 ->
          storage.PresignObject PresignPutObject PresignGetObject input
          = storage.PresignObject PresignPutObject PresignGetObject
              (storage.with_expiry (15 * storage.Minute) input)
          /\ (strings.ToUpper (storage.Method input) = "GET" ->
              storage.PresignObject PresignPutObject PresignGetObject input
              = match PresignGetObject (storage.Bucket input) (storage.Key input)
                        (15 * storage.Minute) with
                | inl err => inl err
                | inr url =>
                    inr {| storage.URL := url; storage.Method_signed := "GET" |}
                end)
          /\ (strings.ToUpper (storage.Method input) = "PUT" ->
              storage.PresignObject PresignPutObject PresignGetObject input
              = match PresignPutObject (storage.Bucket input) (storage.Key input)
                        (storage.ContentType input) (15 * storage.Minute) with
                | inl err => inl err
                | inr url =>
                    inr {| storage.URL := url; storage.Method_signed := "PUT" |}
                end))
    /\ (forall req : handlers.PresignRequest,
          handlers.req_Expires req = None ->
          handlers.presign_expires req = 15 * storage.Minute)
    /\ (forall (unix_after : Z -> Z) (bucketName : string)
               (req : handlers.PresignRequest),
          handlers.presign_expires req <= 0 ->
          strings.ToUpper (handlers.req_Method req) = "GET" ->
          match service.PresignObject PresignPutObject PresignGetObject
                  unix_after bucketName (handlers.presign_input req) with
          | inl err => inl err
          | inr out => inr (service.URL out)
          end
          = PresignGetObject bucketName (handlers.req_Key req)
              (15 * storage.Minute)).
Proof.
  intros Put Get. split; [done |]. split; [| split].
  - intros input H. split; [by apply PresignObject_default |].
    split; [by apply PresignObject_get | by apply PresignObject_put].
  - intros req Hreq. unfold handlers.presign_expires. by rewrite Hreq.
  - intros unix_after bucketName req Hexp Hget.
    unfold service.PresignObject. rewrite PresignObject_get by done. cbn.
    by destruct (Get bucketName (handlers.req_Key req) (15 * storage.Minute)).
Qed.

Lemma C10_presign_default_expiry_witness :
  storage.ExpiresIn samples.presign_negative <= 0
  /\ storage.PresignObject samples.sign_put samples.sign_get samples.presign_negative
     = inr {| storage.URL := "https://s3.test/photos/a/x?X-Amz-Expires=900";
              storage.Method_signed := "GET" |}.
Proof.
  split; [by vm_compute |].
  destruct (C10_presign_default_expiry samples.sign_put samples.sign_get)
    as (_ & Hdefault & _).
  destruct (Hdefault samples.presign_negative ltac:(by vm_compute))
    as (_ & Hget & _).
  rewrite Hget by done. by vm_compute.
Defined.

(** ** Enumeration *)

Section Enumeration.

Import s3 storage.

Lemma chunks_go_concat {A} (fuel n : nat) (l : list A) :
  (1 <= n)%nat -> (length l <= fuel)%nat -> concat (chunks_go fuel n l) = l.
Proof.
  intros Hn. revert l.
  induction fuel as [| fuel IH]; intros l Hl.
  - destruct l; [done | simpl in Hl; lia].
  - destruct l as [| x l]; [done |].
    cbn [chunks_go concat]. rewrite IH, take_drop; [done |].
    rewrite length_drop. simpl in *. lia.
Qed.

(** Cutting a list into pages loses nothing. *)
Lemma chunks_concat {A} (n : nat) (l : list A) :
  (1 <= n)%nat -> concat (chunks n l) = l.
Proof. intros Hn. by apply chunks_go_concat. Qed.

Lemma chunks_go_length {A} (fuel n : nat) (l : list A) :
  (length (chunks_go fuel n l) <= fuel)%nat.
Proof.
  revert l. induction fuel as [| fuel IH]; intros l; [done |].
  destruct l; cbn [chunks_go length]; [lia |].
  specialize (IH (drop n (a :: l))). lia.
Qed.

Lemma chunks_length {A} (n : nat) (l : list A) :
  (length (chunks n l) <= length l)%nat.
Proof. apply chunks_go_length. Qed.

(** The loop on a scripted store: from the page the token names on, every
    page is appended, an empty one included. *)
Lemma ListAllObjects_loop_pages pages fuel token result :
  (length pages - default 0%nat token < fuel)%nat ->
  ListAllObjects_loop (serve_pages pages) fuel token result
  = Some (inr (result ++ concat (drop (default 0%nat token) pages))).
Proof.
  revert token result.
  induction fuel as [| fuel IH]; intros token result Hfuel; [lia |].
  cbn [ListAllObjects_loop serve_pages Contents IsTruncated
       NextContinuationToken].
  set (i := default 0%nat token) in *.
  case_bool_decide as Hmore.
  - rewrite IH by ((cbn [default from_option]; unfold id); lia).
    (cbn [default from_option]; unfold id).
    destruct (lookup_lt_is_Some_2 pages i ltac:(lia)) as [page Hpage].
    rewrite Hpage. (cbn [default from_option]; unfold id).
    rewrite (drop_S _ _ _ Hpage). cbn [concat].
    by rewrite <- app_assoc.
  - destruct (pages !! i) as [page |] eqn:Hpage; (cbn [default from_option]; unfold id).
    + rewrite (drop_S _ _ _ Hpage). cbn [concat].
      rewrite (drop_ge pages (S i)) by lia. cbn [concat].
      by rewrite app_nil_r.
    + apply lookup_ge_None in Hpage. by rewrite drop_ge by lia.
Qed.

Lemma entries_under_Permutation prefix (b : membucket.Bucket) :
  membucket.entries_under prefix b
  ≡ₚ filter (fun kv => strings.HasPrefix kv.1 prefix = true) (map_to_list b).
Proof. apply merge_sort_Permutation. Qed.

Lemma objects_under_length prefix (b : membucket.Bucket) :
  (length (membucket.objects_under prefix b) <= size b)%nat.
Proof.
  unfold membucket.objects_under.
  rewrite length_fmap, (Permutation_length (entries_under_Permutation _ _)).
  rewrite <- length_map_to_list. apply length_filter.
Qed.

(** On the in-memory bucket the enumeration ends and returns the whole
    listing, whatever the page size. *)
Lemma ListAllObjects_membucket pagesize fuel prefix (b : membucket.Bucket) :
  (1 <= pagesize)%nat ->
  (size b < fuel)%nat ->
  ListAllObjects (membucket.client pagesize) fuel prefix b
  = Some (inr (membucket.objects_under prefix b)).
Proof.
  intros Hn Hfuel. unfold ListAllObjects. cbn [ListObjectsV2 membucket.client].
  rewrite ListAllObjects_loop_pages.
  - change (default 0%nat None) with 0%nat; rewrite ?drop_0; cbn [app]. by rewrite chunks_concat.
  - change (default 0%nat None) with 0%nat.
    pose proof (chunks_length pagesize (membucket.objects_under prefix b)).
    pose proof (objects_under_length prefix b). lia.
Qed.

End Enumeration.

(** C7. The enumeration returns the concatenation of all the pages the
    store serves, following the token through every truncated page, a
    zero-length one included; so for one fixture it returns the same
    entries, and the same number of them, from a store that serves one
    entry per page and from one that serves 1000 per page. *)
Theorem C7_enumeration_is_page_concat :
  (forall (pages : list (list s3.Object)) (fuel : nat),
      (length pages < fuel)%nat ->
      storage.ListAllObjects_loop (s3.serve_pages pages) fuel None []
      = Some (inr (concat pages)))
  /\ (forall (objects : list s3.Object) (fuel : nat),
         (length objects < fuel)%nat ->
         exists r1 r1000 : list s3.Object,
           storage.ListAllObjects_loop
             (s3.serve_pages (s3.chunks 1 objects)) fuel None []
           = Some (inr r1)
           /\ storage.ListAllObjects_loop
                (s3.serve_pages (s3.chunks 1000 objects)) fuel None []
              = Some (inr r1000)
           /\ r1 = objects /\ r1000 = objects
           /\ length r1 = length r1000)
  /\ (forall (b : membucket.Bucket) (prefix : string) (fuel : nat),
         (size b < fuel)%nat ->
         storage.ListAllObjects (membucket.client 1) fuel prefix b
         = storage.ListAllObjects (membucket.client 1000) fuel prefix b
         /\ storage.ListAllObjects (membucket.client 1) fuel prefix b
            = Some (inr (membucket.objects_under prefix b))).
Proof.
  split; [| split].
  - intros pages fuel Hfuel.
    rewrite ListAllObjects_loop_pages by (change (default 0%nat None) with 0%nat; lia). done.
  - intros objects fuel Hfuel. exists objects, objects.
    pose proof (chunks_length 1 objects).
    pose proof (chunks_length 1000 objects).
    rewrite !ListAllObjects_loop_pages by (change (default 0%nat None) with 0%nat; lia).
    change (default 0%nat None) with 0%nat; rewrite ?drop_0; cbn [app].
    rewrite !chunks_concat by lia. done.
  - intros b prefix fuel Hfuel.
    rewrite !ListAllObjects_membucket by lia. done.
Qed.

Lemma C7_enumeration_is_page_concat_witness :
  (length samples.three_pages < 4)%nat
  /\ storage.ListAllObjects_loop (s3.serve_pages samples.three_pages) 4 None []
     = Some (inr [samples.listed "a/x"; samples.listed "a/y/z";
                  samples.listed "b"]).
Proof.
  split; [by vm_compute |].
  apply (proj1 C7_enumeration_is_page_concat samples.three_pages 4%nat).
  by vm_compute.
Defined.

(** ** The archive *)

Section Archive.

Context {St Token : Type} (store : s3.Client St Token).

(** The archive holds exactly the fetched objects that pass the test. *)
Lemma ZipFolder_entries_spec objects prefix st name content :
  (name, content) ∈ service.ZipFolder_entries store objects prefix st
  <-> exists obj key objData,
        obj ∈ objects /\ s3.Key obj = Some key /\ key <> prefix
        /\ storage.GetObject store key st = inr objData
        /\ name = service.safePath prefix key
        /\ service.unsafe name = false
        /\ content = s3.Body objData.
Proof.
  induction objects as [| obj objects IH]; cbn [service.ZipFolder_entries].
  - split; [by intros ?%elem_of_nil |].
    by intros (? & ? & ? & ?%elem_of_nil & _).
  - assert (forall P : Prop,
               ((name, content) ∈ service.ZipFolder_entries store objects prefix st
                \/ P)
               -> (P -> exists key objData,
                        s3.Key obj = Some key /\ key <> prefix
                        /\ storage.GetObject store key st = inr objData
                        /\ name = service.safePath prefix key
                        /\ service.unsafe name = false
                        /\ content = s3.Body objData)
               -> exists obj0 key objData,
                   obj0 ∈ obj :: objects /\ s3.Key obj0 = Some key /\ key <> prefix
                   /\ storage.GetObject store key st = inr objData
                   /\ name = service.safePath prefix key
                   /\ service.unsafe name = false
                   /\ content = s3.Body objData) as Hfwd.
    { intros P [Hin | HP] HPimp.
      - apply IH in Hin as (o & k & d & Ho & Hrest).
        exists o, k, d. split; [by apply list_elem_of_further | done].
      - destruct (HPimp HP) as (k & d & Hrest).
        exists obj, k, d. split; [by apply list_elem_of_here | done]. }
    split.
    + intros Hin.
      destruct (s3.Key obj) as [key |] eqn:Hkey;
        [| by apply (Hfwd False); [left | ]].
      destruct (String.eqb_spec key prefix) as [-> | Hne];
        [by apply (Hfwd False); [left | ] |].
      destruct (storage.GetObject store key st) as [err | objData] eqn:Hget;
        [by apply (Hfwd False); [left | ] |].
      destruct (service.unsafe (service.safePath prefix key)) eqn:Hsafe;
        [by apply (Hfwd False); [left | ] |].
      apply elem_of_cons in Hin.
      apply (Hfwd ((name, content) = (service.safePath prefix key, s3.Body objData))).
      { destruct Hin; [by right | by left]. }
      intros [= -> ->]. by exists key, objData.
    + intros (o & k & d & Ho & Hk & Hne & Hget & -> & Hsafe & ->).
      apply elem_of_cons in Ho as [-> | Ho].
      * rewrite Hk. destruct (String.eqb_spec k prefix); [done |].
        rewrite Hget, Hsafe. apply list_elem_of_here.
      * assert ((service.safePath prefix k, s3.Body d)
                ∈ service.ZipFolder_entries store objects prefix st) as Hin.
        { apply IH. by exists o, k, d. }
        destruct (s3.Key obj) as [key |]; [| done].
        destruct (String.eqb key prefix); [done |].
        destruct (storage.GetObject store key st); [done |].
        destruct (service.unsafe (service.safePath prefix key));
          [done | by apply list_elem_of_further].
Qed.

Lemma unsafe_false name :
  service.unsafe name = false ->
  name <> "" /\ name <> "." /\ name <> ".."
  /\ strings.HasPrefix name ".." = false
  /\ strings.Contains name "../" = false.
Proof.
  unfold service.unsafe. intros H.
  repeat (apply orb_false_iff in H as [H ?]).
  repeat split; try done.
  - by apply String.eqb_neq.
  - by apply String.eqb_neq.
  - intros ->. done.
Qed.

End Archive.

(** C8. Whatever keys were enumerated, no entry of the archive has a
    sanitized path that is empty, [.], [..] or begins with [..]; an object
    that fails the test is skipped and every fetched object that passes it
    is still written. Archiving the keys [x], [../evil] and [a/../../b]
    keeps [x] alone. *)
Theorem C8_archive_paths_are_safe :
  (forall (St Token : Type) (store : s3.Client St Token)
          (objects : list s3.Object) (prefix : string) (st : St),
      (forall name content,
          (name, content) ∈ service.ZipFolder_entries store objects prefix st ->
          name <> "" /\ name <> "." /\ name <> ".."
          /\ strings.HasPrefix name ".." = false)
      /\ (forall obj key objData,
             obj ∈ objects -> s3.Key obj = Some key -> key <> prefix ->
             storage.GetObject store key st = inr objData ->
             service.unsafe (service.safePath prefix key) = false ->
             (service.safePath prefix key, s3.Body objData)
             ∈ service.ZipFolder_entries store objects prefix st))
  /\ service.ZipFolder (membucket.client 1000) 4 "" samples.traversal
     = Some (inr ([("x", "safe")], "download.zip")).
Proof.
  split; [| by vm_compute].
  intros St Token store objects prefix st. split.
  - intros name content Hin.
    apply ZipFolder_entries_spec in Hin as (o & k & d & _ & _ & _ & _ & _ & Hs & _).
    apply unsafe_false in Hs. tauto.
  - intros obj key objData Hobj Hkey Hne Hget Hsafe.
    apply ZipFolder_entries_spec. by exists obj, key, objData.
Qed.

Lemma C8_archive_paths_are_safe_witness :
  ("x", "safe")
  ∈ service.ZipFolder_entries (membucket.client 1000)
      (membucket.objects_under "" samples.traversal) "" samples.traversal
  /\ "x" <> "" /\ "x" <> "." /\ "x" <> ".."
  /\ strings.HasPrefix "x" ".." = false.
Proof.
  assert (("x", "safe")
          ∈ service.ZipFolder_entries (membucket.client 1000)
              (membucket.objects_under "" samples.traversal) ""
              samples.traversal) as Hin.
  { vm_compute. apply list_elem_of_here. }
  split; [exact Hin |].
  exact (proj1 (proj1 C8_archive_paths_are_safe _ _ (membucket.client 1000)
                  (membucket.objects_under "" samples.traversal) ""
                  samples.traversal) "x" "safe" Hin).
Defined.

(** ** The in-memory bucket *)

Section Membucket.

Import membucket.

Lemma elem_of_entries_under prefix (b : Bucket) k v :
  (k, v) ∈ entries_under prefix b
  <-> b !! k = Some v /\ strings.HasPrefix k prefix = true.
Proof.
  rewrite entries_under_Permutation, list_elem_of_filter, elem_of_map_to_list.
  cbn. tauto.
Qed.

(** A listing is fixed by the keys it has to hold: it is the one sorted
    list of the objects under the prefix. *)
Lemma entries_under_unique prefix (b : Bucket) (l : list (string * Stored)) :
  Sorted key_le l -> NoDup l ->
  (forall k v, (k, v) ∈ l <-> b !! k = Some v /\ strings.HasPrefix k prefix = true) ->
  entries_under prefix b = l.
Proof.
  intros Hsorted Hnodup Hl.
  apply (Sorted_unique_strong key_le).
  - intros [k1 v1] [k2 v2] H1 H2 H12 H21.
    apply elem_of_entries_under in H1 as [H1 _]. apply Hl in H2 as [H2 _].
    unfold key_le in *. cbn in *.
    assert (k1 = k2) as -> by (by apply (anti_symm String.le)).
    congruence.
  - apply Sorted_merge_sort, _.
  - done.
  - apply NoDup_Permutation; [| done |].
    + rewrite entries_under_Permutation.
      apply NoDup_filter, NoDup_map_to_list.
    + intros [k v]. by rewrite elem_of_entries_under, Hl.
Qed.

(** A prefix that no key has lists nothing. *)
Lemma objects_under_none prefix (b : Bucket) :
  (forall k, strings.HasPrefix k prefix = true -> b !! k = None) ->
  objects_under prefix b = [].
Proof.
  intros Hnone. unfold objects_under.
  rewrite (entries_under_unique prefix b []); [done | constructor | constructor |].
  intros k v. rewrite elem_of_nil. split; [done |].
  intros [Hk Hp]. rewrite (Hnone k Hp) in Hk. done.
Qed.

(** The chunked delete removes every key it is given and nothing else,
    and reports no error. *)
Lemma DeleteObjects_loop_membucket pagesize fuel keys (b : Bucket) :
  (length keys <= fuel)%nat ->
  (storage.DeleteObjects_loop (client pagesize) fuel keys b).2 = None
  /\ forall k,
       (storage.DeleteObjects_loop (client pagesize) fuel keys b).1 !! k
       = if decide (k ∈ keys) then None else b !! k.
Proof.
  revert keys b. induction fuel as [| fuel IH]; intros keys b Hlen.
  - destruct keys; [| simpl in Hlen; lia]. cbn. split; [done |].
    intros k. by rewrite decide_False by apply not_elem_of_nil.
  - destruct keys as [| key keys].
    { cbn. split; [done |]. intros k.
      by rewrite decide_False by apply not_elem_of_nil. }
    cbn [storage.DeleteObjects_loop s3.DeleteObjects client].
    set (chunk := take 1000 (key :: keys)).
    set (rest := drop 1000 (key :: keys)).
    destruct (IH rest (foldr delete b chunk)) as [Herr Hlook].
    { subst rest. rewrite length_drop. simpl in *. lia. }
    split; [done |]. intros k. rewrite Hlook.
    assert (foldr delete b chunk !! k
            = if decide (k ∈ chunk) then None else b !! k) as ->.
    { clear. induction chunk as [| c chunk IHc]; cbn [foldr].
      - by rewrite decide_False by apply not_elem_of_nil.
      - destruct (decide (c = k)) as [-> | Hne].
        + rewrite lookup_delete_eq.
          by rewrite decide_True by apply list_elem_of_here.
        + rewrite lookup_delete_ne, IHc by done.
          destruct (decide (k ∈ chunk)) as [Hin | Hnin].
          * by rewrite decide_True by (by apply list_elem_of_further).
          * rewrite decide_False; [done |].
            rewrite elem_of_cons. naive_solver. }
    assert (k ∈ key :: keys <-> k ∈ chunk \/ k ∈ rest) as Hsplit.
    { rewrite <- (take_drop 1000 (key :: keys)) at 1. apply elem_of_app. }
    destruct (decide (k ∈ rest)), (decide (k ∈ chunk)), (decide (k ∈ key :: keys));
      try done; tauto.
Qed.

Lemma DeleteObjects_membucket pagesize keys (b : Bucket) :
  (storage.DeleteObjects (client pagesize) keys b).2 = None
  /\ forall k,
       (storage.DeleteObjects (client pagesize) keys b).1 !! k
       = if decide (k ∈ keys) then None else b !! k.
Proof. by apply DeleteObjects_loop_membucket. Qed.

Lemma DeleteObjects_membucket_one pagesize key (b : Bucket) :
  storage.DeleteObjects (client pagesize) [key] b = (delete key b, None).
Proof. done. Qed.

End Membucket.

(** ** Copy *)

Section Copy.

Import membucket.

Lemma CopyObject_present pagesize (b : Bucket) src dst v :
  src <> dst -> b !! src = Some v ->
  service.CopyObject (client pagesize) src dst b
  = (<[dst := v]> b,
     ({| service.Success := true;
         service.Message := "Object copied successfully" |}, None)).
Proof.
  intros Hne Hsrc. unfold service.CopyObject, storage.CopyObject.
  cbn [s3.CopyObject client].
  destruct (String.eqb_spec src dst); [done |]. by rewrite Hsrc.
Qed.

Lemma CopyObject_missing pagesize (b : Bucket) src dst :
  src <> dst -> b !! src = None ->
  service.CopyObject (client pagesize) src dst b
  = (b, ({| service.Success := false;
            service.Message := "failed to copy object: " +:+ NoSuchKey |},
         Some NoSuchKey)).
Proof.
  intros Hne Hsrc. unfold service.CopyObject, storage.CopyObject.
  cbn [s3.CopyObject client].
  destruct (String.eqb_spec src dst); [done |]. by rewrite Hsrc.
Qed.

(** A copy touches the destination key at most. *)
Lemma CopyObject_frame pagesize (b : Bucket) src dst k :
  k <> dst ->
  (service.CopyObject (client pagesize) src dst b).1 !! k = b !! k.
Proof.
  intros Hk. unfold service.CopyObject, storage.CopyObject.
  cbn [s3.CopyObject client].
  destruct (String.eqb src dst); [done |].
  destruct (b !! src) as [v |]; cbn; [by rewrite lookup_insert_ne | done].
Qed.

End Copy.

(** C2, as stated, fails: copying the folder [a/] of the sample bucket to
    [b/] succeeds and copies the marker alone; neither [a/x] nor [a/y/z]
    arrives under [b/]. *)
Lemma C2_copy_does_not_recurse :
  let '(b', (result, err)) :=
    service.CopyObject (membucket.client 1000) "a/" "b/" samples.folder_a in
  service.Success result = true /\ err = None
  /\ b' !! "b/" = Some (samples.obj "" 1)
  /\ b' !! "b/x" = None /\ b' !! "b/y/z" = None.
Proof. by vm_compute. Qed.

(** C2, amended. The copy operation makes one server-side copy, of the
    source key itself to a different destination key, whether or not the
    key ends in a slash: when the source exists the destination receives
    its content and the outcome is a success, when it does not the store's
    error is returned; in both cases every key other than the destination
    is left as it was, so no descendant of a folder is copied and nothing
    is deleted. *)
Theorem C2_copy_is_one_object :
  forall (pagesize : nat) (b : membucket.Bucket) (sourceKey destinationKey : string),
    sourceKey <> destinationKey ->
    (forall v, b !! sourceKey = Some v ->
       service.CopyObject (membucket.client pagesize) sourceKey destinationKey b
       = (<[destinationKey := v]> b,
          ({| service.Success := true;
              service.Message := "Object copied successfully" |}, None)))
    /\ (b !! sourceKey = None ->
        service.CopyObject (membucket.client pagesize) sourceKey destinationKey b
        = (b, ({| service.Success := false;
                  service.Message :=
                    "failed to copy object: " +:+ membucket.NoSuchKey |},
               Some membucket.NoSuchKey)))
    /\ (forall k, k <> destinationKey ->
        (service.CopyObject (membucket.client pagesize) sourceKey
           destinationKey b).1 !! k = b !! k).
Proof.
  intros pagesize b src dst Hne. split; [| split].
  - intros v. by apply CopyObject_present.
  - by apply CopyObject_missing.
  - intros k. apply CopyObject_frame.
Qed.

Lemma C2_copy_is_one_object_witness :
  "a/" <> "b/"
  /\ samples.folder_a !! "a/" = Some (samples.obj "" 1)
  /\ service.CopyObject (membucket.client 1000) "a/" "b/" samples.folder_a
     = (<["b/" := samples.obj "" 1]> samples.folder_a,
        ({| service.Success := true;
            service.Message := "Object copied successfully" |}, None)).
Proof.
  split; [done |]. split; [by vm_compute |].
  apply (proj1 (C2_copy_is_one_object 1000 samples.folder_a "a/" "b/"
                  ltac:(done))).
  by vm_compute.
Defined.

(** ** Rename *)

Section Rename.

Import membucket.

(** The listing of a folder that holds its marker, [a/x] and [a/y/z]. *)
Lemma objects_under_folder_a (b : Bucket) m vx vz :
  b !! "a/" = Some m -> b !! "a/x" = Some vx -> b !! "a/y/z" = Some vz ->
  (forall k, strings.HasPrefix k "a/" = true -> is_Some (b !! k) ->
             k ∈ ["a/"; "a/x"; "a/y/z"]) ->
  objects_under "a/" b
  = to_object <$> [("a/", m); ("a/x", vx); ("a/y/z", vz)].
Proof.
  intros Hm Hx Hz Honly. unfold objects_under. f_equal.
  apply entries_under_unique.
  - repeat constructor.
  - rewrite !NoDup_cons, !elem_of_cons, !elem_of_nil.
    repeat split; try apply NoDup_nil_2; naive_solver.
  - intros k v. rewrite !elem_of_cons, elem_of_nil. split.
    + intros [[= -> ->] | [[= -> ->] | [[= -> ->] | []]]]; done.
    + intros [Hk Hp]. specialize (Honly k Hp ltac:(by eexists)).
      rewrite !elem_of_cons, elem_of_nil in Honly.
      destruct Honly as [-> | [-> | [-> | []]]]; naive_solver.
Qed.

Lemma RenameObject_folder_a pagesize fuel (b : Bucket) m vx vz :
  (1 <= pagesize)%nat -> (size b < fuel)%nat ->
  b !! "a/" = Some m -> b !! "a/x" = Some vx -> b !! "a/y/z" = Some vz ->
  (forall k, strings.HasPrefix k "a/" = true -> is_Some (b !! k) ->
             k ∈ ["a/"; "a/x"; "a/y/z"]) ->
  service.RenameObject (client pagesize) fuel "a/" "b/" b
  = Some (delete "a/"
            (<["b/" := m]> (<["b/y/z" := vz]> (<["b/x" := vx]> (<["b/" := m]> b)))),
          ({| service.Success := true;
              service.Message := "Object renamed successfully" |}, None)).
Proof.
  intros Hn Hfuel Hm Hx Hz Honly. unfold service.RenameObject.
  change (strings.HasSuffix "a/" "/") with true. cbn match.
  rewrite ListAllObjects_membucket by done.
  rewrite (objects_under_folder_a b m vx vz) by done.
  cbn [fmap list_fmap service.RenameObject_copy to_object s3.Key fst].
  change (strings.Replace1 "a/" "a/" "b/") with "b/".
  change (strings.Replace1 "a/x" "a/" "b/") with "b/x".
  change (strings.Replace1 "a/y/z" "a/" "b/") with "b/y/z".
  unfold storage.CopyObject. cbn [s3.CopyObject client].
  change (String.eqb "a/" "b/") with false.
  change (String.eqb "a/x" "b/x") with false.
  change (String.eqb "a/y/z" "b/y/z") with false.
  cbn match. rewrite Hm.
  rewrite lookup_insert_ne, Hx by done.
  rewrite !lookup_insert_ne, Hz by done.
  rewrite !lookup_insert_ne, Hm by done.
  by rewrite DeleteObjects_membucket_one.
Qed.

End Rename.

(** C1, as stated, fails: after the folder [a/] of the sample bucket is
    renamed to [b/], the descendants [a/x] and [a/y/z] are still in the
    store, which therefore is not the set of [b/], [b/x] and [b/y/z]; and
    the outcome is a success flag with a message, with no list of keys. *)
Lemma C1_rename_leaves_source_keys :
  exists b',
    service.RenameObject (membucket.client 1000) 4 "a/" "b/" samples.folder_a
    = Some (b', ({| service.Success := true;
                    service.Message := "Object renamed successfully" |}, None))
    /\ b' !! "a/x" = Some (samples.obj "xx" 2)
    /\ b' !! "a/y/z" = Some (samples.obj "zzz" 3)
    /\ dom b' <> ({["b/"; "b/x"; "b/y/z"]} : gset string).
Proof.
  eexists. split; [by vm_compute |].
  split; [by vm_compute |]. split; [by vm_compute |].
  intros Hdom.
  assert ("a/x" ∈ ({["b/"; "b/x"; "b/y/z"]} : gset string)) as Hin.
  { rewrite <- Hdom. apply elem_of_dom. by vm_compute. }
  set_solver.
Qed.

(** C1, amended. For every bucket that holds the folder marker [a/] and,
    under it, the keys [a/x] and [a/y/z] and no other, renaming [a/] to
    [b/] ends, reports success, and leaves [b/], [b/x] and [b/y/z] in the
    store with the contents of [a/], [a/x] and [a/y/z]; the marker [a/] is
    gone, and a key outside [a/] other than those three is as it was. The
    outcome is the pair of a success flag and a message. *)
Theorem C1_rename_folder_copies_and_drops_marker :
  forall (pagesize fuel : nat) (b : membucket.Bucket)
         (m vx vz : membucket.Stored),
    (1 <= pagesize)%nat -> (size b < fuel)%nat ->
    b !! "a/" = Some m -> b !! "a/x" = Some vx -> b !! "a/y/z" = Some vz ->
    (forall k, strings.HasPrefix k "a/" = true -> is_Some (b !! k) ->
               k ∈ ["a/"; "a/x"; "a/y/z"]) ->
    exists b',
      service.RenameObject (membucket.client pagesize) fuel "a/" "b/" b
      = Some (b', ({| service.Success := true;
                      service.Message := "Object renamed successfully" |},
                   None))
      /\ b' !! "b/" = Some m /\ b' !! "b/x" = Some vx
      /\ b' !! "b/y/z" = Some vz
      /\ b' !! "a/" = None
      /\ (forall k, strings.HasPrefix k "a/" = false ->
                    k ∉ ["b/"; "b/x"; "b/y/z"] -> b' !! k = b !! k).
Proof.
  intros pagesize fuel b m vx vz Hn Hfuel Hm Hx Hz Honly.
  eexists. split; [by apply RenameObject_folder_a |].
  split; [by simplify_map_eq |]. split; [by simplify_map_eq |].
  split; [by simplify_map_eq |]. split; [by simplify_map_eq |].
  intros k Hk Hnot. rewrite !not_elem_of_cons in Hnot.
  destruct Hnot as (? & ? & ? & _).
  assert (k <> "a/") by (intros ->; done).
  by simplify_map_eq.
Qed.

Lemma C1_rename_folder_copies_and_drops_marker_witness :
  exists b',
    service.RenameObject (membucket.client 2) 4 "a/" "b/" samples.folder_a
    = Some (b', ({| service.Success := true;
                    service.Message := "Object renamed successfully" |}, None))
    /\ b' !! "b/" = Some (samples.obj "" 1)
    /\ b' !! "b/x" = Some (samples.obj "xx" 2)
    /\ b' !! "b/y/z" = Some (samples.obj "zzz" 3)
    /\ b' !! "a/" = None
    /\ (forall k, strings.HasPrefix k "a/" = false ->
                  k ∉ ["b/"; "b/x"; "b/y/z"] -> b' !! k = samples.folder_a !! k).
Proof.
  apply (C1_rename_folder_copies_and_drops_marker 2 4 samples.folder_a
           (samples.obj "" 1) (samples.obj "xx" 2) (samples.obj "zzz" 3)).
  - lia.
  - by vm_compute.
  - by vm_compute.
  - by vm_compute.
  - by vm_compute.
  - intros k Hp [v Hv].
    apply elem_of_list_to_map_2 in Hv.
    rewrite !elem_of_cons, elem_of_nil in Hv.
    rewrite !elem_of_cons. naive_solver.
Defined.

(** ** Folders that match nothing *)

Section Absent.

Import membucket.

Lemma HasPrefix_refl s : strings.HasPrefix s s = true.
Proof.
  induction s as [| c s IH]; cbn [strings.HasPrefix]; [done |].
  by rewrite Ascii.eqb_refl.
Qed.

Lemma DeleteObjects_absent_folder pagesize fuel (b : Bucket) key :
  (1 <= pagesize)%nat -> (size b < fuel)%nat ->
  strings.HasSuffix key "/" = true ->
  (forall k, strings.HasPrefix k key = true -> b !! k = None) ->
  service.DeleteObjects (client pagesize) fuel [key] b
  = Some (b, ({| service.Deleted := [key]; service.Failed := [] |}, None)).
Proof.
  intros Hn Hfuel Hfolder Hnone.
  unfold service.DeleteObjects. cbn [service.DeleteObjects_expand].
  rewrite Hfolder, ListAllObjects_membucket by done.
  rewrite (objects_under_none _ _ Hnone).
  cbn [service.keys_of omap list_omap app service.DeleteObjects_expand].
  rewrite DeleteObjects_membucket_one.
  by rewrite delete_id by apply Hnone, HasPrefix_refl.
Qed.

(** With no key under the folder, a rename stops at the copy of the
    marker. *)
Lemma RenameObject_absent_folder pagesize fuel (b : Bucket) key dst :
  (1 <= pagesize)%nat -> (size b < fuel)%nat ->
  strings.HasSuffix key "/" = true -> key <> dst ->
  (forall k, strings.HasPrefix k key = true -> b !! k = None) ->
  service.RenameObject (client pagesize) fuel key dst b
  = Some (b, ({| service.Success := false;
                 service.Message :=
                   "failed to copy folder marker: " +:+ NoSuchKey |},
              Some NoSuchKey)).
Proof.
  intros Hn Hfuel Hfolder Hne Hnone.
  unfold service.RenameObject.
  rewrite Hfolder, ListAllObjects_membucket by done.
  rewrite (objects_under_none _ _ Hnone).
  cbn [service.RenameObject_copy].
  unfold storage.CopyObject. cbn [s3.CopyObject client].
  destruct (String.eqb_spec key dst); [done |].
  by rewrite (Hnone key (HasPrefix_refl key)).
Qed.

End Absent.

(** C4, as stated, fails for rename and for copy: on an empty bucket,
    renaming or copying the folder [gone/], which matches no object, is not
    a successful no-op but returns the store's [NoSuchKey] error. *)
Lemma C4_rename_and_copy_of_absent_folder_fail :
  service.RenameObject (membucket.client 1000) 1 "gone/" "new/" ∅
  = Some (∅, ({| service.Success := false;
                 service.Message :=
                   "failed to copy folder marker: " +:+ membucket.NoSuchKey |},
              Some membucket.NoSuchKey))
  /\ service.CopyObject (membucket.client 1000) "gone/" "new/" ∅
     = (∅, ({| service.Success := false;
               service.Message :=
                 "failed to copy object: " +:+ membucket.NoSuchKey |},
            Some membucket.NoSuchKey)).
Proof. split; by vm_compute. Qed.

(** C4, amended. For every folder key that matches no object in the store,
    delete is a successful no-op: it returns the key as deleted, no failed
    key and no error, and the store is as before. Copy is not: it asks the
    store to copy the absent key and returns the store's error with a
    failure outcome, the store being as before. *)
Theorem C4_absent_folder_delete_is_noop :
  forall (pagesize fuel : nat) (b : membucket.Bucket) (key dst : string),
    (1 <= pagesize)%nat -> (size b < fuel)%nat ->
    strings.HasSuffix key "/" = true -> key <> dst ->
    (forall k, strings.HasPrefix k key = true -> b !! k = None) ->
    service.DeleteObjects (membucket.client pagesize) fuel [key] b
    = Some (b, ({| service.Deleted := [key]; service.Failed := [] |}, None))
    /\ service.CopyObject (membucket.client pagesize) key dst b
       = (b, ({| service.Success := false;
                 service.Message :=
                   "failed to copy object: " +:+ membucket.NoSuchKey |},
              Some membucket.NoSuchKey)).
Proof.
  intros pagesize fuel b key dst Hn Hfuel Hfolder Hne Hnone.
  split; [by apply DeleteObjects_absent_folder |].
  apply CopyObject_missing; [done |]. apply Hnone, HasPrefix_refl.
Qed.

Lemma C4_absent_folder_delete_is_noop_witness :
  service.DeleteObjects (membucket.client 1000) 4 ["gone/"] samples.folder_a
  = Some (samples.folder_a,
          ({| service.Deleted := ["gone/"]; service.Failed := [] |}, None)).
Proof.
  apply (C4_absent_folder_delete_is_noop 1000 4 samples.folder_a "gone/" "new/").
  - lia.
  - by vm_compute.
  - by vm_compute.
  - done.
  - intros k Hp. apply not_elem_of_list_to_map_1.
    cbn. rewrite !elem_of_cons, elem_of_nil.
    intros [-> | [-> | [-> | []]]]; done.
Defined.

(** ** Outcomes *)

Section Outcomes.

Context {St Token : Type} (store : s3.Client St Token).

Lemma DeleteObjects_expand_length fuel keys acc st all :
  service.DeleteObjects_expand store fuel keys acc st = Some (inr all) ->
  (length acc + length keys <= length all)%nat.
Proof.
  revert acc. induction keys as [| key keys IH]; intros acc;
    cbn [service.DeleteObjects_expand].
  - intros [= <-]. simpl. lia.
  - destruct (strings.HasSuffix key "/").
    + destruct (storage.ListAllObjects store fuel key st) as [[err | objects] |];
        try done.
      intros H%IH. rewrite !length_app in H. simpl in *. lia.
    + intros H%IH. rewrite !length_app in H. simpl in *. lia.
Qed.

(** Delete reports all the requested keys on one side. *)
Lemma DeleteObjects_outcome fuel keys st st' r e :
  service.DeleteObjects store fuel keys st = Some (st', (r, e)) ->
  (e = None /\ service.Deleted r = keys /\ service.Failed r = [])
  \/ (e <> None /\ service.Deleted r = [] /\ service.Failed r = keys).
Proof.
  unfold service.DeleteObjects.
  destruct (service.DeleteObjects_expand store fuel keys [] st)
    as [[err | all] |] eqn:Hexp; [| | done].
  - intros [= <- <- <-]. by right.
  - destruct all as [| k all].
    + apply DeleteObjects_expand_length in Hexp. simpl in Hexp.
      destruct keys; [| simpl in Hexp; lia].
      intros [= <- <- <-]. by left.
    + destruct (storage.DeleteObjects store (k :: all) st) as [st1 [err |]];
        intros [= <- <- <-]; [by right | by left].
Qed.

Lemma RenameObject_outcome fuel src dst st st' r e :
  service.RenameObject store fuel src dst st = Some (st', (r, e)) ->
  service.Success r = true <-> e = None.
Proof.
  unfold service.RenameObject, service.failed.
  repeat match goal with
         | |- context [match ?x with _ => _ end] => destruct x
         | |- context [if ?x then _ else _] => destruct x
         end; intros [= <- <- <-]; done.
Qed.

Lemma CopyObject_outcome src dst st st' r e :
  service.CopyObject store src dst st = (st', (r, e)) ->
  service.Success r = true <-> e = None.
Proof.
  unfold service.CopyObject, service.failed.
  destruct (storage.CopyObject store src dst st) as [st1 [err |]];
    intros [= <- <- <-]; done.
Qed.

End Outcomes.

(** On the in-memory bucket, with fuel for its listing, delete and rename
    do return. *)
Lemma DeleteObjects_expand_membucket pagesize fuel keys acc (b : membucket.Bucket) :
  (1 <= pagesize)%nat -> (size b < fuel)%nat ->
  exists all,
    service.DeleteObjects_expand (membucket.client pagesize) fuel keys acc b
    = Some (inr all).
Proof.
  intros Hn Hfuel. revert acc.
  induction keys as [| key keys IH]; intros acc;
    cbn [service.DeleteObjects_expand]; [by eexists |].
  destruct (strings.HasSuffix key "/"); [| apply IH].
  rewrite ListAllObjects_membucket by done. apply IH.
Qed.

Lemma DeleteObjects_returns pagesize fuel keys (b : membucket.Bucket) :
  (1 <= pagesize)%nat -> (size b < fuel)%nat ->
  is_Some (service.DeleteObjects (membucket.client pagesize) fuel keys b).
Proof.
  intros Hn Hfuel. unfold service.DeleteObjects.
  destruct (DeleteObjects_expand_membucket pagesize fuel keys [] b Hn Hfuel)
    as [all ->].
  destruct all as [| k all]; [by eexists |].
  destruct (storage.DeleteObjects (membucket.client pagesize) (k :: all) b)
    as [st' [err |]]; by eexists.
Qed.

Lemma RenameObject_returns pagesize fuel src dst (b : membucket.Bucket) :
  (1 <= pagesize)%nat -> (size b < fuel)%nat ->
  is_Some (service.RenameObject (membucket.client pagesize) fuel src dst b).
Proof.
  intros Hn Hfuel. unfold service.RenameObject.
  rewrite ListAllObjects_membucket by done.
  repeat match goal with
         | |- context [match ?x with _ => _ end] => destruct x
         | |- context [if ?x then _ else _] => destruct x
         end; by eexists.
Qed.

(** C3, as stated, fails. Deleting the folder [a/] returns the same outcome
    from an empty bucket, where nothing existed, and from the sample
    bucket, where three objects were deleted; and a rename that stops at
    its third copy, two objects already copied, returns a failure flag and
    a message, with no list of the keys that did and did not succeed. *)
Lemma C3_outcomes_do_not_tell_cases_apart :
  (exists out,
      snd <$> service.DeleteObjects (membucket.client 1000) 4 ["a/"] ∅
      = Some out
      /\ snd <$> service.DeleteObjects (membucket.client 1000) 4 ["a/"]
                   samples.folder_a
         = Some out)
  /\ (exists b',
        service.RenameObject (membucket.flaky_client "a/y/z" 1000) 4 "a/" "b/"
          samples.folder_a
        = Some (b', ({| service.Success := false;
                        service.Message :=
                          "failed to copy object a/y/z: connection reset" |},
                     Some "connection reset"))
        /\ b' !! "b/" = Some (samples.obj "" 1)
        /\ b' !! "b/x" = Some (samples.obj "xx" 2)
        /\ b' !! "b/y/z" = None).
Proof.
  split.
  - eexists. split; by vm_compute.
  - eexists. split; [by vm_compute |]. repeat split; by vm_compute.
Qed.

(** C3, amended. Delete returns explicit lists of deleted and failed keys,
    filled all or nothing: the requested keys are all reported deleted when
    no error is returned, and all reported failed when one is. Rename and
    copy return a success flag and a message, the flag being set exactly
    when no error is returned. A failure is thus never reported as a
    success; which keys of a partly done operation succeeded is not
    reported, nor whether anything existed. On a bucket whose listing ends,
    each operation does return its outcome. *)
Theorem C3_outcome_shapes :
  (forall (St Token : Type) (store : s3.Client St Token) (fuel : nat)
          (keys : list string) (src dst : string) (st : St),
      (forall st' r e,
          service.DeleteObjects store fuel keys st = Some (st', (r, e)) ->
          (e = None /\ service.Deleted r = keys /\ service.Failed r = [])
          \/ (e <> None /\ service.Deleted r = [] /\ service.Failed r = keys))
      /\ (forall st' r e,
            service.RenameObject store fuel src dst st = Some (st', (r, e)) ->
            service.Success r = true <-> e = None)
      /\ (forall st' r e,
            service.CopyObject store src dst st = (st', (r, e)) ->
            service.Success r = true <-> e = None))
  /\ (forall (pagesize fuel : nat) (b : membucket.Bucket)
             (keys : list string) (src dst : string),
        (1 <= pagesize)%nat -> (size b < fuel)%nat ->
        is_Some (service.DeleteObjects (membucket.client pagesize) fuel keys b)
        /\ is_Some (service.RenameObject (membucket.client pagesize) fuel
                      src dst b)).
Proof.
  split.
  - intros St Token store fuel keys src dst st. split; [| split].
    + intros st' r e. apply DeleteObjects_outcome.
    + intros st' r e. apply RenameObject_outcome.
    + intros st' r e. apply CopyObject_outcome.
  - intros pagesize fuel b keys src dst Hn Hfuel. split.
    + by apply DeleteObjects_returns.
    + by apply RenameObject_returns.
Qed.

Lemma C3_outcome_shapes_witness :
  exists st' r e,
    service.DeleteObjects (membucket.client 1000) 4 ["a/"] samples.folder_a
    = Some (st', (r, e))
    /\ ((e = None /\ service.Deleted r = ["a/"] /\ service.Failed r = [])
        \/ (e <> None /\ service.Deleted r = [] /\ service.Failed r = ["a/"])).
Proof.
  eexists _, _, _. split; [by vm_compute |].
  eapply (proj1 ((proj1 C3_outcome_shapes) _ _ (membucket.client 1000) 4%nat
                   ["a/"] "a/" "b/" samples.folder_a)).
  by vm_compute.
Defined.

(** ** Strings *)

Section Strings.

Import strings.

Lemma HasPrefix_app p r : HasPrefix (p +:+ r) p = true.
Proof.
  induction p as [| c p IH]; cbn [String.append HasPrefix]; [by destruct r |].
  by rewrite Ascii.eqb_refl.
Qed.

Lemma drop_app p r : drop (String.length p) (p +:+ r) = r.
Proof. induction p as [| c p IH]; cbn; [done | exact IH]. Qed.

Lemma HasPrefix_inv s p :
  HasPrefix s p = true -> s = p +:+ drop (String.length p) s.
Proof.
  revert s. induction p as [| c p IH]; intros s; [done |].
  destruct s as [| d s]; cbn [HasPrefix String.length drop String.append];
    [done |].
  destruct (Ascii.eqb_spec c d) as [-> | _]; [| done].
  intros H. f_equal. by apply IH.
Qed.

Lemma TrimPrefix_app p r : TrimPrefix (p +:+ r) p = r.
Proof. unfold TrimPrefix. by rewrite HasPrefix_app, drop_app. Qed.

Lemma TrimPrefix_inv s p : HasPrefix s p = true -> s = p +:+ TrimPrefix s p.
Proof. intros H. unfold TrimPrefix. rewrite H. by apply HasPrefix_inv. Qed.

Lemma TrimPrefix_empty s : TrimPrefix s "" = s.
Proof. unfold TrimPrefix. by destruct s. Qed.

Lemma HasPrefix_byte s c : HasPrefix s (String c "") = true <-> exists r, s = String c r.
Proof.
  destruct s as [| d s]; cbn.
  - split; [done | by intros [r Hr]].
  - destruct (Ascii.eqb_spec c d) as [-> | Hne].
    + split; [by eexists | done].
    + split; [done | intros [r [= Hd _]]; congruence].
Qed.

(** Looking for a one-byte string is looking for the byte. *)
Lemma Contains_byte s c : Contains s (String c "") = has_byte c s.
Proof.
  induction s as [| d s IH]; cbn [Contains has_byte HasPrefix]; [done |].
  rewrite IH. rewrite (Ascii.eqb_sym c d). by destruct (Ascii.eqb d c).
Qed.

Lemma Cut1_head_no_sep s sep : has_byte sep (Cut1 s sep).1 = false.
Proof.
  induction s as [| d s IH]; cbn [Cut1]; [done |].
  destruct (Ascii.eqb d sep) eqn:E; [done |].
  destruct (Cut1 s sep) as [a b]. cbn in *. by rewrite E.
Qed.

Lemma Cut1_head_empty s sep :
  (Cut1 s sep).1 = "" -> s = "" \/ exists r, s = String sep r.
Proof.
  destruct s as [| d s]; cbn [Cut1]; [by left |].
  destruct (Ascii.eqb_spec d sep) as [-> | _]; [intros _; right; by eexists |].
  by destruct (Cut1 s sep).
Qed.

Lemma last_byte_app s1 s2 : s2 <> "" -> last_byte (s1 +:+ s2) = last_byte s2.
Proof.
  intros Hs2. induction s1 as [| c s1 IH]; cbn [String.append]; [done |].
  cbn [last_byte]. destruct (s1 +:+ s2) eqn:E; [| done].
  destruct s1, s2; done.
Qed.

Lemma last_byte_has_byte s c : last_byte s = Some c -> has_byte c s = true.
Proof.
  induction s as [| d s IH]; cbn [last_byte has_byte]; [done |].
  destruct s as [| e s].
  - intros [= ->]. by rewrite Ascii.eqb_refl.
  - intros H. rewrite (IH H). apply orb_true_r.
Qed.

(** A one-byte suffix is the last byte. *)
Lemma HasSuffix_byte s c :
  HasSuffix s (String c "") = true <-> last_byte s = Some c.
Proof.
  unfold HasSuffix. cbn [String.length].
  induction s as [| d s IH]; [done |].
  destruct s as [| e s].
  - cbn. destruct (Ascii.eqb_spec d c) as [-> | Hne]; [done |].
    split; [done | intros [= ->]; done].
  - cbn [last_byte]. rewrite <- IH. cbn [String.length Nat.leb Nat.sub andb drop].
    by rewrite Nat.sub_0_r.
Qed.

Lemma HasSuffix_app_byte s c : HasSuffix (s +:+ String c "") (String c "") = true.
Proof. apply HasSuffix_byte. by rewrite last_byte_app. Qed.

(** A text that ends in a non-empty piece without the byte does not end in
    the byte. *)
Lemma HasSuffix_no_byte s r c :
  r <> "" -> has_byte c r = false -> HasSuffix (s +:+ r) (String c "") = false.
Proof.
  intros Hr Hc. apply not_true_is_false. intros H.
  apply HasSuffix_byte in H. rewrite last_byte_app in H by done.
  apply last_byte_has_byte in H. congruence.
Qed.

Lemma append_empty_inv s1 s2 : s1 +:+ s2 = "" -> s1 = "" /\ s2 = "".
Proof. by destruct s1, s2. Qed.

End Strings.

(** ** The folder projection *)

Section Projection.

Import strings service.

Lemma relative_key_plain P k :
  plain P k ->
  relative_key P k = if HasPrefix k P then Some (TrimPrefix k P) else None.
Proof.
  intros Hplain. unfold relative_key.
  destruct (String.eqb_spec P "") as [-> | HP]; cbn [negb].
  - by rewrite TrimPrefix_empty.
  - destruct (HasPrefix k P) eqn:Hp; cbn [negb]; [| done].
    by rewrite (Hplain HP Hp).
Qed.

(** What [relative_key] returns never starts with a slash under a
    non-empty prefix. *)
Lemma relative_key_no_slash P k rel :
  P <> "" -> relative_key P k = Some rel -> HasPrefix rel "/" = false.
Proof.
  intros HP. unfold relative_key.
  destruct (String.eqb_spec P "") as [-> | _]; [done |]. cbn [negb].
  destruct (HasPrefix k P); cbn [negb]; [| done].
  destruct (HasPrefix (TrimPrefix k P) "/") eqn:E; intros [= <-]; [| done].
  clear. induction (TrimPrefix k P) as [| c s IH]; cbn [TrimLeft1]; [done |].
  destruct (Ascii.eqb_spec c "/") as [-> | Hne]; [done |].
  cbn [HasPrefix]. destruct (Ascii.eqb_spec "/"%char c) as [<- | _]; done.
Qed.

Lemma folder_prefix_eq P rel :
  (Cut1 rel "/").1 <> "" \/ P = "" ->
  folder_prefix P rel = P +:+ (Cut1 rel "/").1 +:+ "/".
Proof.
  intros H. unfold folder_prefix.
  destruct (String.eqb_spec (Cut1 rel "/").1 "") as [Hraw | Hraw].
  - destruct H as [? | ->]; [done |]. by rewrite Hraw.
  - rewrite HasSuffix_no_byte by (done || apply Cut1_head_no_sep).
    cbn [negb]. apply append_assoc.
Qed.

Lemma folder_prefix_suffix P rel : HasSuffix (folder_prefix P rel) "/" = true.
Proof.
  unfold folder_prefix.
  destruct (HasSuffix (P +:+ (Cut1 rel "/").1) "/") eqn:E; cbn [negb]; [done |].
  apply HasSuffix_app_byte.
Qed.

(** Under the no-further-slash condition the loop finds the child that
    the specification describes. *)
Lemma child_of_immediate_child P k :
  plain P k ->
  immediate_child P k
  = match child_of P k with
    | None => None
    | Some (inl f) => Some f
    | Some (inr name) => Some (P +:+ name)
    end.
Proof.
  intros Hplain. unfold immediate_child, child_of.
  rewrite (relative_key_plain _ _ Hplain).
  destruct (HasPrefix k P) eqn:Hp; [| done].
  set (rel := TrimPrefix k P) in *.
  destruct (String.eqb_spec rel "") as [Hrel | Hrel]; [done |].
  destruct (Contains rel "/"); [| done].
  rewrite folder_prefix_eq; [done |].
  destruct (String.eqb_spec P "") as [-> | HP]; [by right | left].
  intros [-> | [r Hr]]%Cut1_head_empty; [done |].
  specialize (Hplain HP Hp). fold rel in Hplain. by rewrite Hr in Hplain.
Qed.

(** One round of the loop, read through [child_of]. *)
Lemma group_object_child P acc obj :
  group_object P acc obj
  = match s3.Key obj with
    | None => acc
    | Some k =>
        match child_of P k with
        | None => acc
        | Some (inl f) =>
            match folderMap acc !! f with
            | Some _ => acc
            | None =>
                {| folderMap :=
                     <[f := folder_entry f
                              (match relative_key P k with
                               | Some rel =>
                                   if String.eqb (Cut1 rel "/").1 ""
                                   then "(empty)" else (Cut1 rel "/").1
                               | None => ""
                               end)]> (folderMap acc);
                   folderKeys := folderKeys acc ++ [f];
                   files := files acc |}
            end
        | Some (inr name) =>
            {| folderMap := folderMap acc;
               folderKeys := folderKeys acc;
               files := files acc ++ [file_entry P name obj] |}
        end
    end.
Proof.
  unfold group_object, child_of.
  destruct (s3.Key obj) as [k |]; [| done].
  destruct (relative_key P k) as [rel |]; [| done].
  destruct (String.eqb rel ""); [done |].
  destruct (Contains rel "/"); done.
Qed.

Lemma keys_of_snoc seen obj :
  keys_of (seen ++ [obj])
  = keys_of seen ++ match s3.Key obj with Some k => [k] | None => [] end.
Proof.
  unfold keys_of. rewrite omap_app. cbn. by destruct (s3.Key obj).
Qed.

Lemma group_inv_step P seen acc obj :
  group_inv P seen acc -> group_inv P (seen ++ [obj]) (group_object P acc obj).
Proof.
  intros [Hnodup Hkeys Hmap Hdom Hfiles].
  rewrite group_object_child.
  assert (omap (file_of P) (seen ++ [obj])
          = omap (file_of P) seen
            ++ match file_of P obj with Some e => [e] | None => [] end) as Hsnoc.
  { rewrite omap_app. cbn. by destruct (file_of P obj). }
  pose proof (keys_of_snoc seen obj) as Hks.
  assert (file_of P obj
          = match s3.Key obj with
            | Some key =>
                match child_of P key with
                | Some (inr name) => Some (file_entry P name obj)
                | _ => None
                end
            | None => None
            end) as Hfo by done.
  destruct (s3.Key obj) as [k |] eqn:Hk.
  2: { rewrite Hfo, app_nil_r in Hsnoc. rewrite app_nil_r in Hks.
       split; try done; [by setoid_rewrite Hks | by rewrite Hsnoc]. }
  destruct (child_of P k) as [[f | name] |] eqn:Hchild;
    rewrite Hfo in Hsnoc; clear Hfo.
  - rewrite app_nil_r in Hsnoc.
    destruct (folderMap acc !! f) as [e |] eqn:Hf.
    + split; try done; [| by rewrite Hsnoc].
      intros f'. rewrite Hkeys, Hks. setoid_rewrite elem_of_app.
      setoid_rewrite list_elem_of_singleton. split; [naive_solver |].
      intros (k' & [Hin | ->] & Hc); [by eauto |].
      assert (f' = f) as -> by congruence.
      apply Hkeys, Hdom. by eexists.
    + assert (f ∉ folderKeys acc) as Hfresh.
      { intros (e & He & _)%Hmap. congruence. }
      split; cbn [folderMap folderKeys files].
      * apply NoDup_app. split; [done |]. split; [| apply NoDup_singleton].
        intros x Hx ->%list_elem_of_singleton. done.
      * intros f'. rewrite elem_of_app, list_elem_of_singleton, Hkeys, Hks.
        setoid_rewrite elem_of_app. setoid_rewrite list_elem_of_singleton.
        split; [naive_solver |].
        intros (k' & [Hin | ->] & Hc); [by eauto |]. right. congruence.
      * intros f' [Hin | ->%list_elem_of_singleton]%elem_of_app.
        -- destruct (Hmap f' Hin) as (e & He & Hrest).
           exists e. split; [| done].
           rewrite lookup_insert_ne; [done |]. by intros ->.
        -- eexists. rewrite lookup_insert_eq. done.
      * intros f' Hsome. apply elem_of_app.
        destruct (decide (f' = f)) as [-> | Hne].
        -- right. by apply list_elem_of_singleton.
        -- left. apply Hdom. by rewrite lookup_insert_ne in Hsome.
      * by rewrite Hsnoc.
  - split; cbn [folderMap folderKeys files]; try done.
    + intros f. rewrite Hkeys, Hks. setoid_rewrite elem_of_app.
      setoid_rewrite list_elem_of_singleton. split; [naive_solver |].
      intros (k' & [Hin | ->] & Hc); [by eauto | congruence].
    + by rewrite Hsnoc, Hfiles.
  - rewrite app_nil_r in Hsnoc.
    split; try done; [| by rewrite Hsnoc].
    intros f. rewrite Hkeys, Hks. setoid_rewrite elem_of_app.
    setoid_rewrite list_elem_of_singleton. split; [naive_solver |].
    intros (k' & [Hin | ->] & Hc); [by eauto | congruence].
Qed.

Lemma group_inv_fold P objects seen acc :
  group_inv P seen acc ->
  group_inv P (seen ++ objects) (fold_left (group_object P) objects acc).
Proof.
  revert seen acc. induction objects as [| obj objects IH]; intros seen acc Hinv.
  - by rewrite app_nil_r.
  - cbn [fold_left]. rewrite (cons_middle obj), app_assoc.
    by apply IH, group_inv_step.
Qed.

Lemma group_inv_group P objects : group_inv P objects (group P objects).
Proof.
  apply (group_inv_fold P objects []).
  split; cbn; try done.
  - apply NoDup_nil_2.
  - intros f. rewrite elem_of_nil. split; [done |].
    by intros (k & ?%elem_of_nil & _).
  - by intros f ?%elem_of_nil.
  - by intros f [? ?].
Qed.

Lemma child_of_folder_suffix P k f :
  child_of P k = Some (inl f) -> HasSuffix f "/" = true.
Proof.
  unfold child_of. destruct (relative_key P k) as [rel |]; [| done].
  destruct (String.eqb rel ""); [done |].
  destruct (Contains rel "/"); intros [= <-]. apply folder_prefix_suffix.
Qed.

Lemma child_of_file_suffix P k name :
  child_of P k = Some (inr name) -> HasSuffix (P +:+ name) "/" = false.
Proof.
  unfold child_of. destruct (relative_key P k) as [rel |]; [| done].
  destruct (String.eqb_spec rel "") as [| Hrel]; [done |].
  destruct (Contains rel "/") eqn:Hc; intros [= <-].
  rewrite Contains_byte in Hc. by apply HasSuffix_no_byte.
Qed.

(** A file entry carries the key of its object. *)
Lemma child_of_file_key P k name :
  plain P k -> child_of P k = Some (inr name) -> P +:+ name = k.
Proof.
  intros Hplain. unfold child_of. rewrite (relative_key_plain _ _ Hplain).
  destruct (HasPrefix k P) eqn:Hp; [| done].
  destruct (String.eqb (TrimPrefix k P) ""); [done |].
  destruct (Contains (TrimPrefix k P) "/"); intros [= <-].
  symmetry. by apply TrimPrefix_inv.
Qed.

Lemma elem_of_keys_of objects k :
  k ∈ keys_of objects <-> exists obj, obj ∈ objects /\ s3.Key obj = Some k.
Proof. unfold keys_of. apply list_elem_of_omap. Qed.

Lemma elem_of_file_keys P objects e :
  e ∈ Key <$> omap (file_of P) objects
  <-> exists k name,
        k ∈ keys_of objects /\ child_of P k = Some (inr name) /\ e = P +:+ name.
Proof.
  rewrite list_elem_of_fmap. setoid_rewrite list_elem_of_omap.
  unfold file_of. split.
  - intros (fe & -> & obj & Hobj & Hfe).
    destruct (s3.Key obj) as [k |] eqn:Hk; [| done].
    destruct (child_of P k) as [[f | name] |] eqn:Hc; try done.
    injection Hfe as <-. exists k, name. eauto.
  - intros (k & name & (obj & Hobj & Hk) & Hc & ->).
    exists (file_entry P name obj). split; [done |].
    exists obj. by rewrite Hk, Hc.
Qed.

Lemma file_keys_sublist P objects :
  (forall k, k ∈ keys_of objects -> plain P k) ->
  (Key <$> omap (file_of P) objects) `sublist_of` keys_of objects.
Proof.
  induction objects as [| obj objects IH]; intros Hplain; [constructor |].
  assert (forall k, k ∈ keys_of objects -> plain P k) as Hrest.
  { intros k Hk. apply Hplain. unfold keys_of in *. cbn.
    destruct (s3.Key obj); [by apply list_elem_of_further | done]. }
  specialize (IH Hrest).
  unfold keys_of, file_of in *. cbn.
  destruct (s3.Key obj) as [k |] eqn:Hk; [| done].
  destruct (child_of P k) as [[f | name] |] eqn:Hc;
    try by apply sublist_cons.
  cbn. rewrite (child_of_file_key P k name); [by apply sublist_skip | | done].
  apply Hplain. cbn. rewrite Hk. apply list_elem_of_here.
Qed.

Lemma StronglySorted_fmap_elem {A B} (f : A -> B)
    (R1 : relation A) (R2 : relation B) (l : list A) :
  (forall x y, x ∈ l -> y ∈ l -> R1 x y -> R2 (f x) (f y)) ->
  StronglySorted R1 l -> StronglySorted R2 (f <$> l).
Proof.
  intros Hf Hl. induction Hl as [| x l Hl IH Hx]; csimpl; constructor.
  - apply IH. intros y z Hy Hz. apply Hf; by apply list_elem_of_further.
  - rewrite Forall_fmap. rewrite Forall_forall in Hx |- *.
    intros y Hy. apply Hf; [apply list_elem_of_here | | by apply Hx].
    by apply list_elem_of_further.
Qed.


Lemma name_less_StrictWeak : sort.StrictWeak name_less.
Proof.
  unfold name_less. split.
  - intros a b. unfold String.ltb. rewrite (String.compare_antisym (ToLower (Name b))).
    by destruct (String.compare (ToLower (Name a)) (ToLower (Name b))).
  - intros a b c Hba Hcb.
    assert (forall x y, String.ltb y x = false <-> String.le x y) as Hle.
    { intros x y. unfold String.le, String.ltb, String.leb.
      rewrite (String.compare_antisym x y).
      by destruct (String.compare y x). }
    apply Hle. etrans; by apply Hle.
Qed.


Context `{sorter : sort.SliceSort}.

(** The two halves of the projection and what each holds. *)
Lemma project_parts prefix objects :
  let P := normalize_prefix prefix in
  let acc := group P objects in
  exists folders files,
    project prefix objects = folders ++ files
    /\ Key <$> folders = sort.Strings (folderKeys acc)
    /\ files ≡ₚ service.files acc
    /\ StronglySorted (fun a b => name_less b a = false) files
    /\ Forall (fun e => Kind e = "folder") folders
    /\ Forall (fun e => Kind e = "file") files
    /\ folders ≡ₚ
         (fun key => default zero (folderMap acc !! key)) <$> folderKeys acc.
Proof.
  intros P acc.
  destruct (group_inv_group P objects) as [Hnodup Hkeys Hmap Hdom Hfiles].
  eexists _, _. split; [reflexivity |].
  fold P. fold acc. fold acc in Hnodup, Hkeys, Hmap, Hdom, Hfiles.
  pose proof (merge_sort_Permutation String.le (folderKeys acc)) as Hperm.
  fold (sort.Strings (folderKeys acc)) in Hperm.
  assert (forall f, f ∈ sort.Strings (folderKeys acc) -> f ∈ folderKeys acc)
    as Hin by (intros f; by rewrite Hperm).
  split; [| split; [| split; [| split; [| split]]]].
  - revert Hin. generalize (sort.Strings (folderKeys acc)).
    clear Hperm. intros l Hin. induction l as [| f l IH]; [done |].
    csimpl. rewrite IH by (intros f' Hf'; by apply Hin, list_elem_of_further).
    destruct (Hmap f (Hin f (list_elem_of_here _ _))) as (e & -> & <- & _).
    done.
  - apply sort.Slice_Permutation.
  - apply sort.Slice_sorted, name_less_StrictWeak.
  - rewrite Forall_fmap, Forall_forall. intros f Hf. cbn.
    by destruct (Hmap f (Hin f Hf)) as (e & -> & _ & ?).
  - rewrite sort.Slice_Permutation, Hfiles, Forall_forall.
    intros e (obj & _ & He)%list_elem_of_omap. unfold file_of in He.
    destruct (s3.Key obj) as [k |]; [| done].
    destruct (child_of P k) as [[f | name] |]; try done.
    by injection He as <-.
  - by rewrite Hperm.
Qed.

End Projection.

(** C5, as stated, fails: under the prefix [p/], the keys [p//foo] and
    [p///foo] lie in one immediate child, the folder with the empty name,
    yet the projection has two entries, both the file [p/foo], a key that
    is not in the listing. *)
Lemma C5_extra_slashes_give_duplicates :
  service.Key <$> service.project "p" [samples.listed "p//foo"; samples.listed "p///foo"]
  = ["p/foo"; "p/foo"]
  /\ service.Kind <$> service.project "p" [samples.listed "p//foo"; samples.listed "p///foo"]
     = ["file"; "file"]
  /\ service.immediate_child "p/" "p//foo" = Some "p//"
  /\ service.immediate_child "p/" "p///foo" = Some "p//".
Proof. repeat split; by vm_compute. Qed.

(** C5, amended. For every prefix and every listing, the projection is a
    run of folder entries followed by a run of file entries, and no two
    folder entries have the same key, however many keys lie in one folder.
    When the listed keys are distinct and, under a non-empty prefix, none
    has a further slash right after the prefix, the projection has exactly
    one entry for each distinct immediate child of the prefix among the
    listed keys, the marker of the prefix itself giving none. (Under a
    non-empty prefix the loop strips such further slashes before it looks
    for the child.) *)
Theorem C5_projection_one_entry_per_child :
  forall (sorter : sort.SliceSort) (prefix : string) (objects : list s3.Object),
    exists folders files : list service.BucketObject,
      service.project prefix objects = folders ++ files
      /\ Forall (fun e => service.Kind e = "folder") folders
      /\ Forall (fun e => service.Kind e = "file") files
      /\ NoDup (service.Key <$> folders)
      /\ (NoDup (service.keys_of objects) ->
          (forall k, k ∈ service.keys_of objects ->
                     service.plain (service.normalize_prefix prefix) k) ->
          NoDup (service.Key <$> service.project prefix objects)
          /\ forall e,
               e ∈ service.Key <$> service.project prefix objects
               <-> exists k,
                     k ∈ service.keys_of objects
                     /\ service.immediate_child
                          (service.normalize_prefix prefix) k = Some e).
Proof.
  intros sorter prefix objects.
  destruct (project_parts prefix objects)
    as (folders & files & Hproj & Hfk & Hfiles & _ & Hfold & Hfile & _).
  set (P := service.normalize_prefix prefix) in *.
  destruct (group_inv_group P objects) as [Hnodup Hkeys Hmap Hdom Hinv].
  pose proof (merge_sort_Permutation String.le
                (service.folderKeys (service.group P objects))) as Hperm.
  fold (sort.Strings (service.folderKeys (service.group P objects))) in Hperm.
  exists folders, files. split; [done |]. split; [done |]. split; [done |].
  split; [by rewrite Hfk, Hperm |].
  intros Hdistinct Hplain. rewrite Hproj, fmap_app, Hfk.
  split.
  - rewrite Hperm, Hfiles, Hinv. apply NoDup_app. split; [done |]. split.
    + intros e (k & _ & Hc)%Hkeys (k' & name & _ & Hc' & ->)%elem_of_file_keys.
      apply child_of_folder_suffix in Hc. apply child_of_file_suffix in Hc'.
      congruence.
    + eapply sublist_NoDup; [exact Hdistinct | by apply file_keys_sublist].
  - intros e.
    rewrite elem_of_app, Hperm, Hfiles, Hinv, Hkeys, elem_of_file_keys. split.
    + intros [(k & Hk & Hc) | (k & name & Hk & Hc & ->)]; exists k;
        (split; [done |]);
        rewrite (child_of_immediate_child _ _ (Hplain k Hk)), Hc; done.
    + intros (k & Hk & Hc).
      rewrite (child_of_immediate_child _ _ (Hplain k Hk)) in Hc.
      destruct (service.child_of P k) as [[f | name] |] eqn:Hchild; [| | done].
      * injection Hc as <-. left. eauto.
      * injection Hc as <-. right. eauto.
Qed.

Lemma C5_projection_one_entry_per_child_witness :
  NoDup (service.keys_of samples.under_p)
  /\ (forall k, k ∈ service.keys_of samples.under_p ->
                service.plain (service.normalize_prefix "p") k)
  /\ NoDup (service.Key <$> service.project "p" samples.under_p)
  /\ service.Key <$> service.project "p" samples.under_p
     = ["p/B/"; "p/a/"; "p/f"].
Proof.
  assert (NoDup (service.keys_of samples.under_p)) as Hdistinct.
  { apply (bool_decide_unpack _). by vm_compute. }
  assert (forall k, k ∈ service.keys_of samples.under_p ->
                    service.plain (service.normalize_prefix "p") k) as Hplain.
  { intros k Hk _ _. vm_compute in Hk.
    repeat (apply elem_of_cons in Hk as [-> | Hk]; [by vm_compute |]).
    by apply elem_of_nil in Hk. }
  split; [done |]. split; [done |].
  destruct (C5_projection_one_entry_per_child insertion_sorter "p"
              samples.under_p) as (folders & files & _ & _ & _ & _ & Hone).
  split; [by apply Hone | by vm_compute].
Defined.




(** ** The adapter's loops seen from the store *)

Section Batches.

Import s3 storage.

Lemma chunks_go_bounds {A} (fuel n : nat) (l : list A) :
  (1 <= n)%nat ->
  Forall (fun c => (1 <= length c <= n)%nat) (chunks_go fuel n l).
Proof.
  intros Hn. revert l. induction fuel as [| fuel IH]; intros l; [constructor |].
  destruct l as [| x l]; [constructor |].
  cbn [chunks_go]. constructor; [| apply IH].
  rewrite length_take. cbn [length]. lia.
Qed.

Lemma chunks_go_count {A} (fuel n : nat) (l : list A) :
  (1 <= n)%nat -> (length l <= fuel)%nat ->
  length (chunks_go fuel n l) = ((length l + n - 1) / n)%nat.
Proof.
  intros Hn. revert l. induction fuel as [| fuel IH]; intros l Hl.
  - destruct l; [| simpl in Hl; lia]. cbn [chunks_go length].
    symmetry. apply Nat.div_small. lia.
  - destruct l as [| x l].
    { cbn [chunks_go length]. symmetry. apply Nat.div_small. lia. }
    cbn [chunks_go]. cbn [length] in *. rewrite IH, length_drop.
    2: { rewrite length_drop. cbn [length]. lia. }
    cbn [length].
    destruct (decide (S (length l) <= n)%nat) as [Hle | Hgt].
    + replace (S (length l) - n + n - 1)%nat with (n - 1)%nat by lia.
      rewrite (Nat.div_small (n - 1) n) by lia.
      apply (Nat.div_unique _ _ 1 (length l)); lia.
    + replace (S (length l) + n - 1)%nat
        with ((S (length l) - n + n - 1) + 1 * n)%nat by lia.
      rewrite Nat.div_add by lia. lia.
Qed.

Lemma DeleteObjects_loop_recorder fuel keys log :
  DeleteObjects_loop (stores.recorder None) fuel keys log
  = (log ++ chunks_go fuel 1000 keys, None).
Proof.
  revert keys log. induction fuel as [| fuel IH]; intros keys log.
  - cbn. by rewrite app_nil_r.
  - destruct keys as [| key keys]; [cbn; by rewrite app_nil_r |].
    cbn [DeleteObjects_loop s3.DeleteObjects stores.recorder chunks_go].
    rewrite bool_decide_eq_false_2 by done.
    rewrite IH. by rewrite <- app_assoc.
Qed.

Lemma DeleteObjects_loop_refused fuel keys log k :
  (length log <= k)%nat ->
  (k - length log < length (chunks_go fuel 1000 keys))%nat ->
  DeleteObjects_loop (stores.recorder (Some k)) fuel keys log
  = (log ++ take (S (k - length log)) (chunks_go fuel 1000 keys),
     Some "InternalError: We encountered an internal error.").
Proof.
  revert keys log. induction fuel as [| fuel IH]; intros keys log Hlog Hk.
  - cbn in Hk. lia.
  - destruct keys as [| key keys]; [cbn in Hk; lia |].
    cbn [DeleteObjects_loop s3.DeleteObjects stores.recorder chunks_go] in *.
    case_bool_decide as Hhere.
    + injection Hhere as ->. by rewrite Nat.sub_diag.
    + assert (length log < k)%nat as Hlt.
      { destruct (decide (length log = k)); [congruence | lia]. }
      cbn [length] in Hk.
      rewrite IH; rewrite ?length_app; cbn [length]; [| lia | lia].
      rewrite <- app_assoc. cbn [app].
      replace (k - length log)%nat with (S (k - (length log + 1)))%nat by lia.
      done.
Qed.

End Batches.

(** X1. [ObjectStore.DeleteObjects] sends the keys in batches: what the
    store receives are the keys in their order, cut into requests of at
    least one and at most 1000 keys, as few as that allows; an empty key
    list sends no request. *)
Theorem X1_delete_sends_batches_of_1000 :
  forall keys : list string,
    exists batches : list (list string),
      storage.DeleteObjects (stores.recorder None) keys [] = (batches, None)
      /\ concat batches = keys
      /\ Forall (fun batch => (1 <= length batch <= 1000)%nat) batches
      /\ length batches = ((length keys + 999) / 1000)%nat.
Proof.
  intros keys. exists (s3.chunks 1000 keys).
  unfold storage.DeleteObjects. rewrite DeleteObjects_loop_recorder.
  cbn [app]. split; [done |]. split; [apply chunks_concat; lia |].
  split; [apply chunks_go_bounds; lia |].
  unfold s3.chunks. rewrite chunks_go_count by lia.
  f_equal. lia.
Qed.

(** X2. When the store refuses a batch, [ObjectStore.DeleteObjects]
    returns that error at once: the batches before it and the refused one
    were sent, the later ones never are. *)
Theorem X2_delete_stops_at_refused_batch :
  forall (keys : list string) (k : nat),
    (k < length (s3.chunks 1000 keys))%nat ->
    storage.DeleteObjects (stores.recorder (Some k)) keys []
    = (take (S k) (s3.chunks 1000 keys),
       Some "InternalError: We encountered an internal error.").
Proof.
  intros keys k Hk. unfold storage.DeleteObjects.
  rewrite (DeleteObjects_loop_refused _ _ [] k); cbn [length app];
    rewrite ?Nat.sub_0_r; [done | lia | done].
Qed.

Lemma X2_delete_stops_at_refused_batch_witness :
  (0 < length (s3.chunks 1000 (replicate 1001 "k")))%nat
  /\ storage.DeleteObjects (stores.recorder (Some 0%nat)) (replicate 1001 "k") []
     = (take 1 (s3.chunks 1000 (replicate 1001 "k")),
        Some "InternalError: We encountered an internal error.").
Proof.
  assert (0 < length (s3.chunks 1000 (replicate 1001 "k")))%nat as H
    by (vm_compute; lia).
  split; [exact H |].
  exact (X2_delete_stops_at_refused_batch (replicate 1001 "k") 0 H).
Defined.

Section Pages.

Import s3 storage.

Lemma ListAllObjects_loop_failing pages k err fuel token result :
  (default 0%nat token <= k)%nat -> (k < length pages)%nat ->
  (k - default 0%nat token < fuel)%nat ->
  ListAllObjects_loop (stores.failing_pages pages k err) fuel token result
  = Some (inl err).
Proof.
  revert token result.
  induction fuel as [| fuel IH]; intros token result Hle Hk Hfuel; [lia |].
  cbn [ListAllObjects_loop]. unfold stores.failing_pages at 1.
  case_bool_decide as Hhere; [done |].
  cbn [serve_pages Contents IsTruncated NextContinuationToken].
  set (i := default 0%nat token) in *.
  rewrite bool_decide_eq_true_2 by lia.
  apply IH; cbn [default from_option]; unfold id; lia.
Qed.

End Pages.

(** X3. [ObjectStore.ListAllObjects] has no partial result: when the
    request for any page fails, the pages already read are dropped and
    the error is all that is returned. *)
Theorem X3_enumeration_error_drops_pages :
  forall (pages : list (list s3.Object)) (k : nat) (err : s3.error)
         (fuel : nat),
    (k < length pages)%nat -> (k < fuel)%nat ->
    storage.ListAllObjects_loop (stores.failing_pages pages k err) fuel None []
    = Some (inl err).
Proof.
  intros pages k err fuel Hk Hfuel.
  apply ListAllObjects_loop_failing; cbn [default from_option]; unfold id; lia.
Qed.

Lemma X3_enumeration_error_drops_pages_witness :
  storage.ListAllObjects_loop
    (stores.failing_pages samples.three_pages 2 "RequestTimeout") 3 None []
  = Some (inl "RequestTimeout").
Proof.
  apply (X3_enumeration_error_drops_pages samples.three_pages 2 "RequestTimeout" 3);
    cbn; lia.
Defined.

Section FirstPage.

Import s3 storage membucket.

Lemma ListObjects_membucket pagesize prefix (b : Bucket) :
  storage.ListObjects (client pagesize) prefix b
  = inr (take pagesize (objects_under prefix b)).
Proof.
  unfold storage.ListObjects.
  cbn [ListObjectsV2 client serve_pages Contents].
  change (default 0%nat None) with 0%nat. f_equal.
  unfold chunks. destruct (objects_under prefix b) as [| o l]; [by rewrite take_nil |].
  done.
Qed.

End FirstPage.

(** X4. A folder listing is built from the first page of the store's
    answer only: [ObjectStore.ListObjects] returns the first [pagesize]
    objects under the prefix, and [BucketService.ListObjects] projects
    those and no more. *)
Theorem X4_listing_reads_first_page_only :
  forall (sorter : sort.SliceSort) (pagesize : nat) (prefix : string)
         (b : membucket.Bucket),
    storage.ListObjects (membucket.client pagesize) prefix b
    = inr (take pagesize (membucket.objects_under prefix b))
    /\ service.ListObjects (membucket.client pagesize) prefix b
       = inr (service.project prefix
                (take pagesize
                   (membucket.objects_under (service.normalize_prefix prefix) b))).
Proof.
  intros sorter pagesize prefix b. split; [apply ListObjects_membucket |].
  unfold service.ListObjects. by rewrite ListObjects_membucket.
Qed.

Section BucketSize.

Import s3 storage membucket numeric.

Lemma wrap64_add a n : wrap64 (wrap64 a + n) = wrap64 (a + n).
Proof.
  unfold wrap64.
  replace ((a + 2 ^ 63) mod 2 ^ 64 - 2 ^ 63 + n + 2 ^ 63)
    with ((a + 2 ^ 63) mod 2 ^ 64 + n) by lia.
  rewrite Z.add_mod_idemp_l by lia.
  by replace (a + 2 ^ 63 + n) with (a + n + 2 ^ 63) by lia.
Qed.

Lemma wrap64_small a : - 2 ^ 63 <= a < 2 ^ 63 -> wrap64 a = a.
Proof. intros Ha. unfold wrap64. rewrite Z.mod_small; lia. Qed.

Lemma size_loop_sum (l : list (string * Stored)) acc :
  fold_left
    (fun totalSize obj =>
       match s3.Size obj with
       | Some n => wrap64 (totalSize + n)
       | None => totalSize
       end) (to_object <$> l) (wrap64 acc)
  = wrap64 (acc + Z.of_nat (sum_list_with (fun kv => String.length (body kv.2)) l)).
Proof.
  revert acc. induction l as [| kv l IH]; intros acc.
  - cbn. f_equal. lia.
  - cbn [fmap list_fmap fold_left to_object s3.Size sum_list_with].
    rewrite wrap64_add, IH. f_equal. lia.
Qed.

Lemma HasPrefix_empty s : strings.HasPrefix s "" = true.
Proof. by destruct s. Qed.

Lemma CalculateBucketSize_membucket pagesize fuel (b : Bucket) :
  (1 <= pagesize)%nat -> (size b < fuel)%nat ->
  CalculateBucketSize (client pagesize) fuel b
  = Some (inr (wrap64 (Z.of_nat (stores.total_bytes b)))).
Proof.
  intros Hn Hfuel. unfold CalculateBucketSize.
  rewrite ListAllObjects_membucket by done.
  do 2 f_equal. unfold objects_under.
  change 0 with (wrap64 0) at 1. rewrite size_loop_sum. f_equal.
  rewrite Z.add_0_l. f_equal. unfold stores.total_bytes.
  rewrite entries_under_Permutation.
  generalize (map_to_list b). intros l.
  induction l as [| kv l IH]; [done |].
  rewrite filter_cons_True by apply HasPrefix_empty.
  cbn [sum_list_with]. by rewrite IH.
Qed.

End BucketSize.

(** X5. [ObjectStore.CalculateBucketSize] adds up the sizes of all the
    objects of the bucket, whatever the page size of the store: on a
    bucket of less than 2^63 bytes the result is the number of bytes it
    holds, and beyond the sum wraps around as an [int64] does. *)
Theorem X5_bucket_size_is_sum_of_sizes :
  forall (pagesize fuel : nat) (b : membucket.Bucket),
    (1 <= pagesize)%nat -> (size b < fuel)%nat ->
    storage.CalculateBucketSize (membucket.client pagesize) fuel b
    = Some (inr (numeric.wrap64 (Z.of_nat (stores.total_bytes b))))
    /\ (Z.of_nat (stores.total_bytes b) < 2 ^ 63 ->
        storage.CalculateBucketSize (membucket.client pagesize) fuel b
        = Some (inr (Z.of_nat (stores.total_bytes b)))).
Proof.
  intros pagesize fuel b Hn Hfuel.
  rewrite CalculateBucketSize_membucket by done.
  split; [done |]. intros Hsmall. rewrite wrap64_small; [done | lia].
Qed.

Lemma X5_bucket_size_is_sum_of_sizes_witness :
  storage.CalculateBucketSize (membucket.client 2) 4 samples.folder_a
  = Some (inr 5).
Proof.
  destruct (X5_bucket_size_is_sum_of_sizes 2 4 samples.folder_a) as [_ H];
    [lia | vm_compute; lia | ].
  rewrite H; [done | vm_compute; done].
Defined.

(** ** Delete and rename on the in-memory bucket *)

Section Recursive.

Import membucket.

Lemma elem_of_objects_keys prefix (b : Bucket) k :
  k ∈ service.keys_of (objects_under prefix b)
  <-> is_Some (b !! k) /\ strings.HasPrefix k prefix = true.
Proof.
  rewrite elem_of_keys_of. unfold objects_under.
  setoid_rewrite list_elem_of_fmap. split.
  - intros (obj & ([k' v] & -> & Hin) & Hkey). cbn in Hkey. injection Hkey as ->.
    apply elem_of_entries_under in Hin as [Hk Hp]. split; [by eexists | done].
  - intros [[v Hv] Hp]. exists (to_object (k, v)). split; [| done].
    exists (k, v). split; [done |]. by apply elem_of_entries_under.
Qed.

Lemma DeleteObjects_expand_spec pagesize fuel keys acc (b : Bucket) :
  (1 <= pagesize)%nat -> (size b < fuel)%nat ->
  service.DeleteObjects_expand (client pagesize) fuel keys acc b
  = Some (inr (acc ++
                 keys ≫= (fun key =>
                   if strings.HasSuffix key "/"
                   then service.keys_of (objects_under key b) ++ [key]
                   else [key]))).
Proof.
  intros Hn Hfuel. revert acc.
  induction keys as [| key keys IH]; intros acc;
    cbn [service.DeleteObjects_expand mbind list_bind].
  - by rewrite app_nil_r.
  - destruct (strings.HasSuffix key "/").
    + rewrite ListAllObjects_membucket by done. rewrite IH.
      by rewrite <- !app_assoc.
    + rewrite IH. by rewrite <- !app_assoc.
Qed.

Lemma HasPrefix_comparable k p q :
  strings.HasPrefix k p = true -> strings.HasPrefix k q = true ->
  strings.HasPrefix p q = true \/ strings.HasPrefix q p = true.
Proof.
  revert k q. induction p as [| c p IH]; intros k q Hp Hq.
  - right. by destruct q.
  - destruct q as [| d q]; [by left |].
    destruct k as [| e k]; [done |].
    cbn [strings.HasPrefix] in *.
    destruct (Ascii.eqb_spec c e) as [-> | ?]; [| done].
    destruct (Ascii.eqb_spec d e) as [-> | ?]; [| done].
    rewrite Ascii.eqb_refl. by apply (IH k).
Qed.

Lemma Replace1_prefix s old new :
  strings.HasPrefix s old = true ->
  strings.Replace1 s old new = new +:+ strings.drop (String.length old) s.
Proof. intros H. destruct s; cbn [strings.Replace1]; by rewrite H. Qed.

Lemma append_inj_l p a b : p +:+ a = p +:+ b -> a = b.
Proof.
  induction p as [| c p IH]; cbn [String.append]; [done |].
  intros [= H]. by apply IH.
Qed.

Section FolderCopy.

Variables (pagesize : nat) (src dst : string).
Hypothesis Hsd : strings.HasPrefix src dst = false.
Hypothesis Hds : strings.HasPrefix dst src = false.

Let target (k : string) : string :=
  dst +:+ strings.drop (String.length src) k.

Let copies (st : Bucket) (l : list (string * Stored)) : Bucket :=
  foldl (fun m kv => <[target kv.1 := kv.2]> m) st l.

Lemma target_outside k : strings.HasPrefix (target k) src = false.
Proof.
  apply not_true_is_false. intros H.
  destruct (HasPrefix_comparable (target k) src dst H (HasPrefix_app _ _));
    congruence.
Qed.

Lemma RenameObject_copy_membucket (l : list (string * Stored)) (st : Bucket) :
  (forall k v, (k, v) ∈ l ->
     st !! k = Some v /\ strings.HasPrefix k src = true) ->
  service.RenameObject_copy (client pagesize) (to_object <$> l) src dst st
  = (copies st l, None).
Proof.
  revert st. induction l as [| [k v] l IH]; intros st Hl; [done |].
  cbn [fmap list_fmap service.RenameObject_copy to_object s3.Key fst].
  destruct (Hl k v) as [Hk Hp]; [apply list_elem_of_here |].
  rewrite (Replace1_prefix _ _ _ Hp). fold (target k).
  unfold storage.CopyObject. cbn [s3.CopyObject client].
  destruct (String.eqb_spec k (target k)) as [Heq | Hne].
  { pose proof (target_outside k) as Hout. rewrite <- Heq in Hout. congruence. }
  rewrite Hk. cbn [copies foldl fst snd].
  change (list_fmap _ _ to_object l) with (to_object <$> l).
  rewrite IH; [done |].
  intros k' v' Hin. destruct (Hl k' v') as [Hk' Hp'];
    [by apply list_elem_of_further |].
  split; [| done]. rewrite lookup_insert_ne; [done |].
  intros <-. pose proof (target_outside k). congruence.
Qed.

Lemma copies_snoc st l kv :
  copies st (l ++ [kv]) = <[target kv.1 := kv.2]> (copies st l).
Proof. unfold copies. by rewrite foldl_app. Qed.

Lemma copies_frame st l q :
  strings.HasPrefix q dst = false -> copies st l !! q = st !! q.
Proof.
  intros Hq. induction l as [| kv l IH] using rev_ind; [done |].
  rewrite copies_snoc, lookup_insert_ne; [done |].
  intros <-. unfold target in Hq. by rewrite HasPrefix_app in Hq.
Qed.

Lemma target_inj k rel :
  strings.HasPrefix k src = true -> target k = dst +:+ rel -> k = src +:+ rel.
Proof.
  intros Hp Ht. apply append_inj_l in Ht. rewrite <- Ht.
  by apply HasPrefix_inv.
Qed.

Lemma copies_copied st l rel v :
  (forall k w, (k, w) ∈ l -> strings.HasPrefix k src = true) ->
  (forall k v1 v2, (k, v1) ∈ l -> (k, v2) ∈ l -> v1 = v2) ->
  (src +:+ rel, v) ∈ l ->
  copies st l !! (dst +:+ rel) = Some v.
Proof.
  induction l as [| [k w] l IH] using rev_ind; intros Hp Hfun Hin.
  { by apply elem_of_nil in Hin. }
  rewrite copies_snoc. cbn [fst snd].
  destruct (decide (target k = dst +:+ rel)) as [Heq | Hne].
  - rewrite Heq, lookup_insert_eq. f_equal.
    apply target_inj in Heq; [| apply (Hp k w); set_solver].
    subst k. apply (Hfun (src +:+ rel)); set_solver.
  - rewrite lookup_insert_ne by done.
    apply IH.
    + intros k' w' Hin'. apply (Hp k' w'). set_solver.
    + intros k' v1 v2 H1 H2. apply (Hfun k'); set_solver.
    + apply elem_of_app in Hin as [Hin | Hin%list_elem_of_singleton]; [done |].
      injection Hin as <- <-. exfalso. apply Hne. unfold target.
      by rewrite drop_app.
Qed.

Lemma copies_not_copied st l rel :
  (forall k w, (k, w) ∈ l -> strings.HasPrefix k src = true) ->
  (forall v, (src +:+ rel, v) ∉ l) ->
  copies st l !! (dst +:+ rel) = st !! (dst +:+ rel).
Proof.
  induction l as [| [k w] l IH] using rev_ind; intros Hp Hnone; [done |].
  rewrite copies_snoc. cbn [fst snd].
  rewrite lookup_insert_ne.
  - apply IH.
    + intros k' w' Hin'. apply (Hp k' w'). set_solver.
    + intros v Hin. apply (Hnone v). set_solver.
  - intros Heq. apply target_inj in Heq; [| apply (Hp k w); set_solver].
    subst k. apply (Hnone w). set_solver.
Qed.

Lemma RenameObject_folder_membucket fuel (b : Bucket) m :
  (1 <= pagesize)%nat -> (size b < fuel)%nat ->
  strings.HasSuffix src "/" = true ->
  b !! src = Some m ->
  service.RenameObject (client pagesize) fuel src dst b
  = Some (delete src (<[dst := m]> (copies b (entries_under src b))),
          ({| service.Success := true;
              service.Message := "Object renamed successfully" |}, None)).
Proof.
  intros Hn Hfuel Hfolder Hm. unfold service.RenameObject.
  rewrite Hfolder, ListAllObjects_membucket by done.
  unfold objects_under. rewrite RenameObject_copy_membucket.
  2: { intros k v Hin. by apply elem_of_entries_under in Hin. }
  unfold storage.CopyObject. cbn [s3.CopyObject client].
  destruct (String.eqb_spec src dst) as [Heq | Hne].
  { rewrite Heq, HasPrefix_refl in Hsd. done. }
  rewrite copies_frame, Hm by done.
  by rewrite DeleteObjects_membucket_one.
Qed.

End FolderCopy.

End Recursive.

(** The delete of the service removes the requested keys and whatever
    lies under a requested folder key, and nothing else. *)
Lemma DeleteObjects_recursive (pagesize fuel : nat) (b : membucket.Bucket)
    (keys : list string) :
  (1 <= pagesize)%nat -> (size b < fuel)%nat ->
  exists b',
    service.DeleteObjects (membucket.client pagesize) fuel keys b
    = Some (b', ({| service.Deleted := keys; service.Failed := [] |}, None))
    /\ (forall key k,
          key ∈ keys ->
          k = key \/ (strings.HasSuffix key "/" = true
                      /\ strings.HasPrefix k key = true) ->
          b' !! k = None)
    /\ (forall k,
          (forall key, key ∈ keys ->
             k <> key /\ (strings.HasSuffix key "/" = true ->
                          strings.HasPrefix k key = false)) ->
          b' !! k = b !! k)
    /\ b' ⊆ b.
Proof.
  intros Hn Hfuel.
  unfold service.DeleteObjects.
  rewrite DeleteObjects_expand_spec by done. cbn [app].
  set (all := keys ≫= _).
  assert (forall k, k ∈ all <->
            exists key, key ∈ keys
              /\ (k = key \/ (strings.HasSuffix key "/" = true
                              /\ strings.HasPrefix k key = true
                              /\ is_Some (b !! k)))) as Hall.
  { intros k. subst all. rewrite list_elem_of_bind. split.
    - intros (key & Hk & Hkey). exists key. split; [done |].
      destruct (strings.HasSuffix key "/"); [| set_solver].
      apply elem_of_app in Hk as [Hk | Hk%list_elem_of_singleton]; [| by left].
      apply elem_of_objects_keys in Hk as [? ?]. by right.
    - intros (key & Hkey & Hk). exists key. split; [| done].
      destruct Hk as [-> | (Hf & Hp & Hs)].
      + destruct (strings.HasSuffix key "/"); set_solver.
      + rewrite Hf. apply elem_of_app. left. by apply elem_of_objects_keys. }
  assert (exists b',
    match all with
    | [] => Some (b, ({| service.Deleted := []; service.Failed := [] |}, None))
    | _ :: _ =>
        match storage.DeleteObjects (membucket.client pagesize) all b with
        | (st', Some err) =>
            Some (st', ({| service.Deleted := []; service.Failed := keys |},
                        Some err))
        | (st', None) =>
            Some (st', ({| service.Deleted := keys; service.Failed := [] |},
                        None))
        end
    end = Some (b', ({| service.Deleted := keys; service.Failed := [] |}, None))
    /\ forall k, b' !! k = if decide (k ∈ all) then None else b !! k)
    as (b' & -> & Hb').
  { destruct all as [| a all'] eqn:Eall.
    - exists b. split.
      + destruct keys as [| key keys']; [done |].
        exfalso. apply (not_elem_of_nil key), Hall.
        exists key. split; [apply list_elem_of_here | by left].
      + intros k. by rewrite decide_False by apply not_elem_of_nil.
    - destruct (DeleteObjects_membucket pagesize (a :: all') b) as [Herr Hlook].
      destruct (storage.DeleteObjects (membucket.client pagesize) (a :: all') b)
        as [st' err]. cbn [fst snd] in *. subst err. by exists st'. }
  exists b'. split; [done |]. split; [| split].
  - intros key k Hkey Hk. rewrite Hb'.
    destruct (decide (k ∈ all)) as [_ | Hnot]; [done |].
    destruct (b !! k) as [v |] eqn:Hv; [| done].
    exfalso. apply Hnot, Hall. exists key. split; [done |].
    destruct Hk as [-> | [Hf Hp]]; [by left | right].
    repeat split; try done; by eexists.
  - intros k Hk. rewrite Hb'.
    destruct (decide (k ∈ all)) as [Hin | _]; [| done].
    apply Hall in Hin as (key & Hkey & Hin).
    destruct (Hk key Hkey) as [Hne Hout].
    destruct Hin as [-> | (Hf & Hp & _)]; [done |].
    rewrite (Hout Hf) in Hp. done.
  - apply map_subseteq_spec. intros k v. rewrite Hb'.
    by destruct (decide (k ∈ all)).
Qed.

(** X6. [BucketService.DeleteObjects] is recursive for folders: on a
    bucket it can list, it reports every requested key as deleted, and
    afterwards no requested key and no key under a requested folder key
    is left, while every other key holds what it held. *)
Theorem X6_delete_removes_folder_contents :
  forall (pagesize fuel : nat) (b : membucket.Bucket) (keys : list string),
    (1 <= pagesize)%nat -> (size b < fuel)%nat ->
    exists b',
      service.DeleteObjects (membucket.client pagesize) fuel keys b
      = Some (b', ({| service.Deleted := keys; service.Failed := [] |}, None))
      /\ (forall key k,
            key ∈ keys ->
            k = key \/ (strings.HasSuffix key "/" = true
                        /\ strings.HasPrefix k key = true) ->
            b' !! k = None)
      /\ (forall k,
            (forall key, key ∈ keys ->
               k <> key /\ (strings.HasSuffix key "/" = true ->
                            strings.HasPrefix k key = false)) ->
            b' !! k = b !! k).
Proof.
  intros pagesize fuel b keys Hn Hfuel.
  destruct (DeleteObjects_recursive pagesize fuel b keys Hn Hfuel)
    as (b' & Hrun & Hgone & Hkept & _).
  by exists b'.
Qed.

Lemma X6_delete_removes_folder_contents_witness :
  exists b',
    service.DeleteObjects (membucket.client 2) 4 ["a/"] samples.folder_a
    = Some (b', ({| service.Deleted := ["a/"]; service.Failed := [] |}, None))
    /\ b' !! "a/y/z" = None.
Proof.
  destruct (X6_delete_removes_folder_contents 2 4 samples.folder_a ["a/"])
    as (b' & Hrun & Hgone & _); [lia | vm_compute; lia |].
  exists b'. split; [exact Hrun |].
  apply (Hgone "a/" "a/y/z").
  - apply list_elem_of_here.
  - right. split; by vm_compute.
Defined.

(** X7. [BucketService.RenameObject] moves a file: when the source key
    exists and the destination is another key, the destination holds
    afterwards what the source held, the source key is gone and no other
    key is touched. *)
Theorem X7_rename_file_moves_object :
  forall (pagesize fuel : nat) (b : membucket.Bucket) (sourceKey destinationKey : string)
         (v : membucket.Stored),
    strings.HasSuffix sourceKey "/" = false ->
    sourceKey <> destinationKey ->
    b !! sourceKey = Some v ->
    exists b',
      service.RenameObject (membucket.client pagesize) fuel sourceKey
        destinationKey b
      = Some (b', ({| service.Success := true;
                      service.Message := "Object renamed successfully" |}, None))
      /\ b' !! destinationKey = Some v
      /\ b' !! sourceKey = None
      /\ (forall k, k <> sourceKey -> k <> destinationKey -> b' !! k = b !! k).
Proof.
  intros pagesize fuel b src dst v Hfile Hne Hv.
  exists (delete src (<[dst := v]> b)).
  unfold service.RenameObject. rewrite Hfile.
  unfold storage.CopyObject. cbn [s3.CopyObject membucket.client].
  destruct (String.eqb_spec src dst); [done |]. rewrite Hv.
  rewrite DeleteObjects_membucket_one. split; [done |].
  split; [by rewrite lookup_delete_ne, lookup_insert_eq |].
  split; [by rewrite lookup_delete_eq |].
  intros k Hk1 Hk2. by rewrite lookup_delete_ne, lookup_insert_ne.
Qed.

Lemma X7_rename_file_moves_object_witness :
  exists b',
    service.RenameObject (membucket.client 1000) 0 "a/x" "a/w" samples.folder_a
    = Some (b', ({| service.Success := true;
                    service.Message := "Object renamed successfully" |}, None))
    /\ b' !! "a/w" = Some (samples.obj "xx" 2)
    /\ b' !! "a/x" = None
    /\ (forall k, k <> "a/x" -> k <> "a/w" -> b' !! k = samples.folder_a !! k).
Proof.
  apply (X7_rename_file_moves_object 1000 0 samples.folder_a "a/x" "a/w"
           (samples.obj "xx" 2));
    [by vm_compute | discriminate | by vm_compute].
Defined.

(** X8. A file rename that cannot copy changes nothing: renaming a key
    that does not exist, or a key onto itself, fails with the store's
    error and leaves the bucket as it was; in particular a rename onto
    itself does not lose the object. *)
Theorem X8_failed_file_rename_keeps_bucket :
  forall (pagesize fuel : nat) (b : membucket.Bucket) (sourceKey destinationKey : string),
    strings.HasSuffix sourceKey "/" = false ->
    sourceKey = destinationKey \/ b !! sourceKey = None ->
    exists err,
      service.RenameObject (membucket.client pagesize) fuel sourceKey
        destinationKey b
      = Some (b, ({| service.Success := false;
                     service.Message := "failed to copy object: " +:+ err |},
                  Some err)).
Proof.
  intros pagesize fuel b src dst Hfile Hcase.
  unfold service.RenameObject. rewrite Hfile.
  unfold storage.CopyObject. cbn [s3.CopyObject membucket.client].
  destruct (String.eqb_spec src dst) as [Heq | Hne]; [by eexists |].
  destruct Hcase as [? | ->]; [done | by eexists].
Qed.

Lemma X8_failed_file_rename_keeps_bucket_witness :
  exists err,
    service.RenameObject (membucket.client 1000) 0 "a/x" "a/x" samples.folder_a
    = Some (samples.folder_a,
            ({| service.Success := false;
                service.Message := "failed to copy object: " +:+ err |},
             Some err)).
Proof.
  apply (X8_failed_file_rename_keeps_bucket 1000 0 samples.folder_a "a/x" "a/x");
    [by vm_compute | by left].
Defined.

(** X9. A folder rename copies the whole folder: when neither folder key
    is a prefix of the other and the source marker exists, every object
    under the source is afterwards also found under the destination, at
    the same relative path and with the same content; the source marker
    is gone; a key under the destination that has no counterpart under
    the source, and every key outside the destination other than the
    source marker, holds what it held. *)
Theorem X9_rename_folder_copies_every_descendant :
  forall (pagesize fuel : nat) (b : membucket.Bucket) (sourceKey destinationKey : string)
         (m : membucket.Stored),
    (1 <= pagesize)%nat -> (size b < fuel)%nat ->
    strings.HasSuffix sourceKey "/" = true ->
    strings.HasPrefix sourceKey destinationKey = false ->
    strings.HasPrefix destinationKey sourceKey = false ->
    b !! sourceKey = Some m ->
    exists b',
      service.RenameObject (membucket.client pagesize) fuel sourceKey
        destinationKey b
      = Some (b', ({| service.Success := true;
                      service.Message := "Object renamed successfully" |}, None))
      /\ (forall rel v,
            b !! (sourceKey +:+ rel) = Some v ->
            b' !! (destinationKey +:+ rel) = Some v)
      /\ b' !! sourceKey = None
      /\ (forall rel,
            b !! (sourceKey +:+ rel) = None ->
            b' !! (destinationKey +:+ rel) = b !! (destinationKey +:+ rel))
      /\ (forall k,
            strings.HasPrefix k destinationKey = false -> k <> sourceKey ->
            b' !! k = b !! k).
Proof.
  intros pagesize fuel b src dst m Hn Hfuel Hfolder Hsd Hds Hm.
  rewrite (RenameObject_folder_membucket pagesize src dst Hsd Hds fuel b m)
    by done.
  eexists. split; [done |].
  assert (forall rel, dst +:+ rel <> src) as Hout.
  { intros rel Heq. rewrite <- Heq, HasPrefix_app in Hsd. done. }
  assert (forall k w, (k, w) ∈ membucket.entries_under src b ->
                      strings.HasPrefix k src = true) as Hp.
  { intros k w Hin. by apply elem_of_entries_under in Hin as [_ ?]. }
  split; [| split; [| split]].
  - intros rel v Hv. rewrite lookup_delete_ne by (symmetry; apply Hout).
    destruct (decide (dst = dst +:+ rel)) as [Heq | Hne].
    + rewrite <- Heq, lookup_insert_eq.
      rewrite <- (append_nil_r dst) in Heq at 1.
      apply append_inj_l in Heq. subst rel.
      rewrite append_nil_r in Hv. congruence.
    + rewrite lookup_insert_ne by done.
      apply (copies_copied src dst); try done.
      * intros k v1 v2 H1 H2.
        apply elem_of_entries_under in H1 as [H1 _].
        apply elem_of_entries_under in H2 as [H2 _]. congruence.
      * apply elem_of_entries_under. split; [done | apply HasPrefix_app].
  - by rewrite lookup_delete_eq.
  - intros rel Hnone. rewrite lookup_delete_ne by (symmetry; apply Hout).
    rewrite lookup_insert_ne.
    + apply (copies_not_copied src dst); try done.
      intros v Hin. apply elem_of_entries_under in Hin as [Hin _]. congruence.
    + intros Heq. rewrite <- (append_nil_r dst) in Heq at 1.
      apply append_inj_l in Heq. subst rel.
      rewrite append_nil_r in Hnone. congruence.
  - intros k Hk Hne. rewrite lookup_delete_ne by done.
    rewrite lookup_insert_ne.
    + by apply copies_frame.
    + intros <-. by rewrite HasPrefix_refl in Hk.
Qed.

Lemma X9_rename_folder_copies_every_descendant_witness :
  exists b',
    service.RenameObject (membucket.client 2) 4 "a/" "b/" samples.folder_a
    = Some (b', ({| service.Success := true;
                    service.Message := "Object renamed successfully" |}, None))
    /\ b' !! "b/y/z" = Some (samples.obj "zzz" 3).
Proof.
  destruct (X9_rename_folder_copies_every_descendant 2 4 samples.folder_a
              "a/" "b/" (samples.obj "" 1))
    as (b' & Hrun & Hcopied & _);
    [lia | vm_compute; lia | by vm_compute | by vm_compute | by vm_compute
    | by vm_compute |].
  exists b'. split; [exact Hrun |].
  apply (Hcopied "y/z"). by vm_compute.
Defined.

(** ** Presigned URLs: the method and the lifetime *)

Section Case.

Import strings.

Lemma upper_lower_ascii c : upper_ascii (lower_ascii c) = upper_ascii c.
Proof. destruct c as [[] [] [] [] [] [] [] []]; by vm_compute. Qed.

Lemma lower_upper_ascii c : lower_ascii (upper_ascii c) = lower_ascii c.
Proof. destruct c as [[] [] [] [] [] [] [] []]; by vm_compute. Qed.

Lemma ToUpper_ToLower s : ToUpper (ToLower s) = ToUpper s.
Proof.
  unfold ToUpper, ToLower.
  induction s as [| c s IH]; cbn [map_bytes]; [done |].
  by rewrite upper_lower_ascii, IH.
Qed.

Lemma ToLower_ToUpper s : ToLower (ToUpper s) = ToLower s.
Proof.
  unfold ToUpper, ToLower.
  induction s as [| c s IH]; cbn [map_bytes]; [done |].
  by rewrite lower_upper_ascii, IH.
Qed.

(** Texts that are equal without regard to case have the same upper-case
    form. *)
Lemma ToLower_eq_ToUpper s t : ToLower s = ToLower t -> ToUpper s = ToUpper t.
Proof.
  intros H. by rewrite <- (ToUpper_ToLower s), H, ToUpper_ToLower.
Qed.

End Case.

(** X10. [ObjectStore.PresignObject] reads a method that is ASCII text
    without regard to case: requests whose methods are ASCII text and
    differ only in case get the same answer; a signed answer names the
    method as [GET] or [PUT], the request's method in upper case; and any
    method other than these two is refused with an error that names it in
    upper case, whatever the presign client would have answered. *)
Theorem X10_presign_reads_method_without_case :
  forall (PresignPutObject : string -> string -> option string -> Z -> s3.error + string)
         (PresignGetObject : string -> string -> Z -> s3.error + string)
         (input : storage.PresignInput),
    strings.is_ascii (storage.Method input) = true ->
    (forall method : string,
        strings.is_ascii method = true ->
        strings.ToLower method = strings.ToLower (storage.Method input) ->
        storage.PresignObject PresignPutObject PresignGetObject
          {| storage.Bucket := storage.Bucket input;
             storage.Key := storage.Key input;
             storage.Method := method;
             storage.ExpiresIn := storage.ExpiresIn input;
             storage.ContentType := storage.ContentType input |}
        = storage.PresignObject PresignPutObject PresignGetObject input)
    /\ (forall out,
          storage.PresignObject PresignPutObject PresignGetObject input = inr out ->
          storage.Method_signed out = strings.ToUpper (storage.Method input)
          /\ (storage.Method_signed out = "GET"
              \/ storage.Method_signed out = "PUT"))
    /\ (strings.ToLower (storage.Method input) <> "get" ->
        strings.ToLower (storage.Method input) <> "put" ->
        storage.PresignObject PresignPutObject PresignGetObject input
        = inl ("unsupported method " +:+ strings.ToUpper (storage.Method input))).
Proof.
  intros Put Get input _. split; [| split].
  - intros method _ Hm. apply ToLower_eq_ToUpper in Hm.
    unfold storage.PresignObject.
    cbn [storage.Bucket storage.Key storage.Method storage.ExpiresIn
         storage.ContentType].
    by rewrite Hm.
  - intros out. unfold storage.PresignObject.
    destruct (String.eqb_spec (strings.ToUpper (storage.Method input)) "PUT")
      as [-> | _].
    { destruct (Put _ _ _ _); intros [= <-]. cbn. by split; [| right]. }
    destruct (String.eqb_spec (strings.ToUpper (storage.Method input)) "GET")
      as [-> | _]; [| done].
    destruct (Get _ _ _); intros [= <-]. cbn. by split; [| left].
  - intros Hget Hput. unfold storage.PresignObject.
    destruct (String.eqb_spec (strings.ToUpper (storage.Method input)) "PUT")
      as [Heq | _].
    { exfalso. apply Hput. by rewrite <- ToLower_ToUpper, Heq. }
    destruct (String.eqb_spec (strings.ToUpper (storage.Method input)) "GET")
      as [Heq | _]; [| done].
    exfalso. apply Hget. by rewrite <- ToLower_ToUpper, Heq.
Qed.

Lemma X10_presign_reads_method_without_case_witness :
  strings.is_ascii "Delete" = true
  /\ storage.PresignObject samples.sign_put samples.sign_get
       {| storage.Bucket := "photos"; storage.Key := "a/x";
          storage.Method := "Delete"; storage.ExpiresIn := 60 * storage.Second;
          storage.ContentType := None |}
     = inl "unsupported method DELETE".
Proof.
  split; [done |].
  apply (proj2 (proj2 (X10_presign_reads_method_without_case
                         samples.sign_put samples.sign_get
                         {| storage.Bucket := "photos"; storage.Key := "a/x";
                            storage.Method := "Delete";
                            storage.ExpiresIn := 60 * storage.Second;
                            storage.ContentType := None |} eq_refl)));
    by vm_compute.
Defined.

(** X11. The lifetime a client asks for reaches the presign client
    unchanged: for [expiresInSeconds] between 1 and 9223372036 the handler,
    the service and the adapter sign a [GET] for exactly that many seconds
    and report the expiry that many seconds from now. From 9223372037 to
    18446744073 seconds the product with [time.Second] overflows to a
    negative [Duration], so the URL is signed for the default 15 minutes
    while the reported expiry lies in the past. *)
Theorem X11_presign_lifetime_end_to_end :
  forall (PresignPutObject : string -> string -> option string -> Z -> s3.error + string)
         (PresignGetObject : string -> string -> Z -> s3.error + string)
         (unix_after : Z -> Z) (bucketName : string)
         (req : handlers.PresignRequest) (seconds : Z),
    handlers.req_Expires req = Some seconds ->
    strings.ToUpper (handlers.req_Method req) = "GET" ->
    (0 < seconds <= 9223372036 ->
     service.PresignObject PresignPutObject PresignGetObject unix_after
       bucketName (handlers.presign_input req)
     = match PresignGetObject bucketName (handlers.req_Key req)
               (seconds * storage.Second) with
       | inl err => inl err
       | inr url =>
           inr {| service.URL := url;
                  service.Expires := unix_after (seconds * storage.Second) |}
       end)
    /\ (9223372036 < seconds <= 18446744073 ->
        seconds * storage.Second - 2 ^ 64 < 0
        /\ service.PresignObject PresignPutObject PresignGetObject unix_after
             bucketName (handlers.presign_input req)
           = match PresignGetObject bucketName (handlers.req_Key req)
                     (15 * storage.Minute) with
             | inl err => inl err
             | inr url =>
                 inr {| service.URL := url;
                        service.Expires :=
                          unix_after (seconds * storage.Second - 2 ^ 64) |}
             end).
Proof.
  intros Put Get unix_after bucketName req seconds Hreq Hget.
  unfold service.PresignObject, storage.PresignObject, handlers.presign_input,
    handlers.presign_expires.
  cbn [service.pi_Key service.pi_Method service.pi_Expires
       service.pi_ContentType storage.Bucket storage.Key storage.Method
       storage.ExpiresIn storage.ContentType].
  rewrite Hreq, Hget.
  change (String.eqb "GET" "PUT") with false.
  change (String.eqb "GET" "GET") with true. cbn match.
  unfold storage.Second, storage.Minute, numeric.wrap64.
  split.
  - intros Hs.
    replace ((seconds * 1000000000 + 2 ^ 63) mod 2 ^ 64 - 2 ^ 63)
      with (seconds * 1000000000) by (rewrite Z.mod_small; lia).
    destruct (Z.leb_spec (seconds * 1000000000) 0) as [Hle | _]; [lia |].
    by destruct (Get _ _ _).
  - intros Hs. split; [lia |].
    replace ((seconds * 1000000000 + 2 ^ 63) mod 2 ^ 64 - 2 ^ 63)
      with (seconds * 1000000000 - 2 ^ 64).
    2: { rewrite <- (Z.mod_add _ (-1) (2 ^ 64)) by lia.
         rewrite Z.mod_small; lia. }
    destruct (Z.leb_spec (seconds * 1000000000 - 2 ^ 64) 0) as [_ | Hgt]; [| lia].
    by destruct (Get _ _ _).
Qed.

Lemma X11_presign_lifetime_end_to_end_witness :
  service.PresignObject samples.sign_put samples.sign_get (fun d => 1700000000 + d / storage.Second)
    "photos"
    {| service.pi_Key := "a/x"; service.pi_Method := "get";
       service.pi_Expires := 3600 * storage.Second;
       service.pi_ContentType := None |}
  = inr {| service.URL := "https://s3.test/photos/a/x?X-Amz-Expires=3600";
           service.Expires := 1700003600 |}.
Proof.
  exact (proj1 (X11_presign_lifetime_end_to_end
                  samples.sign_put samples.sign_get
                  (fun d => 1700000000 + d / storage.Second) "photos"
                  {| handlers.req_Key := "a/x"; handlers.req_Method := "get";
                     handlers.req_Expires := Some 3600;
                     handlers.req_ContentType := None |}
                  3600 eq_refl eq_refl) ltac:(lia)).
Defined.

(** ** Folders: creation and search *)

Section Folders.

Import strings service.

Lemma substring_drop n s : String.substring 0 n s +:+ drop n s = s.
Proof.
  revert s. induction n as [| n IH]; intros s.
  - by destruct s.
  - destruct s as [| c s]; [done |]. cbn [String.substring drop String.append].
    by rewrite IH.
Qed.

Lemma TrimSuffix_inv s suffix :
  HasSuffix s suffix = true -> TrimSuffix s suffix +:+ suffix = s.
Proof.
  intros H. unfold TrimSuffix. rewrite H. unfold HasSuffix in H.
  apply andb_true_iff in H as [_ H]. apply String.eqb_eq in H.
  rewrite <- H at 2. apply substring_drop.
Qed.

(** [CreateFolder] and [ListObjects] normalize the prefix alike. *)
Lemma CreateFolder_key_eq name prefix :
  bucketservice.CreateFolder_key name prefix
  = let base := normalize_prefix (default "" prefix) +:+ name in
    if HasSuffix base "/" then base else base +:+ "/".
Proof.
  unfold bucketservice.CreateFolder_key, normalize_prefix.
  destruct prefix as [p |]; cbn [default from_option]; unfold id.
  - destruct (String.eqb_spec p "") as [-> | Hp]; cbn [negb andb].
    { cbn [String.append]. by destruct (HasSuffix name "/"). }
    destruct (HasSuffix p "/") eqn:Hs; cbn [negb].
    + rewrite <- append_assoc, (TrimSuffix_inv _ _ Hs).
      by destruct (HasSuffix (p +:+ name) "/").
    + unfold TrimSuffix. rewrite Hs, <- append_assoc.
      by destruct (HasSuffix ((p +:+ "/") +:+ name) "/").
  - cbn [String.eqb negb andb String.append].
    by destruct (HasSuffix name "/").
Qed.

Lemma CreateFolder_key_suffix name prefix :
  HasSuffix (bucketservice.CreateFolder_key name prefix) "/" = true.
Proof.
  rewrite CreateFolder_key_eq. cbn zeta.
  destruct (HasSuffix (normalize_prefix (default "" prefix) +:+ name) "/") eqn:E;
    [done | apply HasSuffix_app_byte].
Qed.

Lemma has_byte_first c s : has_byte c s = false -> HasPrefix s (String c "") = false.
Proof.
  destruct s as [| d s]; [done |]. cbn [has_byte HasPrefix].
  rewrite (Ascii.eqb_sym c d). by destruct (Ascii.eqb d c).
Qed.

(** The key of a folder named [name] under the prefix [P] is the folder
    that the projection finds for it. *)
Lemma child_of_folder_key P name :
  name <> "" -> has_byte "/" name = false ->
  child_of P (P +:+ name +:+ "/") = Some (inl (P +:+ name +:+ "/")).
Proof.
  intros Hname Hslash.
  assert (relative_key P (P +:+ name +:+ "/") = Some (name +:+ "/")) as Hrel.
  { unfold relative_key. destruct (String.eqb_spec P "") as [-> | HP]; [done |].
    cbn [negb]. rewrite HasPrefix_app, TrimPrefix_app. cbn [negb].
    destruct name as [| c name]; [done |].
    cbn [String.append HasPrefix has_byte] in *.
    apply orb_false_iff in Hslash as [Hc _].
    rewrite (Ascii.eqb_sym "/" c), Hc. done. }
  unfold child_of. rewrite Hrel.
  destruct (String.eqb_spec (name +:+ "/") "") as [Hempty | _].
  { by apply append_empty_inv in Hempty as [_ ?]. }
  rewrite Contains_byte, has_byte_app. cbn [has_byte].
  rewrite Ascii.eqb_refl, orb_true_r.
  assert ((Cut1 (name +:+ "/") "/").1 = name) as Hcut.
  { rewrite Cut1_app by done. cbn. apply append_nil_r. }
  rewrite folder_prefix_eq by (left; by rewrite Hcut).
  by rewrite Hcut.
Qed.

Context `{sorter : sort.SliceSort}.

(** The entries of a projection, by the listed key they come from. *)
Lemma elem_of_project prefix objects e :
  let P := normalize_prefix prefix in
  e ∈ project prefix objects ->
  (Kind e = "folder"
   /\ exists k, k ∈ keys_of objects /\ child_of P k = Some (inl (Key e)))
  \/ (Kind e = "file"
      /\ exists k name, k ∈ keys_of objects
           /\ child_of P k = Some (inr name) /\ Key e = P +:+ name).
Proof.
  intros P He.
  destruct (project_parts prefix objects)
    as (folders & files & Hproj & Hfk & Hfiles & _ & Hfold & Hfile & _).
  fold P in Hfk, Hfiles.
  destruct (group_inv_group P objects) as [_ Hkeys _ _ Hinv].
  rewrite Hproj in He. apply elem_of_app in He as [He | He].
  - left. split; [by apply (proj1 (Forall_forall _ _) Hfold) |].
    apply Hkeys. unfold sort.Strings in Hfk.
    rewrite <- (merge_sort_Permutation String.le), <- Hfk.
    by apply list_elem_of_fmap_2.
  - right. split; [by apply (proj1 (Forall_forall _ _) Hfile) |].
    apply elem_of_file_keys. rewrite <- Hinv, <- Hfiles.
    by apply list_elem_of_fmap_2.
Qed.

Lemma folder_in_project prefix objects k f :
  k ∈ keys_of objects ->
  child_of (normalize_prefix prefix) k = Some (inl f) ->
  exists e, e ∈ project prefix objects /\ Key e = f /\ Kind e = "folder".
Proof.
  intros Hk Hchild.
  destruct (project_parts prefix objects)
    as (folders & files & Hproj & Hfk & _ & _ & Hfold & _ & _).
  destruct (group_inv_group (normalize_prefix prefix) objects)
    as [_ Hkeys _ _ _].
  assert (f ∈ Key <$> folders) as Hf.
  { rewrite Hfk. unfold sort.Strings. rewrite merge_sort_Permutation.
    apply Hkeys. by exists k. }
  apply list_elem_of_fmap in Hf as (e & -> & He).
  exists e. rewrite Hproj. split; [apply elem_of_app; by left |].
  split; [done |]. by apply (proj1 (Forall_forall _ _) Hfold).
Qed.

Lemma search_loop_filter (query : string) (objects acc : list BucketObject) :
  fold_left
    (fun filtered obj =>
       if Contains (ToLower (Key obj)) query then filtered ++ [obj] else filtered)
    objects acc
  = acc ++ filter (fun obj => Contains (ToLower (Key obj)) query = true) objects.
Proof.
  revert acc. induction objects as [| obj objects IH]; intros acc;
    cbn [fold_left]; [by rewrite app_nil_r |].
  rewrite IH. destruct (Contains (ToLower (Key obj)) query) eqn:E.
  - rewrite filter_cons_True by done. by rewrite <- app_assoc.
  - rewrite filter_cons_False by congruence. done.
Qed.

End Folders.

(** X12. The key that [BucketService.CreateFolder] writes always ends in
    a slash, and it is the name appended to the prefix as
    [BucketService.ListObjects] normalizes it, so a slash at the end of
    the prefix or of the name makes no difference; on a store that takes
    the marker the result carries that key. *)
Theorem X12_create_folder_key :
  forall (now : Z) (name : string) (prefix : option string)
         (b : membucket.Bucket),
    let key := bucketservice.CreateFolder_key name prefix in
    let base := service.normalize_prefix (default "" prefix) +:+ name in
    strings.HasSuffix key "/" = true
    /\ (strings.HasSuffix base "/" = true -> key = base)
    /\ (strings.HasSuffix base "/" = false -> key = base +:+ "/")
    /\ bucketservice.CreateFolder (stores.put_empty now) name prefix b
       = (<[key := {| membucket.body := ""; membucket.mtime := now |}]> b,
          inr {| bucketservice.Key := key |}).
Proof.
  intros now name prefix b key base.
  split; [apply CreateFolder_key_suffix |].
  subst key. rewrite CreateFolder_key_eq. fold base. cbn zeta.
  split; [by intros -> |]. split; [by intros -> |].
  unfold bucketservice.CreateFolder. rewrite CreateFolder_key_eq.
  fold base. done.
Qed.

Lemma X12_create_folder_key_witness :
  bucketservice.CreateFolder_key "docs" (Some "a") = "a/docs/"
  /\ bucketservice.CreateFolder_key "docs/" (Some "a/") = "a/docs/".
Proof.
  split.
  - apply (proj1 (proj2 (proj2 (X12_create_folder_key 0 "docs" (Some "a") ∅)))).
    by vm_compute.
  - apply (proj1 (proj2 (X12_create_folder_key 0 "docs/" (Some "a/") ∅))).
    by vm_compute.
Defined.

(** X13. A folder that was created is listed: after
    [BucketService.CreateFolder] for a non-empty name without a slash,
    [BucketService.ListObjects] of the same prefix has a folder entry
    whose key is the key that [CreateFolder] returned, provided the
    listing fits in one page of the store. *)
Theorem X13_created_folder_is_listed :
  forall (sorter : sort.SliceSort) (pagesize : nat) (now : Z) (name : string)
         (prefix : option string) (b : membucket.Bucket),
    name <> "" -> strings.has_byte "/" name = false ->
    (size b < pagesize)%nat ->
    exists b' key entries e,
      bucketservice.CreateFolder (stores.put_empty now) name prefix b
      = (b', inr {| bucketservice.Key := key |})
      /\ service.ListObjects (membucket.client pagesize) (default "" prefix) b'
         = inr entries
      /\ e ∈ entries /\ service.Key e = key /\ service.Kind e = "folder".
Proof.
  intros sorter pagesize now name prefix b Hname Hslash Hsize.
  set (P := service.normalize_prefix (default "" prefix)).
  assert (bucketservice.CreateFolder_key name prefix = P +:+ name +:+ "/")
    as Hkey.
  { rewrite CreateFolder_key_eq. fold P. cbn zeta.
    rewrite HasSuffix_no_byte by done. apply append_assoc. }
  set (b' := <[P +:+ name +:+ "/" :=
                 {| membucket.body := ""; membucket.mtime := now |}]> b).
  destruct (folder_in_project (default "" prefix)
              (membucket.objects_under P b') (P +:+ name +:+ "/")
              (P +:+ name +:+ "/")) as (e & He & Hk & Hkind).
  { apply elem_of_objects_keys. split; [| apply HasPrefix_app].
    subst b'. rewrite lookup_insert_eq. by eexists. }
  { by apply child_of_folder_key. }
  eexists b', (P +:+ name +:+ "/"), _, e.
  split; [| split; [| done]].
  - unfold bucketservice.CreateFolder. by rewrite Hkey.
  - unfold service.ListObjects. rewrite ListObjects_membucket. fold P.
    rewrite take_ge; [done |].
    pose proof (objects_under_length P b').
    assert (size b' <= S (size b))%nat; [| lia].
    subst b'. rewrite map_size_insert.
    destruct (b !! (P +:+ name +:+ "/")); unfold id; lia.
Qed.

Lemma X13_created_folder_is_listed_witness :
  exists b' key entries e,
    bucketservice.CreateFolder (stores.put_empty 9) "new" (Some "a")
      samples.folder_a
    = (b', inr {| bucketservice.Key := key |})
    /\ service.ListObjects (membucket.client 1000) "a" b' = inr entries
    /\ e ∈ entries /\ service.Key e = key /\ service.Kind e = "folder".
Proof.
  apply (X13_created_folder_is_listed insertion_sorter 1000 9 "new" (Some "a")
           samples.folder_a); [done | by vm_compute | vm_compute; lia].
Defined.

(** X14. [BucketService.SearchObjects] looks at the top level only. For
    a query and listed keys that are ASCII text, its result is the
    listing of the root prefix, in the same order, cut down to the entries
    whose key contains the query without regard to case; so every entry
    found is a top-level file or a top-level folder, never an object
    inside a folder, and the case of the query does not matter. *)
Theorem X14_search_is_top_level_only :
  forall (sorter : sort.SliceSort) (St Token : Type)
         (store : s3.Client St Token) (query : string) (st : St)
         (found : list service.BucketObject),
    strings.is_ascii query = true ->
    (forall listing,
        service.ListObjects store "" st = inr listing ->
        Forall (fun e => strings.is_ascii (service.Key e) = true) listing) ->
    bucketservice.SearchObjects store query st = inr found ->
    (exists listing,
        service.ListObjects store "" st = inr listing
        /\ found `sublist_of` listing
        /\ forall e, e ∈ found
             <-> e ∈ listing
                 /\ strings.Contains (strings.ToLower (service.Key e))
                      (strings.ToLower query) = true)
    /\ (forall e, e ∈ found ->
          exists stem,
            strings.has_byte "/" stem = false
            /\ ((service.Kind e = "folder" /\ service.Key e = stem +:+ "/")
                \/ (service.Kind e = "file" /\ service.Key e = stem)))
    /\ bucketservice.SearchObjects store (strings.ToUpper query) st = inr found.
Proof.
  intros sorter St Token store query st found _ _.
  unfold bucketservice.SearchObjects.
  rewrite ToLower_ToUpper.
  destruct (service.ListObjects store "" st) as [err | listing] eqn:Hlist;
    [done |].
  rewrite search_loop_filter. cbn [app]. intros [= <-].
  split; [| split; [| done]].
  - exists listing. split; [done |]. split; [apply sublist_filter |].
    intros e. by rewrite list_elem_of_filter, (comm and).
  - intros e [_ He]%list_elem_of_filter.
    unfold service.ListObjects in Hlist.
    destruct (storage.ListObjects store (service.normalize_prefix "") st)
      as [err | objects]; [done |].
    injection Hlist as <-.
    apply elem_of_project in He. cbn zeta in He.
    change (service.normalize_prefix "") with "" in He.
    destruct He as [[Hkind (k & _ & Hchild)] | [Hkind (k & name & _ & Hchild & Hkey)]].
    + unfold service.child_of, service.relative_key in Hchild.
      cbn [String.eqb negb] in Hchild.
      destruct (String.eqb k ""); [done |].
      destruct (strings.Contains k "/"); [| done].
      injection Hchild as Hf.
      rewrite folder_prefix_eq in Hf by (by right).
      exists (strings.Cut1 k "/").1.
      split; [apply Cut1_head_no_sep |]. left. split; [done |].
      by rewrite <- Hf.
    + unfold service.child_of, service.relative_key in Hchild.
      cbn [String.eqb negb] in Hchild.
      destruct (String.eqb k ""); [done |].
      destruct (strings.Contains k "/") eqn:Hc; [done |].
      injection Hchild as <-.
      exists k. rewrite Contains_byte in Hc. split; [done |]. by right.
Qed.

Lemma X14_search_is_top_level_only_witness :
  (forall listing,
      service.ListObjects (membucket.client 1000) "" samples.folder_a
      = inr listing ->
      Forall (fun e => strings.is_ascii (service.Key e) = true) listing)
  /\ bucketservice.SearchObjects (membucket.client 1000) "Z" samples.folder_a
     = inr []
  /\ bucketservice.SearchObjects (membucket.client 1000) "A" samples.folder_a
     = inr [service.folder_entry "a/" "a"].
Proof.
  assert (forall listing,
             service.ListObjects (membucket.client 1000) "" samples.folder_a
             = inr listing ->
             Forall (fun e => strings.is_ascii (service.Key e) = true) listing)
    as Hascii.
  { intros listing Hlist. vm_compute in Hlist. injection Hlist as <-.
    by repeat constructor. }
  assert (bucketservice.SearchObjects (membucket.client 1000) "z" samples.folder_a
          = inr []) as Hz by (by vm_compute).
  assert (bucketservice.SearchObjects (membucket.client 1000) "a" samples.folder_a
          = inr [service.folder_entry "a/" "a"]) as Ha by (by vm_compute).
  split; [done |]. split.
  - exact (proj2 (proj2 (X14_search_is_top_level_only insertion_sorter _ _
                           (membucket.client 1000) "z" samples.folder_a []
                           eq_refl Hascii Hz))).
  - exact (proj2 (proj2 (X14_search_is_top_level_only insertion_sorter _ _
                           (membucket.client 1000) "a" samples.folder_a _
                           eq_refl Hascii Ha))).
Defined.

Section Metadata.

Import strings bucketservice.

Lemma TrimRight1_last s c : last_byte (TrimRight1 s c) <> Some c.
Proof.
  induction s as [| d s IH]; cbn [TrimRight1]; [done |].
  destruct (TrimRight1 s c) as [| e r] eqn:E.
  - destruct (Ascii.eqb_spec d c) as [-> | Hne]; cbn; congruence.
  - exact IH.
Qed.

Lemma TrimLeft1_first s c : HasPrefix (TrimLeft1 s c) (String c "") = false.
Proof.
  induction s as [| d s IH]; cbn [TrimLeft1]; [done |].
  destruct (Ascii.eqb_spec d c) as [-> | Hne]; [done |].
  cbn [HasPrefix]. destruct (Ascii.eqb_spec c d) as [<- | _]; done.
Qed.

Lemma TrimLeft1_last s c :
  last_byte s <> Some c -> last_byte (TrimLeft1 s c) <> Some c.
Proof.
  induction s as [| d s IH]; cbn [TrimLeft1]; [done |].
  destruct (Ascii.eqb_spec d c) as [-> | Hne]; [| done].
  intros Hlast. apply IH. destruct s; [done |]. exact Hlast.
Qed.

Lemma TrimRight1_app_byte s c : TrimRight1 (s +:+ String c "") c = TrimRight1 s c.
Proof.
  induction s as [| d s IH]; cbn [String.append TrimRight1].
  - by rewrite Ascii.eqb_refl.
  - by rewrite IH.
Qed.

Lemma TrimRight1_id s c : last_byte s <> Some c -> TrimRight1 s c = s.
Proof.
  induction s as [| d s IH]; cbn [TrimRight1]; [done |].
  intros Hlast. destruct s as [| e s].
  - cbn. destruct (Ascii.eqb_spec d c) as [-> | _]; done.
  - rewrite IH by exact Hlast. done.
Qed.

Lemma metadata_copy (m : gmap string string) :
  map_fold (fun k v metadata => <[k := v]> metadata) ∅ m = m.
Proof.
  induction m as [| k v m Hk Hfold IH] using map_first_key_ind; [done |].
  rewrite map_fold_insert_first_key by done. by rewrite IH.
Qed.

End Metadata.

(** X15. [BucketService.GetObjectMetadata] reports the entity tag without
    the quotes that S3 puts around it: the tag it returns neither starts
    nor ends with a quote, a tag of the form ["e"] is reported as [e], and
    a tag without quotes at its ends is reported as it is. A missing
    content type is reported as [application/octet-stream], a missing
    size as 0, and the user metadata are copied as they are. *)
Theorem X15_metadata_unquotes_etag :
  forall (St : Type) (HeadObject : string -> St -> s3.error + bucketservice.HeadObjectOutput)
         (key : string) (st : St) (head : bucketservice.HeadObjectOutput),
    HeadObject key st = inr head ->
    exists m,
      bucketservice.GetObjectMetadata HeadObject key st = inr m
      /\ strings.HasPrefix (bucketservice.om_ETag m) (String "034" "") = false
      /\ strings.HasSuffix (bucketservice.om_ETag m) (String "034" "") = false
      /\ (forall e,
            strings.HasPrefix e (String "034" "") = false ->
            strings.HasSuffix e (String "034" "") = false ->
            (bucketservice.ETag head = Some (String "034" e +:+ String "034" "")
             \/ bucketservice.ETag head = Some e) ->
            bucketservice.om_ETag m = e)
      /\ (bucketservice.ContentType head = None ->
          bucketservice.om_ContentType m = "application/octet-stream")
      /\ (bucketservice.ContentLength head = None -> bucketservice.om_Size m = 0)
      /\ bucketservice.om_Metadata m = bucketservice.Metadata head
      /\ bucketservice.om_Key m = key.
Proof.
  intros St HeadObject key st head Hhead.
  unfold bucketservice.GetObjectMetadata. rewrite Hhead.
  eexists. split; [done |].
  cbn [bucketservice.om_ETag bucketservice.om_ContentType
       bucketservice.om_Size bucketservice.om_Metadata bucketservice.om_Key].
  unfold bucketservice.Trim1.
  split; [apply TrimLeft1_first |].
  split.
  { apply not_true_is_false. intros H. apply HasSuffix_byte in H.
    exact (TrimLeft1_last _ _ (TrimRight1_last _ _) H). }
  split.
  { intros e Hfirst Hlast Hetag.
    assert (strings.last_byte e <> Some "034"%char) as Hl.
    { intros H. apply HasSuffix_byte in H. congruence. }
    assert (strings.TrimLeft1 e "034" = e) as Hleft.
    { destruct e as [| c e]; [done |]. cbn [strings.HasPrefix] in Hfirst.
      cbn [strings.TrimLeft1]. rewrite (Ascii.eqb_sym c "034").
      by destruct (Ascii.eqb "034" c). }
    destruct Hetag as [-> | ->]; cbn [default from_option]; unfold id.
    - rewrite TrimRight1_app_byte.
      destruct e as [| c e]; [by vm_compute |].
      rewrite TrimRight1_id by exact Hl.
      cbn [strings.TrimLeft1]. rewrite Ascii.eqb_refl. exact Hleft.
    - rewrite TrimRight1_id by done. exact Hleft. }
  split; [by intros -> |]. split; [by intros -> |].
  split; [apply metadata_copy | done].
Qed.

Lemma X15_metadata_unquotes_etag_witness :
  exists m,
    bucketservice.GetObjectMetadata
      (fun (key : string) (st : unit) =>
         inr {| bucketservice.ContentLength := Some 2;
                bucketservice.LastModified := None;
                bucketservice.ContentType := None;
                bucketservice.ETag := Some (String "034" "9b2cf5" +:+ String "034" "");
                bucketservice.Metadata := ∅ |}) "a/x" tt
    = inr m
    /\ bucketservice.om_ETag m = "9b2cf5"
    /\ bucketservice.om_ContentType m = "application/octet-stream".
Proof.
  destruct (X15_metadata_unquotes_etag unit
              (fun (key : string) (st : unit) =>
                 inr {| bucketservice.ContentLength := Some 2;
                        bucketservice.LastModified := None;
                        bucketservice.ContentType := None;
                        bucketservice.ETag :=
                          Some (String "034" "9b2cf5" +:+ String "034" "");
                        bucketservice.Metadata := ∅ |})
              "a/x" tt _ eq_refl)
    as (m & Hm & _ & _ & Hetag & Hct & _).
  exists m. split; [exact Hm |].
  split; [apply Hetag; [by vm_compute | by vm_compute | by left] | by apply Hct].
Defined.

(** ** How close [formatByteSize] is *)

Section Accuracy.

Import numeric service.

Lemma round_half_even_error n d :
  0 < d -> 2 * Z.abs (round_half_even n d * d - n) <= d.
Proof.
  intros Hd. unfold round_half_even.
  pose proof (Z.div_mod n d ltac:(lia)) as Hdiv.
  pose proof (Z.mod_pos_bound n d Hd) as Hmod.
  destruct (Z.ltb_spec (2 * (n mod d)) d); [nia |].
  destruct (Z.ltb_spec d (2 * (n mod d))); [nia |].
  destruct (Z.even (n / d)); nia.
Qed.

Lemma formatByteSize_parts bytes :
  0 < bytes < 2 ^ 53 ->
  exists (i : nat) (u : string),
    units !! i = Some u
    /\ formatByteSize bytes
       = sprintf_1f {| mant := bytes; scale := i |} +:+ " " +:+ u
    /\ (i <= 4)%nat
    /\ 1024 ^ Z.of_nat i <= bytes
    /\ ((i < 4)%nat -> bytes < 1024 * 1024 ^ Z.of_nat i).
Proof.
  intros Hb. unfold formatByteSize.
  destruct (Z.leb_spec bytes 0) as [? | _]; [lia |].
  unfold of_int64. rewrite (float64_of_int64_small _ Hb).
  destruct (formatByteSize_loop_spec bytes ltac:(lia))
    as (i & -> & Hi & Hlo & Hhi).
  destruct (unit_some i Hi) as (u & Hu & _).
  exists i, u. rewrite Hu. done.
Qed.

End Accuracy.

(** X16. What [formatByteSize] prints is close to the size: for a size
    below 2^53 bytes the unit is the largest of B, KB, MB, GB, TB that is
    not above the size, the number printed with one decimal is at least
    1.0 and, below the last unit, at most 1024.0, and it differs from the
    size by at most half a tenth of the unit. *)
Theorem X16_formatByteSize_is_within_half_a_tenth :
  forall bytes : Z,
    0 < bytes < 2 ^ 53 ->
    exists (i : nat) (u : string) (t : Z),
      service.units !! i = Some u
      /\ service.formatByteSize bytes
         = (numeric.itoa (t / 10) +:+ "." +:+ numeric.itoa (t mod 10))
           +:+ " " +:+ u
      /\ 1024 ^ Z.of_nat i <= bytes
      /\ ((i < 4)%nat -> bytes < 1024 * 1024 ^ Z.of_nat i)
      /\ 10 <= t
      /\ ((i < 4)%nat -> t <= 10240)
      /\ 2 * Z.abs (t * 1024 ^ Z.of_nat i - 10 * bytes) <= 1024 ^ Z.of_nat i.
Proof.
  intros bytes Hb.
  destruct (formatByteSize_parts bytes Hb) as (i & u & Hu & Hfmt & Hi & Hlo & Hhi).
  assert (0 < 1024 ^ Z.of_nat i) as Hpow by (apply Z.pow_pos_nonneg; lia).
  exists i, u, (numeric.round_half_even (10 * bytes) (1024 ^ Z.of_nat i)).
  split; [done |]. split; [done |]. split; [done |]. split; [done |].
  split; [apply round_half_even_ge; lia |].
  split; [intros Hi4; specialize (Hhi Hi4); apply round_half_even_le; lia |].
  by apply round_half_even_error.
Qed.

Lemma X16_formatByteSize_is_within_half_a_tenth_witness :
  exists (i : nat) (u : string) (t : Z),
    service.units !! i = Some u
    /\ service.formatByteSize 1600 = (numeric.itoa (t / 10) +:+ "." +:+ numeric.itoa (t mod 10))
         +:+ " " +:+ u
    /\ 1024 ^ Z.of_nat i <= 1600
    /\ ((i < 4)%nat -> 1600 < 1024 * 1024 ^ Z.of_nat i)
    /\ 10 <= t
    /\ ((i < 4)%nat -> t <= 10240)
    /\ 2 * Z.abs (t * 1024 ^ Z.of_nat i - 10 * 1600) <= 1024 ^ Z.of_nat i.
Proof.
  apply (X16_formatByteSize_is_within_half_a_tenth 1600). lia.
Defined.

(** X17. Below 1 KiB [formatByteSize] prints the exact number of bytes
    with a decimal that is always 0, as in [512.0 B]; only sizes of zero
    or less are printed without a decimal, as [0 B]. *)
Theorem X17_formatByteSize_below_1024 :
  forall bytes : Z,
    bytes < 1024 ->
    service.formatByteSize bytes
    = if bytes <=? 0 then "0 B" else numeric.itoa bytes +:+ ".0 B".
Proof.
  intros bytes Hb. destruct (Z.leb_spec bytes 0) as [Hle | Hgt].
  { unfold service.formatByteSize.
    by replace (bytes <=? 0) with true by (symmetry; by apply Z.leb_le). }
  destruct (formatByteSize_parts bytes ltac:(lia))
    as (i & u & Hu & -> & Hi & Hlo & Hhi).
  assert (i = 0%nat) as ->.
  { destruct i as [| i]; [done | exfalso].
    assert (1024 ^ 1 <= 1024 ^ Z.of_nat (S i)); [| lia].
    apply Z.pow_le_mono_r; lia. }
  injection Hu as <-.
  unfold numeric.sprintf_1f, numeric.tenths. cbn [numeric.mant numeric.scale].
  change (1024 ^ Z.of_nat 0) with 1.
  rewrite <- (Z.mul_1_r (10 * bytes)), round_half_even_exact by lia.
  replace (10 * bytes / 10) with bytes
    by (rewrite Z.mul_comm, Z.div_mul; lia).
  replace ((10 * bytes) mod 10) with 0
    by (symmetry; rewrite Z.mul_comm; apply Z.mod_mul; lia).
  change (numeric.itoa 0) with "0".
  rewrite !append_assoc. done.
Qed.

Lemma X17_formatByteSize_below_1024_witness :
  service.formatByteSize 512 = "512.0 B".
Proof.
  exact (X17_formatByteSize_below_1024 512 ltac:(lia)).
Defined.

(** ** What the archive holds *)

Section Clean.

Import strings path.

Lemma Split1_no_sep s sep : has_byte sep s = false -> Split1 s sep = [s].
Proof.
  induction s as [| d s IH]; cbn [has_byte Split1]; [done |].
  intros [Hd Hs]%orb_false_iff. by rewrite Hd, (IH Hs).
Qed.

Lemma Split1_app s r sep :
  has_byte sep s = false ->
  Split1 (s +:+ String sep r) sep = s :: Split1 r sep.
Proof.
  induction s as [| d s IH]; cbn [has_byte String.append Split1].
  - by rewrite Ascii.eqb_refl.
  - intros [Hd Hs]%orb_false_iff. by rewrite Hd, (IH Hs).
Qed.

Lemma Split1_Join segs :
  segs <> [] -> Forall (fun s => has_byte "/" s = false) segs ->
  Split1 (Join segs "/") "/" = segs.
Proof.
  induction segs as [| s segs IH]; [done |]. intros _ Hall.
  apply Forall_cons in Hall as [Hs Hall].
  destruct segs as [| s' segs].
  - by apply Split1_no_sep.
  - change (Join (s :: s' :: segs) "/")
      with (s +:+ String "/" (Join (s' :: segs) "/")).
    rewrite Split1_app by done. by rewrite IH.
Qed.

(** A path made of ordinary elements is already clean. *)
Lemma Clean_Join segs :
  segs <> [] ->
  Forall (fun s => s <> "" /\ s <> "." /\ s <> ".." /\ has_byte "/" s = false)
    segs ->
  Clean (Join segs "/") = Join segs "/"
  /\ HasPrefix (Join segs "/") "/" = false.
Proof.
  intros Hne Hall.
  assert (Forall (fun s => has_byte "/" s = false) segs) as Hslash.
  { eapply Forall_impl; [exact Hall |]. by intros s (_ & _ & _ & ?). }
  assert (forall out, fold_left (clean_step false) segs out = rev segs ++ out)
    as Hfold.
  { clear Hne Hslash. induction Hall as [| s segs (H1 & H2 & H3 & _) _ IH];
      intros out; [done |].
    cbn [fold_left rev]. unfold clean_step at 2.
    apply String.eqb_neq in H1, H2, H3. rewrite H1, H2, H3.
    by rewrite IH, <- app_assoc. }
  pose proof (Split1_Join segs Hne Hslash) as Hsplit.
  destruct segs as [| s segs]; [done |].
  apply Forall_cons in Hall as [(Hs & _ & _ & Hs') _].
  destruct s as [| c s]; [done |].
  assert (Ascii.eqb c "/" = false) as Hc.
  { cbn [has_byte] in Hs'. by apply orb_false_iff in Hs' as [? _]. }
  assert (exists p, Join (String c s :: segs) "/" = String c p) as [p Hp].
  { destruct segs; cbn [Join String.append]; by eexists. }
  split.
  - unfold Clean. rewrite Hp at 1. rewrite Hc. cbn zeta.
    rewrite Hsplit, Hfold, app_nil_r, rev_involutive.
    by rewrite Hp.
  - rewrite Hp. cbn [HasPrefix]. by rewrite (Ascii.eqb_sym "/" c), Hc.
Qed.

End Clean.

(** X18. An object with an ordinary relative path is archived under that
    path: when the key is the folder prefix followed by path elements
    that are not empty, not [.] or [..] and hold no slash, cleaning the
    path changes nothing; and unless the path starts with two dots or an
    element ends with two dots before a slash, the archive of the folder
    has an entry with that path as its name and the object's bytes as
    its content. *)
Theorem X18_archive_keeps_relative_paths :
  forall (pagesize fuel : nat) (b : membucket.Bucket) (prefix : string)
         (segs : list string) (v : membucket.Stored),
    (1 <= pagesize)%nat -> (size b < fuel)%nat ->
    segs <> [] ->
    Forall (fun s => s <> "" /\ s <> "." /\ s <> ".."
                     /\ strings.has_byte "/" s = false) segs ->
    b !! (prefix +:+ strings.Join segs "/") = Some v ->
    service.safePath prefix (prefix +:+ strings.Join segs "/")
    = strings.Join segs "/"
    /\ (strings.HasPrefix (strings.Join segs "/") ".." = false ->
        strings.Contains (strings.Join segs "/") "../" = false ->
        exists entries filename,
          service.ZipFolder (membucket.client pagesize) fuel prefix b
          = Some (inr (entries, filename))
          /\ (strings.Join segs "/", membucket.body v) ∈ entries).
Proof.
  intros pagesize fuel b prefix segs v Hn Hfuel Hne Hall Hv.
  destruct (Clean_Join segs Hne Hall) as [Hclean Hfirst].
  set (rel := strings.Join segs "/") in *.
  assert (service.safePath prefix (prefix +:+ rel) = rel) as Hsafe.
  { unfold service.safePath. rewrite TrimPrefix_app, Hclean.
    unfold strings.TrimPrefix. by rewrite Hfirst. }
  split; [done |]. intros Hdots Hup.
  unfold service.ZipFolder. rewrite ListAllObjects_membucket by done.
  eexists _, _. split; [done |].
  apply ZipFolder_entries_spec.
  exists (membucket.to_object (prefix +:+ rel, v)), (prefix +:+ rel).
  eexists. split; [| split; [done |]; split; [| split; [| split; [| split]]]].
  - unfold membucket.objects_under. apply list_elem_of_fmap_2.
    apply elem_of_entries_under. split; [done | apply HasPrefix_app].
  - intros Heq. rewrite <- (append_nil_r prefix) in Heq at 2.
    apply append_inj_l in Heq.
    destruct segs as [| s segs]; [done |].
    apply Forall_cons in Hall as [(Hs & _) _].
    subst rel. destruct segs; cbn [strings.Join] in Heq; [done |].
    by apply append_empty_inv in Heq as [? _].
  - unfold storage.GetObject. cbn [s3.GetObject membucket.client].
    by rewrite Hv.
  - by rewrite Hsafe.
  - unfold service.unsafe. rewrite Hdots, Hup, !orb_false_r.
    apply orb_false_iff. split; apply String.eqb_neq.
    + intros Hrel. rewrite Hrel in Hfirst.
      destruct segs as [| s segs]; [done |].
      apply Forall_cons in Hall as [(Hs & _) _].
      subst rel. destruct segs; cbn [strings.Join] in Hrel; [done |].
      by apply append_empty_inv in Hrel as [? _].
    + intros Hrel.
      destruct segs as [| s segs]; [done |].
      apply Forall_cons in Hall as [(_ & Hs & _ & Hslash) _].
      subst rel. destruct segs as [| s' segs]; cbn [strings.Join] in Hrel; [done |].
      destruct s as [| c s]; cbn [String.append] in Hrel; [done |].
      injection Hrel as _ Hrel. by apply append_empty_inv in Hrel as [_ ?].
  - done.
Qed.

Lemma X18_archive_keeps_relative_paths_witness :
  service.safePath "a/" ("a/" +:+ strings.Join ["y"; "z"] "/")
  = strings.Join ["y"; "z"] "/"
  /\ exists entries filename,
       service.ZipFolder (membucket.client 2) 4 "a/" samples.folder_a
       = Some (inr (entries, filename))
       /\ ("y/z", "zzz") ∈ entries.
Proof.
  destruct (X18_archive_keeps_relative_paths 2 4 samples.folder_a "a/"
              ["y"; "z"] (samples.obj "zzz" 3)) as [Hsafe Harch].
  - lia.
  - vm_compute; lia.
  - done.
  - repeat constructor; done.
  - by vm_compute.
  - split; [exact Hsafe |]. apply Harch; by vm_compute.
Defined.

(** ** What a client of the API can see *)

(** X19. The handlers of delete, rename and copy never send a failure
    report: a response with status 200 carries the outcome of a call
    that succeeded, with every requested key under [deleted] and nothing
    under [failed], or with [success] set; every failure is answered with
    another status and an error text that is fixed by the handler, so
    neither the list of failed keys nor the message of the service
    reaches the client. *)
Theorem X19_handlers_send_success_or_fixed_error :
  forall (St Token UUID : Type) (store : s3.Client St Token)
         (userID bucketID : option UUID),
    (forall req fuel st st' response,
        api.DeleteObjects store userID bucketID req fuel st
        = Some (st', response) ->
        match api.body response with
        | api.result_deleted result =>
            api.status response = 200
            /\ req = Some (service.Deleted result)
            /\ service.Failed result = []
        | api.error message =>
            api.status response <> 200
            /\ message ∈ ["Unauthorized"; "Invalid bucket ID";
                          "Invalid request body"; "Failed to delete objects"]
        | api.result_operation _ => False
        end)
    /\ (forall req fuel st st' response,
          api.RenameObject store userID bucketID req fuel st
          = Some (st', response) ->
          match api.body response with
          | api.result_operation result =>
              api.status response = 200 /\ service.Success result = true
          | api.error message =>
              api.status response <> 200
              /\ message ∈ ["Unauthorized"; "Invalid bucket ID";
                            "Invalid request body"; "Failed to rename object"]
          | api.result_deleted _ => False
          end)
    /\ (forall req st st' response,
          api.CopyObject store userID bucketID req st = (st', response) ->
          match api.body response with
          | api.result_operation result =>
              api.status response = 200 /\ service.Success result = true
          | api.error message =>
              api.status response <> 200
              /\ message ∈ ["Unauthorized"; "Invalid bucket ID";
                            "Invalid request body"; "Failed to copy object"]
          | api.result_deleted _ => False
          end).
Proof.
  intros St Token UUID store userID bucketID.
  split; [| split].
  - intros req fuel st st' response. unfold api.DeleteObjects, api.decoded.
    destruct userID; [| intros [= <- <-]; cbn; split; [done | set_solver]].
    destruct bucketID; [| intros [= <- <-]; cbn; split; [done | set_solver]].
    destruct req as [keys |];
      [| intros [= <- <-]; cbn; split; [done | set_solver]].
    destruct (service.DeleteObjects store fuel keys st)
      as [[st1 [result [err |]]] |] eqn:Hrun; [| | done].
    + intros [= <- <-]. cbn. split; [done | set_solver].
    + intros [= <- <-]. cbn.
      destruct (DeleteObjects_outcome store _ _ _ _ _ _ Hrun)
        as [(_ & -> & ->) | (? & _)]; done.
  - intros req fuel st st' response. unfold api.RenameObject, api.decoded.
    destruct userID; [| intros [= <- <-]; cbn; split; [done | set_solver]].
    destruct bucketID; [| intros [= <- <-]; cbn; split; [done | set_solver]].
    destruct req as [req |];
      [| intros [= <- <-]; cbn; split; [done | set_solver]].
    destruct (service.RenameObject store fuel _ _ st)
      as [[st1 [result [err |]]] |] eqn:Hrun; [| | done].
    + intros [= <- <-]. cbn. split; [done | set_solver].
    + intros [= <- <-]. cbn. split; [done |].
      by apply (RenameObject_outcome store _ _ _ _ _ _ _ Hrun).
  - intros req st st' response. unfold api.CopyObject, api.decoded.
    destruct userID; [| intros [= <- <-]; cbn; split; [done | set_solver]].
    destruct bucketID; [| intros [= <- <-]; cbn; split; [done | set_solver]].
    destruct req as [req |];
      [| intros [= <- <-]; cbn; split; [done | set_solver]].
    destruct (service.CopyObject store _ _ st)
      as [st1 [result [err |]]] eqn:Hrun.
    + intros [= <- <-]. cbn. split; [done | set_solver].
    + intros [= <- <-]. cbn. split; [done |].
      by apply (CopyObject_outcome store _ _ _ _ _ _ Hrun).
Qed.

Lemma X19_handlers_send_success_or_fixed_error_witness :
  api.CopyObject (membucket.client 1000) (Some tt) (Some tt)
    (Some {| api.SourceKey := "gone"; api.DestinationKey := "new" |})
    samples.folder_a
  = (samples.folder_a, api.respondError "Failed to copy object" 500)
  /\ api.status (api.respondError "Failed to copy object" 500) <> 200
  /\ "Failed to copy object"
     ∈ ["Unauthorized"; "Invalid bucket ID"; "Invalid request body";
        "Failed to copy object"].
Proof.
  assert (api.CopyObject (membucket.client 1000) (Some tt) (Some tt)
            (Some {| api.SourceKey := "gone"; api.DestinationKey := "new" |})
            samples.folder_a
          = (samples.folder_a, api.respondError "Failed to copy object" 500))
    as Hrun by (by vm_compute).
  split; [exact Hrun |].
  exact (proj2 (proj2 (X19_handlers_send_success_or_fixed_error
                         _ _ unit (membucket.client 1000) (Some tt) (Some tt)))
           _ _ _ _ Hrun).
Defined.

(** ** Whole buckets *)

Section Buckets.

Import membucket accounts.

Lemma objects_keys_all (b : Bucket) :
  exists keys : list string,
    s3.Key <$> objects_under "" b = Some <$> keys
    /\ NoDup keys /\ length keys = size b
    /\ forall k, k ∈ keys <-> is_Some (b !! k).
Proof.
  exists ((entries_under "" b).*1). split; [| split; [| split]].
  - unfold objects_under. rewrite <- !list_fmap_compose.
    by apply list_fmap_ext.
  - apply NoDup_fmap_fst.
    + intros k v1 v2 [H1 _]%elem_of_entries_under [H2 _]%elem_of_entries_under.
      congruence.
    + rewrite entries_under_Permutation.
      apply NoDup_filter, NoDup_map_to_list.
  - rewrite length_fmap, (Permutation_length (entries_under_Permutation _ _)).
    rewrite <- length_map_to_list. f_equal.
    generalize (map_to_list b). intros l.
    induction l as [| kv l IH]; [done |].
    rewrite filter_cons_True by apply HasPrefix_empty. by rewrite IH.
  - intros k. rewrite list_elem_of_fmap. split.
    + intros ([k' v] & -> & [H _]%elem_of_entries_under). by eexists.
    + intros [v Hv]. exists (k, v). split; [done |].
      apply elem_of_entries_under. split; [done | apply HasPrefix_empty].
Qed.

Lemma omap_id_Some {A} (l : list A) : omap id (Some <$> l) = l.
Proof. induction l as [| a l IH]; [done |]. csimpl. by rewrite IH. Qed.

Lemma foldr_delete_size (b : Bucket) keys :
  NoDup keys -> (forall k, k ∈ keys -> is_Some (b !! k)) ->
  size (foldr delete b keys) = (size b - length keys)%nat.
Proof.
  intros Hnodup Hin. induction Hnodup as [| k keys Hk Hnodup IH];
    cbn [foldr length]; [lia |].
  rewrite map_size_delete_Some.
  - rewrite IH by (intros k' Hk'; apply Hin; by right).
    pose proof (Hin k ltac:(by left)) as [v Hv].
    assert (length keys < size b)%nat; [| lia].
    assert (size (foldr delete b keys) <> 0%nat); [| rewrite IH in *; [lia |]].
    + apply (map_size_ne_0_lookup_2 _ k).
      rewrite lookup_foldr_delete_not_elem_of by done. by eexists.
    + intros k' Hk'. apply Hin. by right.
  - rewrite lookup_foldr_delete_not_elem_of by done. apply Hin. by left.
Qed.

Lemma foldr_delete_subseteq (b : Bucket) keys : foldr delete b keys ⊆ b.
Proof.
  induction keys as [| k keys IH]; cbn [foldr]; [done |].
  etrans; [apply delete_subseteq | exact IH].
Qed.

End Buckets.

(** X20. [ObjectStore.EnsureBucket] creates a bucket only when it is
    missing: afterwards the bucket exists, empty when it was created and
    with everything it held when it was there before, and no other
    bucket has changed. An error of the existence check that does not
    mention [NotFound] or [404] is returned as it is, and no bucket is
    created. *)
Theorem X20_ensure_bucket_creates_only_missing :
  (forall (pagesize : nat) (acc : accounts.Account) (name : string),
      exists acc',
        objectstore.EnsureBucket (accounts.memory pagesize) name acc
        = (acc', None)
        /\ acc' !! name = Some (default ∅ (acc !! name))
        /\ forall other, other <> name -> acc' !! other = acc !! other)
  /\ (forall (St : Type) (client : accounts.Client St) (name : string)
             (st : St) (err : s3.error),
         accounts.HeadBucket client name st = Some err ->
         strings.Contains err "NotFound" = false ->
         strings.Contains err "404" = false ->
         objectstore.EnsureBucket client name st = (st, Some err)).
Proof.
  split.
  - intros pagesize acc name. unfold objectstore.EnsureBucket.
    cbn [accounts.HeadBucket accounts.CreateBucket accounts.memory].
    destruct (acc !! name) as [b |] eqn:Hb.
    + exists acc. split; [done |]. split; [exact Hb | done].
    + exists (<[name := ∅]> acc).
      change (strings.Contains accounts.NotFound "NotFound") with true.
      cbn [orb negb]. split; [done |].
      split; [by rewrite lookup_insert_eq |].
      intros other Hother. by rewrite lookup_insert_ne.
  - intros St client name st err Hhead H1 H2.
    unfold objectstore.EnsureBucket. by rewrite Hhead, H1, H2.
Qed.

Lemma X20_ensure_bucket_creates_only_missing_witness :
  objectstore.EnsureBucket
    {| accounts.HeadBucket := fun _ (_ : unit) => Some "AccessDenied: Forbidden";
       accounts.CreateBucket := fun _ st => (st, None);
       accounts.DeleteBucket := fun _ st => (st, None);
       accounts.ListObjectsV2 := fun _ _ => inl "";
       accounts.DeleteObjects := fun _ _ st => (st, None) |} "photos" tt
  = (tt, Some "AccessDenied: Forbidden").
Proof.
  apply (proj2 X20_ensure_bucket_creates_only_missing); by vm_compute.
Defined.

(** X21. [ObjectStore.DeleteBucket] empties only the first listing page
    before it deletes the bucket: a bucket with at most one page of
    objects is removed from the account; a bucket with more loses the
    objects of the first page and stays, with the store's
    [BucketNotEmpty] as the error. *)
Theorem X21_delete_bucket_empties_first_page_only :
  forall (pagesize : nat) (acc : accounts.Account) (name : string)
         (b : membucket.Bucket),
    (1 <= pagesize)%nat ->
    acc !! name = Some b ->
    ((size b <= pagesize)%nat ->
     objectstore.DeleteBucket (accounts.memory pagesize) name acc
     = (delete name acc, None))
    /\ ((pagesize < size b)%nat ->
        exists b',
          objectstore.DeleteBucket (accounts.memory pagesize) name acc
          = (<[name := b']> acc, Some accounts.BucketNotEmpty)
          /\ b' ⊆ b
          /\ size b' = (size b - pagesize)%nat).
Proof.
  intros pagesize acc name b Hn Hb.
  destruct (objects_keys_all b) as (keys & Hkeys & Hnodup & Hlen & Hin).
  assert (objectstore.DeleteBucket (accounts.memory pagesize) name acc
          = if decide (b = ∅) then (delete name acc, None)
            else accounts.DeleteBucket (accounts.memory pagesize) name
                   (<[name := foldr delete b (take pagesize keys)]> acc))
    as Hrun.
  { unfold objectstore.DeleteBucket.
    cbn [accounts.ListObjectsV2 accounts.memory]. rewrite Hb.
    cbn [s3.serve_pages s3.Contents]. change (default 0%nat None) with 0%nat.
    assert (default [] (s3.chunks pagesize (membucket.objects_under "" b) !! 0%nat)
            = take pagesize (membucket.objects_under "" b)) as ->.
    { unfold s3.chunks.
      destruct (membucket.objects_under "" b); [by rewrite take_nil | done]. }
    assert (length (take pagesize (membucket.objects_under "" b))
            = length (take pagesize keys)) as ->.
    { rewrite !length_take. f_equal. apply (f_equal length) in Hkeys.
      by rewrite !length_fmap in Hkeys. }
    rewrite fmap_take, Hkeys, <- fmap_take.
    destruct (decide (b = ∅)) as [-> | Hne].
    - assert (keys = []) as -> by (by apply length_zero_iff_nil).
      rewrite take_nil. cbn [length Nat.ltb Nat.leb].
      cbn [accounts.DeleteBucket accounts.memory]. rewrite Hb.
      by rewrite decide_True.
    - assert (0 < length (take pagesize keys))%nat as Hpos.
      { rewrite length_take, Hlen.
        apply map_size_non_empty_iff in Hne. lia. }
      apply Nat.ltb_lt in Hpos. rewrite Hpos.
      cbn [accounts.DeleteObjects accounts.memory]. rewrite Hb.
      rewrite bool_decide_eq_false_2.
      + by rewrite omap_id_Some.
      + intros (k & ? & _)%list_elem_of_fmap. done. }
  rewrite Hrun. clear Hrun.
  assert (size (foldr delete b (take pagesize keys))
          = (size b - length (take pagesize keys))%nat) as Hsize.
  { apply foldr_delete_size.
    - eapply sublist_NoDup; [exact Hnodup | apply sublist_take].
    - intros k (i & Hi & _)%elem_of_take. apply Hin.
      by eapply list_elem_of_lookup_2. }
  rewrite length_take, Hlen in Hsize.
  cbn [accounts.DeleteBucket accounts.memory]. rewrite lookup_insert_eq.
  split.
  - intros Hle. destruct (decide (b = ∅)) as [_ | _]; [done |].
    rewrite decide_True by (apply map_size_empty_inv; lia).
    by rewrite delete_insert_eq.
  - intros Hgt.
    destruct (decide (b = ∅)) as [-> | _]; [rewrite map_size_empty in Hgt; lia |].
    rewrite decide_False by (apply map_size_non_empty_iff; lia).
    eexists. split; [done |]. split; [apply foldr_delete_subseteq | lia].
Qed.

Lemma X21_delete_bucket_empties_first_page_only_witness :
  exists b',
    objectstore.DeleteBucket (accounts.memory 2) "photos"
      {["photos" := samples.folder_a]}
    = (<["photos" := b']> {["photos" := samples.folder_a]},
       Some accounts.BucketNotEmpty)
    /\ b' ⊆ samples.folder_a
    /\ size b' = (size samples.folder_a - 2)%nat.
Proof.
  apply (proj2 (X21_delete_bucket_empties_first_page_only 2
                  {["photos" := samples.folder_a]} "photos" samples.folder_a
                  ltac:(lia) ltac:(by vm_compute))).
  vm_compute. lia.
Defined.

(** ** The demo listing *)

Section DemoHelpers.

Import strings demo.

Lemma containsChar_has_byte s c : containsChar s c = has_byte c s.
Proof.
  induction s as [| ch s IH]; cbn [containsChar has_byte]; [done |].
  rewrite IH. by destruct (Ascii.eqb ch c).
Qed.

Lemma startsWithPrefix_HasPrefix s prefix :
  startsWithPrefix s prefix = HasPrefix s prefix.
Proof.
  unfold startsWithPrefix. revert s.
  induction prefix as [| c p IH]; intros s.
  - cbn. by destruct s.
  - destruct s as [| d s]; [done |].
    cbn [String.length String.substring HasPrefix].
    specialize (IH s).
    change (S (String.length s) <? S (String.length p))%nat
      with (String.length s <? String.length p)%nat.
    destruct (String.length s <? String.length p)%nat.
    + destruct (Ascii.eqb c d); [done | done].
    + cbn [String.eqb]. rewrite (Ascii.eqb_sym d c).
      destruct (Ascii.eqb c d); [done | done].
Qed.

Lemma splitFirst_Cut1 s delimiter :
  splitFirst s delimiter
  = match Cut1 s delimiter with
    | (a, Some b) => [a; b]
    | (a, None) => [a]
    end.
Proof.
  unfold splitFirst. induction s as [| ch s IH]; [done |].
  cbn [index Cut1]. destruct (Ascii.eqb ch delimiter); [done |].
  destruct (index s delimiter) as [i |], (Cut1 s delimiter) as [a [b |]];
    cbn [fmap option_fmap option_map String.substring strings.drop] in *;
    by simplify_eq.
Qed.

End DemoHelpers.

(** X22. For a delimiter below [utf8.RuneSelf], the string helpers of the
    demo listing compute what the [strings] package computes:
    [containsChar] is [strings.IndexByte >= 0], [startsWithPrefix] is
    [strings.HasPrefix], and [splitFirst] is [strings.SplitN] with a limit
    of 2. *)
Theorem X22_demo_helpers_agree_with_strings :
  forall (s t : string) (c : ascii),
    (nat_of_ascii c < 128)%nat ->
    demo.containsChar s c = strings.has_byte c s
    /\ demo.startsWithPrefix s t = strings.HasPrefix s t
    /\ demo.splitFirst s c
       = match strings.Cut1 s c with
         | (a, Some b) => [a; b]
         | (a, None) => [a]
         end.
Proof.
  intros s t c _. split; [apply containsChar_has_byte |].
  split; [apply startsWithPrefix_HasPrefix | apply splitFirst_Cut1].
Qed.

Lemma X22_demo_helpers_agree_with_strings_witness :
  (nat_of_ascii "/" < 128)%nat
  /\ demo.containsChar "docs/a.txt" "/" = true
  /\ demo.startsWithPrefix "docs/a.txt" "docs/" = true
  /\ demo.splitFirst "docs/a.txt" "/" = ["docs"; "a.txt"].
Proof.
  assert (nat_of_ascii "/" < 128)%nat as Hlow by (vm_compute; lia).
  destruct (X22_demo_helpers_agree_with_strings "docs/a.txt" "docs/" "/" Hlow)
    as (Hcontains & Hprefix & Hsplit).
  split; [done |]. rewrite Hcontains, Hprefix, Hsplit. by vm_compute.
Defined.

Section DemoListing.

Import strings service demo.

Variable hours_ago : Z -> Z.

(** What an entry listed under the prefix [P] looks like. *)
Let child (P : string) (e : BucketObject) : Prop :=
  has_byte "/" (Name e) = false
  /\ ((Kind e = "file" /\ Key e = P +:+ Name e)
      \/ (Kind e = "folder" /\ Key e = P +:+ Name e +:+ "/")).

Lemma getDemoObjects_step_child P acc obj :
  P <> "" ->
  Forall (child P) acc.1 ->
  Forall (child P) (getDemoObjects_step hours_ago P acc obj).1.
Proof.
  intros HP Hacc. destruct acc as [result folderMap]. cbn [fst] in Hacc.
  unfold getDemoObjects_step.
  destruct (String.eqb_spec P "") as [? | _]; [done |].
  rewrite startsWithPrefix_HasPrefix, !containsChar_has_byte.
  destruct (HasPrefix (Key obj) P) eqn:Hp; cbn [negb]; [| done].
  set (rel := drop (String.length P) (Key obj)).
  destruct (String.eqb_spec (Kind obj) "file") as [Hkind | _]; cbn [andb].
  - destruct (has_byte "/" rel) eqn:Hslash; cbn [negb].
    + rewrite splitFirst_Cut1.
      pose proof (Cut1_head_no_sep rel "/") as Hhead.
      destruct (Cut1 rel "/") as [a [b |]]; cbn [fst] in Hhead;
        cbn [lookup list_lookup default from_option]; unfold id;
        (destruct (negb _); [| done]); cbn [fst];
        (apply Forall_app; split; [done |]); apply Forall_singleton;
        (split; [done | by right]).
    + cbn [fst]. apply Forall_app. split; [done |].
      apply Forall_singleton. split; [done |]. left. split; [done |].
      by apply HasPrefix_inv.
  - destruct (has_byte "/" rel) eqn:Hslash; [| done].
    rewrite splitFirst_Cut1.
    pose proof (Cut1_head_no_sep rel "/") as Hhead.
    destruct (Cut1 rel "/") as [a [b |]]; cbn [fst] in Hhead;
      cbn [lookup list_lookup default from_option]; unfold id;
      (destruct (negb _); [| done]); cbn [fst];
      (apply Forall_app; split; [done |]); apply Forall_singleton;
      (split; [done | by right]).
Qed.

Lemma getDemoObjects_fold_child P objects acc :
  P <> "" ->
  Forall (child P) acc.1 ->
  Forall (child P) (fold_left (getDemoObjects_step hours_ago P) objects acc).1.
Proof.
  intros HP. revert acc. induction objects as [| obj objects IH]; intros acc Hacc;
    [done |].
  cbn [fold_left]. apply IH. by apply getDemoObjects_step_child.
Qed.

Lemma getDemoObjects_child bucketName prefix e :
  prefix <> "" ->
  e ∈ getDemoObjects hours_ago bucketName prefix ->
  child (normalize_prefix prefix) e.
Proof.
  intros Hprefix He. unfold getDemoObjects in He.
  assert ((if negb (String.eqb prefix "")
              && negb (bool_decide (last_byte prefix = Some "/"%char))
           then prefix +:+ "/" else prefix) = normalize_prefix prefix) as Hnorm.
  { unfold normalize_prefix. do 2 f_equal.
    destruct (HasSuffix prefix "/") eqn:Hs.
    - apply HasSuffix_byte in Hs. by rewrite bool_decide_eq_true_2.
    - rewrite bool_decide_eq_false_2; [done |].
      intros H. apply HasSuffix_byte in H. congruence. }
  rewrite Hnorm in He.
  destruct (allObjects hours_ago !! bucketName) as [objects |];
    [| by apply elem_of_nil in He].
  revert e He. apply Forall_forall, getDemoObjects_fold_child; [| constructor].
  unfold normalize_prefix.
  destruct (negb (String.eqb prefix "") && negb (HasSuffix prefix "/"));
    [| done].
  intros H. by apply append_empty_inv in H as [_ ?].
Qed.

End DemoListing.

(** X23. The listing of a demo user under a prefix holds immediate
    children only: with the prefix normalized as [ListObjects] normalizes
    it, every entry is a file whose key is the prefix followed by its
    name or a folder whose key is the prefix, its name and a slash, and
    no name contains a slash. A bucket that is not one of the three demo
    buckets lists nothing. *)
Theorem X23_demo_listing_holds_immediate_children :
  forall (hours_ago : Z -> Z) (bucketName prefix : string),
    (forall e,
        prefix <> "" ->
        e ∈ demo.getDemoObjects hours_ago bucketName prefix ->
        strings.has_byte "/" (service.Name e) = false
        /\ ((service.Kind e = "file"
             /\ service.Key e
                = service.normalize_prefix prefix +:+ service.Name e)
            \/ (service.Kind e = "folder"
                /\ service.Key e
                   = service.normalize_prefix prefix +:+ service.Name e
                     +:+ "/")))
    /\ (bucketName ∉ ["product-images"; "user-uploads"; "dev-testing"] ->
        demo.getDemoObjects hours_ago bucketName prefix = []).
Proof.
  intros hours_ago bucketName prefix. split.
  - intros e Hprefix He.
    exact (getDemoObjects_child hours_ago bucketName prefix e Hprefix He).
  - intros Hname. unfold demo.getDemoObjects, demo.allObjects.
    rewrite (not_elem_of_list_to_map_1 _ bucketName); [done |].
    cbn [fmap list_fmap fst]. exact Hname.
Qed.

Lemma X23_demo_listing_holds_immediate_children_witness :
  demo.getDemoObjects (fun h => 1000 - h) "user-uploads" "avatars"
  = [demo.file "avatars/user-avatar-john.png" "user-avatar-john.png" "45 KB"
       880 "image" "text-blue-500";
     demo.file "avatars/user-avatar-sarah.png" "user-avatar-sarah.png" "52 KB"
       900 "image" "text-blue-500"]
  /\ demo.getDemoObjects (fun h => 1000 - h) "other" "avatars" = [].
Proof.
  split; [by vm_compute |].
  apply (proj2 (X23_demo_listing_holds_immediate_children
                  (fun h => 1000 - h) "other" "avatars")).
  rewrite !elem_of_cons, elem_of_nil. by intros [? | [? | [? | []]]].
Defined.

(** ** Listings after a change *)

Section AfterChange.

Import strings service.

Lemma Cut1_inv s c a b : Cut1 s c = (a, Some b) -> s = a +:+ String c b.
Proof.
  revert a. induction s as [| d s IH]; intros a; cbn [Cut1]; [done |].
  destruct (Ascii.eqb_spec d c) as [-> | _]; [by intros [= <- <-] |].
  destruct (Cut1 s c) as [a' b'] eqn:E. intros [= <- ->].
  cbn [String.append]. by rewrite <- (IH a').
Qed.

Lemma Cut1_has_byte s c :
  has_byte c s = true -> exists b, Cut1 s c = ((Cut1 s c).1, Some b).
Proof.
  induction s as [| d s IH]; cbn [has_byte Cut1]; [done |].
  destruct (Ascii.eqb d c); [by eexists |]. cbn [orb]. intros Hs.
  destruct (IH Hs) as [b Hb]. destruct (Cut1 s c) as [a' b'].
  injection Hb as ->. by eexists.
Qed.

(** Without further slashes after the prefix, a key lies under the folder
    it is shown in. *)
Lemma child_of_folder_prefix P k f :
  plain P k -> child_of P k = Some (inl f) -> HasPrefix k f = true.
Proof.
  intros Hplain Hchild.
  pose proof (child_of_immediate_child P k Hplain) as Him.
  rewrite Hchild in Him. unfold immediate_child in Him.
  destruct (HasPrefix k P) eqn:Hp; [| done].
  destruct (String.eqb (TrimPrefix k P) ""); [done |].
  destruct (Contains (TrimPrefix k P) "/") eqn:Hc; injection Him as <-;
    [| rewrite <- (TrimPrefix_inv k P Hp); apply HasPrefix_refl].
  rewrite Contains_byte in Hc.
  destruct (Cut1_has_byte _ _ Hc) as [tail Hcut].
  apply Cut1_inv in Hcut.
  rewrite (TrimPrefix_inv k P Hp) at 1. rewrite Hcut at 1.
  change (String "/" tail) with ("/" +:+ tail).
  rewrite <- !append_assoc. apply HasPrefix_app.
Qed.

Lemma child_of_file_name P name :
  name <> "" -> has_byte "/" name = false ->
  child_of P (P +:+ name) = Some (inr name).
Proof.
  intros Hname Hslash.
  assert (relative_key P (P +:+ name) = Some name) as Hrel.
  { unfold relative_key. destruct (String.eqb_spec P "") as [-> | HP]; [done |].
    cbn [negb]. rewrite HasPrefix_app, TrimPrefix_app. cbn [negb].
    by rewrite has_byte_first. }
  unfold child_of. rewrite Hrel.
  destruct (String.eqb_spec name "") as [? | _]; [done |].
  by rewrite Contains_byte, Hslash.
Qed.

Context `{sorter : sort.SliceSort}.

Lemma file_in_project prefix objects obj k name :
  obj ∈ objects -> s3.Key obj = Some k ->
  child_of (normalize_prefix prefix) k = Some (inr name) ->
  file_entry (normalize_prefix prefix) name obj ∈ project prefix objects.
Proof.
  intros Hobj Hk Hchild.
  destruct (project_parts prefix objects)
    as (folders & files & -> & _ & Hfiles & _).
  destruct (group_inv_group (normalize_prefix prefix) objects)
    as [_ _ _ _ Hinv].
  apply elem_of_app. right. rewrite Hfiles, Hinv.
  apply list_elem_of_omap. exists obj. split; [done |].
  unfold file_of. by rewrite Hk, Hchild.
Qed.

End AfterChange.

(** X24. What was deleted is no longer listed: after
    [BucketService.DeleteObjects], no listing of the bucket has an entry
    whose key is one of the requested keys, folder keys included,
    provided the listing fits in one page of the store and no key of the
    bucket has a further slash right after the listed prefix. *)
Theorem X24_deleted_keys_are_not_listed :
  forall (sorter : sort.SliceSort) (pagesize fuel : nat)
         (b : membucket.Bucket) (keys : list string) (prefix : string),
    (1 <= pagesize)%nat -> (size b < fuel)%nat -> (size b <= pagesize)%nat ->
    (forall k, is_Some (b !! k) ->
               service.plain (service.normalize_prefix prefix) k) ->
    exists b' entries,
      service.DeleteObjects (membucket.client pagesize) fuel keys b
      = Some (b', ({| service.Deleted := keys; service.Failed := [] |}, None))
      /\ service.ListObjects (membucket.client pagesize) prefix b' = inr entries
      /\ forall e, e ∈ entries -> service.Key e ∉ keys.
Proof.
  intros sorter pagesize fuel b keys prefix Hn Hfuel Hpage Hplain.
  destruct (DeleteObjects_recursive pagesize fuel b keys Hn Hfuel)
    as (b' & Hrun & Hgone & _ & Hsubset).
  set (P := service.normalize_prefix prefix) in *.
  assert (forall k, is_Some (b' !! k) -> is_Some (b !! k)) as Hsub.
  { intros k [v Hv]. exists v.
    by apply (proj1 (map_subseteq_spec b' b) Hsubset). }
  exists b', (service.project prefix (membucket.objects_under P b')).
  split; [done |]. split.
  - unfold service.ListObjects. rewrite ListObjects_membucket. fold P.
    rewrite take_ge; [done |].
    pose proof (objects_under_length P b').
    pose proof (map_subseteq_size _ _ Hsubset). lia.
  - intros e He Hin. apply elem_of_project in He. cbn zeta in He. fold P in He.
    destruct He as [[_ (k & Hk & Hchild)] | [_ (k & name & Hk & Hchild & Hkey)]].
    + apply elem_of_objects_keys in Hk as [Hsome _].
      pose proof (Hplain k (Hsub k Hsome)) as Hpl.
      destruct Hsome as [v Hv].
      rewrite (Hgone (service.Key e) k Hin) in Hv; [done |].
      right. split; [by eapply child_of_folder_suffix |].
      by apply (child_of_folder_prefix P).
    + apply elem_of_objects_keys in Hk as [Hsome _].
      pose proof (Hplain k (Hsub k Hsome)) as Hpl.
      destruct Hsome as [v Hv].
      rewrite (Hgone (service.Key e) k Hin) in Hv; [done |].
      left. rewrite Hkey. symmetry. by apply child_of_file_key.
Qed.

Lemma X24_deleted_keys_are_not_listed_witness :
  exists b' entries,
    service.DeleteObjects (membucket.client 1000) 4 ["a/"] samples.folder_a
    = Some (b', ({| service.Deleted := ["a/"]; service.Failed := [] |}, None))
    /\ service.ListObjects (membucket.client 1000) "" b' = inr entries
    /\ forall e, e ∈ entries -> service.Key e ∉ ["a/"].
Proof.
  apply (X24_deleted_keys_are_not_listed insertion_sorter 1000 4
           samples.folder_a ["a/"] "").
  - lia.
  - vm_compute. lia.
  - vm_compute. lia.
  - intros k _ Hne. exfalso. by apply Hne.
Defined.

(** X25. Creating a folder and deleting it again is a round trip: when
    no key of the bucket lies under the new folder key, deleting the key
    that [BucketService.CreateFolder] returned gives back the bucket as
    it was before the folder was created. *)
Theorem X25_create_then_delete_folder_restores_bucket :
  forall (pagesize fuel : nat) (now : Z) (name : string)
         (prefix : option string) (b : membucket.Bucket),
    (1 <= pagesize)%nat -> (S (size b) < fuel)%nat ->
    (forall k,
        strings.HasPrefix k (bucketservice.CreateFolder_key name prefix) = true ->
        b !! k = None) ->
    exists b1 key,
      bucketservice.CreateFolder (stores.put_empty now) name prefix b
      = (b1, inr {| bucketservice.Key := key |})
      /\ b1 !! key
         = Some {| membucket.body := ""; membucket.mtime := now |}
      /\ service.DeleteObjects (membucket.client pagesize) fuel [key] b1
         = Some (b, ({| service.Deleted := [key]; service.Failed := [] |},
                     None)).
Proof.
  intros pagesize fuel now name prefix b Hn Hfuel Hfree.
  set (key := bucketservice.CreateFolder_key name prefix) in *.
  set (b1 := <[key := {| membucket.body := ""; membucket.mtime := now |}]> b).
  exists b1, key. split; [done |].
  split; [by apply lookup_insert_eq |].
  destruct (DeleteObjects_recursive pagesize fuel b1 [key] Hn)
    as (b' & Hrun & Hgone & Hkept & _).
  { subst b1. rewrite map_size_insert.
    destruct (b !! key); unfold id; lia. }
  rewrite Hrun. do 2 f_equal. apply map_eq. intros k.
  destruct (strings.HasPrefix k key) eqn:Hp.
  - rewrite (Hfree k Hp). apply (Hgone key); [apply list_elem_of_here |].
    right. split; [apply CreateFolder_key_suffix | done].
  - rewrite Hkept.
    + subst b1. apply lookup_insert_ne. intros <-.
      by rewrite HasPrefix_refl in Hp.
    + intros key' ->%list_elem_of_singleton. split; [| done].
      intros ->. by rewrite HasPrefix_refl in Hp.
Qed.

Lemma X25_create_then_delete_folder_restores_bucket_witness :
  exists b1 key,
    bucketservice.CreateFolder (stores.put_empty 9) "new" (Some "a")
      samples.folder_a
    = (b1, inr {| bucketservice.Key := key |})
    /\ b1 !! key = Some {| membucket.body := ""; membucket.mtime := 9 |}
    /\ service.DeleteObjects (membucket.client 1000) 5 [key] b1
       = Some (samples.folder_a,
               ({| service.Deleted := [key]; service.Failed := [] |}, None)).
Proof.
  apply (X25_create_then_delete_folder_restores_bucket 1000 5 9 "new"
           (Some "a") samples.folder_a).
  - lia.
  - vm_compute. lia.
  - intros k Hk. apply not_elem_of_list_to_map_1.
    cbn. rewrite !elem_of_cons, elem_of_nil.
    intros [-> | [-> | [-> | []]]]; by vm_compute in Hk.
Defined.

(** X26. An uploaded file is listed: after
    [BucketService.UploadObject] under a key that is the normalized
    prefix followed by a non-empty name without a slash,
    [BucketService.ListObjects] of that prefix has a file entry with
    that key and name, with the length of the body as [formatByteSize]
    prints it and with the time of the upload, provided the listing fits
    in one page of the store. *)
Theorem X26_uploaded_file_is_listed :
  forall (sorter : sort.SliceSort) (pagesize : nat) (now : Z)
         (b : membucket.Bucket) (prefix name body contentType : string),
    name <> "" -> strings.has_byte "/" name = false ->
    (size b < pagesize)%nat ->
    exists b' entries,
      bucketservice.UploadObject (stores.put now)
        (service.normalize_prefix prefix +:+ name) body contentType b
      = (b', None)
      /\ service.ListObjects (membucket.client pagesize) prefix b' = inr entries
      /\ {| service.Key := service.normalize_prefix prefix +:+ name;
            service.Name := name;
            service.Kind := "file";
            service.Size :=
              service.formatByteSize (Z.of_nat (String.length body));
            service.LastModified := now;
            service.Icon := "description";
            service.IconColor := "text-slate-500" |} ∈ entries.
Proof.
  intros sorter pagesize now b prefix name body contentType Hname Hslash Hsize.
  set (P := service.normalize_prefix prefix).
  set (v := {| membucket.body := body; membucket.mtime := now |}).
  set (b' := <[P +:+ name := v]> b).
  exists b', (service.project prefix (membucket.objects_under P b')).
  split; [done |]. split.
  - unfold service.ListObjects. rewrite ListObjects_membucket. fold P.
    rewrite take_ge; [done |].
    pose proof (objects_under_length P b').
    assert (size b' <= S (size b))%nat; [| lia].
    subst b'. rewrite map_size_insert.
    destruct (b !! (P +:+ name)); unfold id; lia.
  - apply (file_in_project prefix _ (membucket.to_object (P +:+ name, v))
             (P +:+ name) name).
    + unfold membucket.objects_under. apply list_elem_of_fmap_2.
      apply elem_of_entries_under. split; [| apply HasPrefix_app].
      subst b'. apply lookup_insert_eq.
    + done.
    + by apply child_of_file_name.
Qed.

Lemma X26_uploaded_file_is_listed_witness :
  exists b' entries,
    bucketservice.UploadObject (stores.put 9)
      (service.normalize_prefix "a" +:+ "w") "hello" "text/plain"
      samples.folder_a
    = (b', None)
    /\ service.ListObjects (membucket.client 1000) "a" b' = inr entries
    /\ {| service.Key := service.normalize_prefix "a" +:+ "w";
          service.Name := "w";
          service.Kind := "file";
          service.Size := service.formatByteSize (Z.of_nat (String.length "hello"));
          service.LastModified := 9;
          service.Icon := "description";
          service.IconColor := "text-slate-500" |} ∈ entries.
Proof.
  apply (X26_uploaded_file_is_listed insertion_sorter 1000 9 samples.folder_a
           "a" "w" "hello" "text/plain");
    [done | by vm_compute | vm_compute; lia].
Defined.

(** ** Where the entries of a listing lie *)

(** X27. Every entry of a folder listing lies strictly below the listed
    prefix: its key starts with the prefix as [ListObjects] normalizes it
    and is longer than it, so the marker of the listed folder itself is
    never an entry, whatever keys the store returned. *)
Theorem X27_entries_lie_below_the_prefix :
  forall (sorter : sort.SliceSort) (prefix : string)
         (objects : list s3.Object) (e : service.BucketObject),
    e ∈ service.project prefix objects ->
    strings.HasPrefix (service.Key e) (service.normalize_prefix prefix) = true
    /\ service.Key e <> service.normalize_prefix prefix.
Proof.
  intros sorter prefix objects e He.
  apply elem_of_project in He. cbn zeta in He.
  set (P := service.normalize_prefix prefix) in *.
  assert (forall x, x <> "" -> P +:+ x <> P) as Hlonger.
  { intros x Hx Heq. rewrite <- (append_nil_r P) in Heq at 2.
    by apply append_inj_l in Heq. }
  destruct He as [[_ (k & _ & Hchild)] | [_ (k & name & _ & Hchild & ->)]].
  - unfold service.child_of in Hchild.
    destruct (service.relative_key P k) as [rel |] eqn:Hrel; [| done].
    destruct (String.eqb_spec rel "") as [| Hne]; [done |].
    destruct (strings.Contains rel "/"); [| done].
    injection Hchild as Hf. rewrite <- Hf. unfold service.folder_prefix.
    assert (P <> "" -> (strings.Cut1 rel "/").1 <> "") as Hraw.
    { intros HP [-> | [r ->]]%Cut1_head_empty; [done |].
      pose proof (relative_key_no_slash P k _ HP Hrel) as Hno. done. }
    destruct (strings.HasSuffix (P +:+ (strings.Cut1 rel "/").1) "/") eqn:Hs;
      cbn [negb].
    + split; [apply HasPrefix_app |].
      destruct (String.eqb_spec P "") as [HP | HP].
      * rewrite HP in *. cbn [String.append] in *.
        intros Hempty. by rewrite Hempty in Hs.
      * apply Hlonger. by apply Hraw.
    + rewrite append_assoc. split; [apply HasPrefix_app |].
      apply Hlonger. intros Hempty.
      by apply append_empty_inv in Hempty as [_ ?].
  - split; [apply HasPrefix_app |]. apply Hlonger.
    unfold service.child_of in Hchild.
    destruct (service.relative_key P k) as [rel |]; [| done].
    destruct (String.eqb_spec rel "") as [| Hne]; [done |].
    destruct (strings.Contains rel "/"); [done |]. by injection Hchild as <-.
Qed.

Lemma X27_entries_lie_below_the_prefix_witness :
  strings.HasPrefix "p/a/" (service.normalize_prefix "p") = true
  /\ "p/a/" <> service.normalize_prefix "p".
Proof.
  apply (X27_entries_lie_below_the_prefix insertion_sorter "p" samples.under_p
           (service.folder_entry "p/a/" "a")).
  vm_compute. set_solver.
Defined.
